(** * Robust allreduce engine: a shallow embedding of [allreduce_robust.cc]

    The engine of [src/allreduce_robust.cc] is embedded function by function.
    Values of type [int] and [size_t] are integers of [Z]; list indices are
    [nat].  Code that can fail an assertion returns a [result]; loops that the
    source writes as [while (true)] take a fuel argument; whatever the engine
    asks of the network (the base engine, the sockets, the readiness
    selection) is answered by an oracle [Env], indexed by a clock that every
    external call advances.  Engine fields are passed explicitly: a function
    receives and returns exactly the fields the source function reads and
    writes. *)

From Stdlib Require Import ZArith List String Lia Bool.
From Stdlib.Strings Require Import Byte.
From stdpp Require Import base numbers list.
Import ListNotations.
Local Open Scope Z_scope.

(** ** Machine integers *)

Definition INT_MAX : Z := 2147483647.
Definition INT_MIN : Z := -2147483648.

(** [static_cast<int>(z)]: the two's complement value of the low 32 bits. *)
Definition static_cast_int (z : Z) : Z :=
  (z + 2147483648) mod 4294967296 - 2147483648.

(** [a + b] on [int] operands. *)
Definition int_add (a b : Z) : Z := static_cast_int (a + b).

Definition in_int_range (z : Z) : Prop := INT_MIN <= z <= INT_MAX.

(** Arithmetic of [size_t] (64 bits, unsigned). *)
Definition SIZE_MODULUS : Z := 18446744073709551616.
Definition size_add (a b : Z) : Z := (a + b) mod SIZE_MODULUS.
Definition size_sub (a b : Z) : Z := (a - b) mod SIZE_MODULUS.
Definition size_mul (a b : Z) : Z := (a * b) mod SIZE_MODULUS.

Definition in_size_range (z : Z) : Prop := 0 <= z < SIZE_MODULUS.

(** ** Results of code that may fail an assertion *)

Inductive result (A : Type) : Type :=
| Done (a : A)
| Abort (msg : string)
| OutOfFuel.
Arguments Done {A} a.
Arguments Abort {A} msg.
Arguments OutOfFuel {A}.

Definition rbind {A B : Type} (m : result A) (k : A -> result B) : result B :=
  match m with
  | Done a => k a
  | Abort msg => Abort msg
  | OutOfFuel => OutOfFuel
  end.

Notation "x <~ m ; k" := (rbind m (fun x => k))
  (at level 20, m at level 100, k at level 200, only parsing).
Notation "' pat <~ m ; k" := (rbind m (fun x => match x with pat => k end))
  (at level 20, pat pattern, m at level 100, k at level 200, only parsing).
Notation "'check!' m ; k" := (rbind m (fun _ => k))
  (at level 20, m at level 100, k at level 200, only parsing).

(** [utils::Assert] and [utils::Check] stop the process when the condition
    is false. *)
Definition utils_Assert (cond : bool) (msg : string) : result unit :=
  if cond then Done tt else Abort msg.
Definition utils_Check (cond : bool) (msg : string) : result unit :=
  if cond then Done tt else Abort msg.

(** What one pass of a loop body decides. *)
Inductive ctl (S R : Type) : Type :=
| Next (s : S)
| Return (r : R).
Arguments Next {S R} s.
Arguments Return {S R} r.

(** [for (i = 0; i < n; ++i) body], where the body may return from the
    enclosing function or fail an assertion. *)
Fixpoint for_range {S R : Type} (idx : list nat)
    (body : nat -> S -> result (ctl S R)) (s : S) : result (ctl S R) :=
  match idx with
  | [] => Done (Next s)
  | i :: rest =>
      match body i s with
      | Done (Next s') => for_range rest body s'
      | other => other
      end
  end.

(** [for (i = 0; i < n; ++i) body] without [return] or [break]. *)
Fixpoint for_each {S : Type} (idx : list nat) (body : nat -> S -> result S)
    (s : S) : result S :=
  match idx with
  | [] => Done s
  | i :: rest => s' <~ body i s ; for_each rest body s'
  end.

(** ** Enumerations and records of the engine *)

Inductive ReturnType : Type := kSuccess | kSockError | kGetExcept.
Inductive RecoverType : Type := kHaveData | kRequestData | kPassData.

Definition is_success (r : ReturnType) : bool :=
  match r with kSuccess => true | _ => false end.
Definition is_kHaveData (r : RecoverType) : bool :=
  match r with kHaveData => true | _ => false end.
Definition is_kRequestData (r : RecoverType) : bool :=
  match r with kRequestData => true | _ => false end.
Definition is_kPassData (r : RecoverType) : bool :=
  match r with kPassData => true | _ => false end.

(** The fields of a link the engine touches: whether the socket is bad
    (closed), the two byte counters and the size of the ring buffer. *)
Record LinkRecord : Type := mkLink {
  sock_bad : bool;
  size_read : Z;
  size_write : Z;
  buffer_size : Z
}.

Definition set_size_read (v : Z) (l : LinkRecord) : LinkRecord :=
  mkLink (sock_bad l) v (size_write l) (buffer_size l).
Definition set_size_write (v : Z) (l : LinkRecord) : LinkRecord :=
  mkLink (sock_bad l) (size_read l) v (buffer_size l).
Definition set_buffer_size (v : Z) (l : LinkRecord) : LinkRecord :=
  mkLink (sock_bad l) (size_read l) (size_write l) v.
(** [sock.Close()]: from then on [sock.BadSocket()] holds. *)
Definition sock_Close (l : LinkRecord) : LinkRecord :=
  mkLink true (size_read l) (size_write l) (buffer_size l).
(** [ResetSize()]. *)
Definition ResetSize (l : LinkRecord) : LinkRecord :=
  mkLink (sock_bad l) 0 0 (buffer_size l).

Definition null_link : LinkRecord := mkLink true 0 0 0.

(** [links[i]] for an [int] index. *)
Definition link_at (links : list LinkRecord) (i : Z) : LinkRecord :=
  if i <? 0 then null_link else default null_link (links !! Z.to_nat i).

Definition update_link (links : list LinkRecord) (i : Z)
    (f : LinkRecord -> LinkRecord) : list LinkRecord :=
  if i <? 0 then links else <[Z.to_nat i := f (link_at links i)]> links.

(** Modelled from the spec: [ActionSummary] (declared in the header, which is
    not part of the sources).  Three flag bits, the minimum sequence number
    and the tracker of differing sequence numbers. *)
Record ActionSummary : Type := mkAction {
  load_check : bool;
  check_point : bool;
  check_ack : bool;
  diff_seq : bool;
  min_seqno : Z
}.

(** Constants of the header and of the platform, not fixed by the sources. *)
Record Constants : Type := mkConstants {
  kMaxSeq : Z;
  kLoadCheck : Z;
  kCheckPoint : Z;
  kCheckAck : Z;
  EAGAIN : Z;
  EWOULDBLOCK : Z;
  kResetMark : byte;
  kResetAck : byte;
  (** the ring size [InitBuffer(sizeof(int), 1 << 10, reduce_buffer_size)]
      leaves in a link *)
  reset_buffer_size : Z
}.

(** ** The network as an oracle *)

(** What [recv] finds: bytes waiting (it hands over at most as many as asked
    for), the peer gone (it returns 0), or an error (it returns -1 and sets
    [errno]). *)
Inductive RecvOutcome : Type :=
| RecvBytes (data : list byte)
| RecvClosed
| RecvErr (errno : Z).

(** What [send] finds: room for [n] bytes (it takes at most as many as
    offered), or an error. *)
Inductive SendOutcome : Type :=
| SendRoom (n : Z)
| SendErr (errno : Z).

(** Readiness of one socket as [Select] reports it. *)
Record Ready : Type := mkReady {
  rd_except : bool;
  rd_read : bool;
  rd_write : bool
}.

Record Env : Type := mkEnv {
  (** base [TryAllreduce] on the action summary: outcome and reduced summary *)
  env_reduce : nat -> ActionSummary -> ReturnType * ActionSummary;
  (** base [TryAllreduce] on user data: outcome and what the buffer holds *)
  env_allreduce : nat -> list byte -> ReturnType * list byte;
  (** base [TryBroadcast]: outcome and what the buffer holds *)
  env_broadcast : nat -> list byte -> Z -> ReturnType * list byte;
  (** inbound edge values of the two message passes *)
  env_dist_in : nat -> ReturnType * list (Z * Z);
  env_req_in : nat -> ReturnType * list Z;
  (** the link set [ReConnectLinks] builds *)
  env_reconnect : nat -> list LinkRecord;
  (** sockets *)
  env_select : nat -> nat -> Ready;
  env_recv : nat -> RecvOutcome;
  env_send : nat -> SendOutcome;
  env_atmark : nat -> Z
}.

(** The link set of the engine and the clock of the oracle. *)
Record Net : Type := mkNet {
  links : list LinkRecord;
  clock : nat
}.

Definition tick (n : Net) : Net := mkNet (links n) (S (clock n)).
Definition set_links (ls : list LinkRecord) (n : Net) : Net := mkNet ls (clock n).

(** ** The result buffer *)

(** Modelled from the spec: [ResultBuffer] (declared in the header, which is
    not part of the sources): the entries in the order they were committed,
    and the scratch region [AllocTemp] hands out. *)
Record ResultEntry : Type := mkEntry {
  e_seqno : Z;
  e_type_nbytes : Z;
  e_count : Z;
  e_payload : list byte
}.

Record ResultBuffer : Type := mkResultBuffer {
  rb_entries : list ResultEntry;
  rb_temp : list byte
}.

Definition set_temp (temp : list byte) (rb : ResultBuffer) : ResultBuffer :=
  mkResultBuffer (rb_entries rb) temp.

Definition Clear (rb : ResultBuffer) : ResultBuffer :=
  mkResultBuffer [] (rb_temp rb).

(** [LastSeqNo()] is -1 on an empty buffer. *)
Definition LastSeqNo (rb : ResultBuffer) : Z :=
  match last (rb_entries rb) with
  | Some e => e_seqno e
  | None => -1
  end.

Definition DropLast (rb : ResultBuffer) : ResultBuffer :=
  mkResultBuffer (removelast (rb_entries rb)) (rb_temp rb).

(** [AllocTemp(type_nbytes, count)] reserves the scratch region. *)
Definition AllocTemp (type_nbytes count : Z) (rb : ResultBuffer) : ResultBuffer :=
  set_temp (resize (Z.to_nat (size_mul type_nbytes count)) x00 (rb_temp rb)) rb.

(** [PushTemp(seqno, type_nbytes, count)] commits the scratch region as the
    new last entry. *)
Definition PushTemp (seqno type_nbytes count : Z) (rb : ResultBuffer)
    : ResultBuffer :=
  mkResultBuffer
    (rb_entries rb ++
     [mkEntry seqno type_nbytes count
        (take (Z.to_nat (size_mul type_nbytes count)) (rb_temp rb))])
    (rb_temp rb).

(** [Query(seqno, &size)]: the payload and its length, if the entry is there. *)
Definition Query (rb : ResultBuffer) (seqno : Z) : option (list byte * Z) :=
  match find (fun e => e_seqno e =? seqno) (rb_entries rb) with
  | Some e => Some (e_payload e, Z.of_nat (length (e_payload e)))
  | None => None
  end.

(** Modelled from the spec: the checkpoint blob holds the version number and
    then the serialized model; [fs.Read(&version_number, sizeof(int))] copies
    the bytes there are (at most four, lowest first) over the variable. *)
Definition int_bytes (v : Z) : list byte :=
  map (fun k => default x00 (Byte.of_N (Z.to_N ((v / 256 ^ k) mod 256))))
      [0; 1; 2; 3].

Definition int_of_bytes (bs : list byte) : Z :=
  static_cast_int
    (fold_right (fun b acc => Z.of_N (Byte.to_N b) + 256 * acc) 0 (take 4 bs)).

Definition stream_read_int (blob : list byte) (current : Z) : Z * list byte :=
  let got := take 4 blob in
  (int_of_bytes (got ++ drop (length got) (int_bytes current)), drop 4 blob).

(** ** Message-passing combinators (lines 353-400) *)

(** The loop of [ShortestDist] from index [i] on, with [res] and [size] as
    they stand. *)
Fixpoint ShortestDist_scan (dist_in : list (Z * Z)) (i out_index : nat)
    (res size : Z) : Z * Z :=
  match dist_in with
  | [] => (res, size)
  | d :: rest =>
      if Nat.eqb i out_index then ShortestDist_scan rest (S i) out_index res size
      else if fst d =? INT_MAX then ShortestDist_scan rest (S i) out_index res size
      else if int_add (fst d) 1 <? res
           then ShortestDist_scan rest (S i) out_index (int_add (fst d) 1) (snd d)
           else ShortestDist_scan rest (S i) out_index res size
  end.

Definition ShortestDist (node_value : bool * Z) (dist_in : list (Z * Z))
    (out_index : nat) : Z * Z :=
  if fst node_value then (1, snd node_value)
  else ShortestDist_scan dist_in 0 out_index INT_MAX 0.

(** The loop of [DataRequest] from index [i] on. *)
Fixpoint DataRequest_scan (req_in : list Z) (i out_index : nat) : Z :=
  match req_in with
  | [] => 0
  | r :: rest =>
      if Nat.eqb i out_index then DataRequest_scan rest (S i) out_index
      else if negb (r =? 0) then 1
      else DataRequest_scan rest (S i) out_index
  end.

Definition DataRequest (node_value : bool * Z) (req_in : list Z)
    (out_index : nat) : Z :=
  let request_data := fst node_value in
  let best_link := snd node_value in
  if static_cast_int (Z.of_nat out_index) =? best_link then
    if request_data then 1 else DataRequest_scan req_in 0 out_index
  else 0.

(** Modelled from the spec: [MsgPassing] of the base engine, which is not
    part of the sources.  One round: the inbound edge values arrive from the
    network, and the value sent on each outbound edge is the combinator
    applied to the node value, the inbound values and the edge index. *)
Definition MsgPassing {N E : Type} (incoming : ReturnType * list E)
    (node_value : N) (func : N -> list E -> nat -> E)
    : ReturnType * list E * list E :=
  let '(succ, edge_in) := incoming in
  (succ, edge_in, imap (fun i _ => func node_value edge_in i) edge_in).

(** ** Routing decision (lines 415-460) *)

(** The loop of lines 427-437 from index [i] on. *)
Fixpoint routing_best (dist_in rest : list (Z * Z)) (i : nat)
    (best_link p_size : Z) : result (Z * Z) :=
  match rest with
  | [] => Done (best_link, p_size)
  | d :: rest' =>
      if negb (fst d =? INT_MAX) then
        check! utils_Check ((best_link =? -2) || (p_size =? snd d))
                 "Allreduce size inconsistent" ;
        if (best_link =? -2)
           || (fst d <? fst (default (0, 0) (dist_in !! Z.to_nat best_link)))
        then routing_best dist_in rest' (S i) (static_cast_int (Z.of_nat i)) (snd d)
        else routing_best dist_in rest' (S i) best_link p_size
      else routing_best dist_in rest' (S i) best_link p_size
  end.

(** The loop of lines 450-457 from index [i] on: it fills [p_req_in] and
    checks the two assertions on every link with an outgoing request. *)
Fixpoint routing_requests (req_in : list Z) (req_out : list Z) (i : nat)
    (best_link : Z) : result (list bool) :=
  match req_in with
  | [] => Done []
  | r :: rest =>
      check! (if negb (default 0 (req_out !! i) =? 0) then
                check! utils_Assert (r =? 0) "cannot get and receive request" ;
                utils_Assert (static_cast_int (Z.of_nat i) =? best_link)
                  "request result inconsistent"
              else Done tt) ;
      tl <~ routing_requests rest req_out (S i) best_link ;
      Done (negb (r =? 0) :: tl)
  end.

(** The out-parameters of [TryDecideRouting]. *)
Record Routing : Type := mkRouting {
  rt_size : Z;
  rt_recvlink : Z;
  rt_req_in : list bool
}.

Section Engine.

Variable cfg : Constants.
Variable env : Env.

(** [TryDecideRouting]: [out] holds the out-parameters as the caller passes
    them; they are returned as the function leaves them. *)
Definition TryDecideRouting (role : RecoverType) (out : Routing) (net : Net)
    : result (ReturnType * Routing * Net) :=
  let '(succ, dist_in, dist_out) :=
    MsgPassing (env_dist_in env (clock net))
      (is_kHaveData role, rt_size out) ShortestDist in
  let net := tick net in
  if negb (is_success succ) then Done (succ, out, net) else
  '(best_link, p_size) <~
     (if negb (is_kHaveData role) then
        '(best_link, p_size) <~ routing_best dist_in dist_in 0 (-2) (rt_size out) ;
        check! utils_Check (negb (best_link =? -2))
                 "Too many nodes went down and we cannot recover.." ;
        Done (best_link, p_size)
      else Done (-1, rt_size out)) ;
  let out := mkRouting p_size (rt_recvlink out) (rt_req_in out) in
  let '(succ, req_in, req_out) :=
    MsgPassing (env_req_in env (clock net))
      (is_kRequestData role, best_link) DataRequest in
  let net := tick net in
  if negb (is_success succ) then Done (succ, out, net) else
  p_req_in <~ routing_requests req_in req_out 0 best_link ;
  Done (kSuccess, mkRouting p_size best_link p_req_in, net).

(** ** Sockets and link helpers *)

(** [sock.Recv(buf, maxlen)]: the value returned and the bytes stored. *)
Definition sock_Recv (o : RecvOutcome) (maxlen : Z) : Z * list byte :=
  match o with
  | RecvBytes data =>
      let got := take (Z.to_nat maxlen) data in (Z.of_nat (length got), got)
  | RecvClosed => (0, [])
  | RecvErr _ => (-1, [])
  end.

Definition recv_errno (o : RecvOutcome) : Z :=
  match o with RecvErr e => e | _ => 0 end.

(** [sock.Send(buf, len)]: the value returned. *)
Definition sock_Send (o : SendOutcome) (len : Z) : Z :=
  match o with
  | SendRoom n => Z.max 0 (Z.min n len)
  | SendErr _ => -1
  end.

Definition send_errno (o : SendOutcome) : Z :=
  match o with SendErr e => e | _ => 0 end.

(** [errno == EAGAIN || errno == EWOULDBLOCK]. *)
Definition transient (errno : Z) : bool :=
  (errno =? EAGAIN cfg) || (errno =? EWOULDBLOCK cfg).

(** Bytes [data] stored at offset [off] of a buffer. *)
Definition write_at (buf : list byte) (off : Z) (data : list byte) : list byte :=
  take (Z.to_nat off) buf ++ data ++ drop (Z.to_nat off + length data) buf.

(** Modelled from the spec: [LinkRecord::ReadToArray] (declared with the base
    engine, not part of the sources).  It reads into [recvbuf] from offset
    [size_read] up to [max_size]; a zero-length read closes the socket and
    fails; [EAGAIN] and [EWOULDBLOCK] are retried later. *)
Definition ReadToArray (recvbuf : list byte) (max_size : Z) (l : LinkRecord)
    (o : RecvOutcome) : bool * list byte * LinkRecord :=
  if max_size =? size_read l then (true, recvbuf, l) else
  let '(len, data) := sock_Recv o (size_sub max_size (size_read l)) in
  if len =? 0 then (false, recvbuf, sock_Close l)
  else if len =? -1 then (transient (recv_errno o), recvbuf, l)
  else (true, write_at recvbuf (size_read l) data,
        set_size_read (size_add (size_read l) len) l).

(** Modelled from the spec: [LinkRecord::WriteFromArray].  It writes from
    offset [size_write] of [sendbuf] up to [max_size]. *)
Definition WriteFromArray (max_size : Z) (l : LinkRecord) (o : SendOutcome)
    : bool * LinkRecord :=
  let len := sock_Send o (size_sub max_size (size_write l)) in
  if len =? -1 then (transient (send_errno o), l)
  else (true, set_size_write (size_add (size_write l) len) l).

(** Modelled from the spec: [LinkRecord::ReadToRingBuffer].  It reads into the
    ring buffer without passing [protect_start + buffer_size] (bytes a
    requester has not consumed are not overwritten) and without wrapping
    around the end of the ring in one read, as the write side does at line
    556. *)
Definition ReadToRingBuffer (protect_start : Z) (l : LinkRecord)
    (o : RecvOutcome) : result (bool * LinkRecord) :=
  if buffer_size l =? 0 then Abort "ring buffer of size 0" else
  let ngap := size_sub (size_read l) protect_start in
  let offset := size_read l mod buffer_size l in
  let nmax := Z.min (size_sub (buffer_size l) ngap)
                    (size_sub (buffer_size l) offset) in
  if nmax =? 0 then Done (true, l) else
  let '(len, _) := sock_Recv o nmax in
  if len =? 0 then Done (false, sock_Close l)
  else if len =? -1 then Done (transient (recv_errno o), l)
  else Done (true, set_size_read (size_add (size_read l) len) l).

(** ** Streaming recovery transfer (lines 476-570) *)

Definition req_at (req_in : list bool) (i : nat) : bool :=
  default false (req_in !! i).

(** Line 505: the inbound link is watched for reading. *)
Definition watch_read (size recv_link : Z) (ls : list LinkRecord) (i : nat) : bool :=
  (Z.of_nat i =? recv_link) && negb (size_read (link_at ls (Z.of_nat i)) =? size).

(** Line 509: link [i] still has bytes to be sent. *)
Definition pending_write (size : Z) (req_in : list bool) (ls : list LinkRecord)
    (i : nat) : bool :=
  req_at req_in i && negb (size_write (link_at ls (Z.of_nat i)) =? size).

(** Lines 509-513: link [i] is watched for writing. *)
Definition watch_write (role : RecoverType) (size recv_link : Z)
    (req_in : list bool) (ls : list LinkRecord) (i : nat) : bool :=
  pending_write size req_in ls i
  && (is_kHaveData role
      || (is_kPassData role
          && negb (size_read (link_at ls recv_link)
                   =? size_write (link_at ls (Z.of_nat i))))).

(** Lines 502-518: nothing left to read or to write. *)
Definition transfer_finished (size recv_link : Z) (req_in : list bool)
    (ls : list LinkRecord) : bool :=
  forallb (fun i => negb (watch_read size recv_link ls i)
                    && negb (pending_write size req_in ls i))
          (seq 0 (length ls)).

(** The state one pass of the event loop works on: the buffer and the net. *)
Definition Xfer : Type := (list byte * Net)%type.

(** Readiness after [Select], for the sockets that were watched. *)
Record Selected : Type := mkSelected {
  CheckExcept : nat -> bool;
  CheckRead : nat -> bool;
  CheckWrite : nat -> bool
}.

(** Lines 503-519: build the watch sets on the links as they are, select. *)
Definition do_select (role : RecoverType) (size recv_link : Z)
    (req_in : list bool) (net : Net) : Selected * Net :=
  let t := clock net in
  let ls := links net in
  (mkSelected
     (fun i => rd_except (env_select env t i))
     (fun i => watch_read size recv_link ls i && rd_read (env_select env t i))
     (fun i => watch_write role size recv_link req_in ls i
               && rd_write (env_select env t i)),
   tick net).

(** Lines 524-535. *)
Definition recover_request (sel : Selected) (size recv_link : Z)
    (req_in : list bool) (st : Xfer) : result (ctl Xfer (ReturnType * Xfer)) :=
  let '(buf, net) := st in
  let pid := recv_link in
  r <~ (if CheckRead sel (Z.to_nat pid) then
          let '(ok, buf', l') :=
            ReadToArray buf size (link_at (links net) pid) (env_recv env (clock net)) in
          let net' := tick (set_links (update_link (links net) pid (fun _ => l')) net) in
          if ok then Done (Next (buf', net'))
          else Done (Return (kSockError, (buf', net')))
        else Done (Next (buf, net))) ;
  match r with
  | Return e => Done (Return e)
  | Next st =>
      for_range (seq 0 (length (links (snd st))))
        (fun i '(buf, net) =>
           if req_at req_in i
              && negb (size_write (link_at (links net) (Z.of_nat i))
                       =? size_read (link_at (links net) pid))
              && CheckWrite sel i
           then
             let '(ok, l') :=
               WriteFromArray (size_read (link_at (links net) pid))
                 (link_at (links net) (Z.of_nat i)) (env_send env (clock net)) in
             let net' := tick (set_links
                           (update_link (links net) (Z.of_nat i) (fun _ => l')) net) in
             if ok then Done (Next (buf, net'))
             else Done (Return (kSockError, (buf, net')))
           else Done (Next (buf, net)))
        st
  end.

(** Lines 536-542. *)
Definition recover_have (sel : Selected) (size : Z) (req_in : list bool)
    (st : Xfer) : result (ctl Xfer (ReturnType * Xfer)) :=
  for_range (seq 0 (length (links (snd st))))
    (fun i '(buf, net) =>
       if req_at req_in i && CheckWrite sel i then
         let '(ok, l') :=
           WriteFromArray size (link_at (links net) (Z.of_nat i))
             (env_send env (clock net)) in
         let net' := tick (set_links
                       (update_link (links net) (Z.of_nat i) (fun _ => l')) net) in
         if ok then Done (Next (buf, net'))
         else Done (Return (kSockError, (buf, net')))
       else Done (Next (buf, net)))
    st.

(** Lines 547-550. *)
Definition min_write_of (size : Z) (req_in : list bool) (ls : list LinkRecord) : Z :=
  fold_left (fun acc i =>
               if req_at req_in i
               then Z.min (size_write (link_at ls (Z.of_nat i))) acc else acc)
            (seq 0 (length ls)) size.

(** Lines 543-567.  The clock advances after line 552 whether or not
    [ReadToRingBuffer] has read from the socket: an entry of the oracle that
    is not read is passed over. *)
Definition recover_pass (sel : Selected) (size recv_link : Z)
    (req_in : list bool) (st : Xfer) : result (ctl Xfer (ReturnType * Xfer)) :=
  let '(buf, net) := st in
  let pid := recv_link in
  let bsize := buffer_size (link_at (links net) pid) in
  r <~ (if CheckRead sel (Z.to_nat pid) then
          let min_write := min_write_of size req_in (links net) in
          check! utils_Assert (min_write <=? size_read (link_at (links net) pid))
                   "boundary check" ;
          '(ok, l') <~ ReadToRingBuffer min_write (link_at (links net) pid)
                         (env_recv env (clock net)) ;
          let net' := tick (set_links (update_link (links net) pid (fun _ => l')) net) in
          if ok then Done (Next (buf, net'))
          else Done (Return (kSockError, (buf, net')))
        else Done (Next (buf, net))) ;
  match r with
  | Return e => Done (Return e)
  | Next st =>
      for_range (seq 0 (length (links (snd st))))
        (fun i '(buf, net) =>
           if req_at req_in i && CheckWrite sel i
              && negb (size_read (link_at (links net) pid)
                       =? size_write (link_at (links net) (Z.of_nat i)))
           then
             if bsize =? 0 then Abort "ring buffer of size 0" else
             let li := link_at (links net) (Z.of_nat i) in
             let start := size_write li mod bsize in
             let nwrite := Z.min (size_sub bsize start)
                             (size_sub (size_read (link_at (links net) pid))
                                       (size_write li)) in
             let o := env_send env (clock net) in
             let len := sock_Send o nwrite in
             let net := tick net in
             if negb (len =? -1) then
               Done (Next (buf, set_links
                       (update_link (links net) (Z.of_nat i)
                          (set_size_write (size_add (size_write li) len))) net))
             else if negb (transient (send_errno o))
             then Done (Return (kSockError, (buf, net)))
             else Done (Next (buf, net))
           else Done (Next (buf, net)))
        st
  end.

(** One pass of the loop of lines 501-568. *)
Definition recover_step (role : RecoverType) (size recv_link : Z)
    (req_in : list bool) (st : Xfer) : result (ctl Xfer (ReturnType * Xfer)) :=
  let '(buf, net) := st in
  if transfer_finished size recv_link req_in (links net)
  then Done (Return (kSuccess, (buf, net))) else
  let '(sel, net) := do_select role size recv_link req_in net in
  if existsb (CheckExcept sel) (seq 0 (length (links net)))
  then Done (Return (kGetExcept, (buf, net))) else
  match role with
  | kRequestData => recover_request sel size recv_link req_in (buf, net)
  | kHaveData => recover_have sel size req_in (buf, net)
  | kPassData => recover_pass sel size recv_link req_in (buf, net)
  end.

(** The loop of lines 501-568; the state at exit is returned with the
    outcome. *)
Fixpoint recover_loop (fuel : nat) (role : RecoverType) (size recv_link : Z)
    (req_in : list bool) (st : Xfer) : result (ReturnType * Xfer) :=
  match fuel with
  | O => OutOfFuel
  | S fuel' =>
      match recover_step role size recv_link req_in st with
      | Done (Next st') => recover_loop fuel' role size recv_link req_in st'
      | Done (Return r) => Done r
      | Abort msg => Abort msg
      | OutOfFuel => OutOfFuel
      end
  end.

(** Lines 486-496: does any link, or the node itself, ask for data? *)
Fixpoint any_request (req_in : list bool) (i : nat) (recv_link : Z)
    (req_data : bool) : result bool :=
  match req_in with
  | [] => Done req_data
  | r :: rest =>
      if r then
        check! utils_Assert (negb (Z.of_nat i =? recv_link)) "TryDecideRouting" ;
        any_request rest (S i) recv_link true
      else any_request rest (S i) recv_link req_data
  end.

Definition TryRecoverData (fuel : nat) (role : RecoverType)
    (sendrecvbuf_ : list byte) (size recv_link : Z) (req_in : list bool)
    (net : Net) : result (ReturnType * list byte * Net) :=
  if (length (links net) =? 0)%nat || (size =? 0)
  then Done (kSuccess, sendrecvbuf_, net) else
  check! utils_Assert (length req_in =? length (links net))%nat "TryRecoverData" ;
  req_data <~ any_request req_in 0 recv_link (is_kRequestData role) ;
  if negb req_data then Done (kSuccess, sendrecvbuf_, net) else
  check! utils_Assert ((0 <=? recv_link) || is_kHaveData role)
           "recv_link must be active" ;
  let net := set_links (map ResetSize (links net)) net in
  '(r, (buf, net)) <~ recover_loop fuel role size recv_link req_in
                        (sendrecvbuf_, net) ;
  Done (r, buf, net).

(** ** Link reset (lines 200-312) *)

Definition put_link (i : nat) (l : LinkRecord) (net : Net) : Net :=
  set_links (update_link (links net) (Z.of_nat i) (fun _ => l)) net.

Definition link_ids (net : Net) : list nat := seq 0 (length (links net)).

(** Modelled from the spec: [sock.AtMark()] (socket layer, not part of the
    sources): negative on a socket that is bad, else what the kernel says. *)
Definition sock_AtMark (l : LinkRecord) (answer : Z) : Z :=
  if sock_bad l then -1 else answer.

(** Lines 203-206. *)
Definition reset_init (net : Net) : Net :=
  set_links (map (fun l => ResetSize (set_buffer_size (reset_buffer_size cfg) l))
                 (links net)) net.

(** Lines 209-222: one pass over the links, sending the urgent byte and then
    the in-band mark. *)
Definition reset_send_pass (net : Net) : result Net :=
  for_each (link_ids net)
    (fun i net =>
       let l := link_at (links net) (Z.of_nat i) in
       if sock_bad l then Done net else
       let '(l, net) :=
         if size_write l =? 0 then
           let len := sock_Send (env_send env (clock net)) 1 in
           (if len =? 1 then set_size_write 1 l else l, tick net)
         else (l, net) in
       let '(l, net) :=
         if size_write l =? 1 then
           let len := sock_Send (env_send env (clock net)) 1 in
           (if len =? 1 then set_size_write 2 l else l, tick net)
         else (l, net) in
       Done (put_link i l net))
    net.

(** Lines 224-229. *)
Definition reset_send_finished (net : Net) : bool :=
  forallb (fun l => negb (negb (size_write l =? 2) && negb (sock_bad l)))
          (links net).

(** The loop of lines 208-233. *)
Fixpoint reset_send_marks (fuel : nat) (net : Net) : result Net :=
  match fuel with
  | O => OutOfFuel
  | S fuel' =>
      net <~ reset_send_pass net ;
      if reset_send_finished net then Done net
      else reset_send_marks fuel' (tick net)
  end.

(** Lines 234-238: [WaitExcept] on every live socket. *)
Definition reset_wait_except (net : Net) : result Net :=
  for_each (link_ids net)
    (fun i net =>
       if negb (sock_bad (link_at (links net) (Z.of_nat i)))
       then Done (tick net) else Done net)
    net.

(** Lines 240-255: one pass of reading and discarding up to the mark. *)
Definition reset_drain_pass (net : Net) : result Net :=
  for_each (link_ids net)
    (fun i net =>
       let l := link_at (links net) (Z.of_nat i) in
       if size_read l =? 0 then
         let atmark := sock_AtMark l (env_atmark env (clock net)) in
         let net := tick net in
         if atmark <? 0 then
           check! utils_Assert (sock_bad l) "must already gone bad" ;
           Done net
         else if 0 <? atmark then Done (put_link i (set_size_read 1 l) net)
         else
           let '(len, _) := sock_Recv (env_recv env (clock net)) (buffer_size l) in
           let net := tick net in
           let atmark := sock_AtMark l (env_atmark env (clock net)) in
           let net := tick net in
           let l := if negb (atmark =? 0) then set_size_read 1 l else l in
           let l := if len =? 0 then sock_Close l else l in
           Done (put_link i l net)
       else Done net)
    net.

(** Lines 257-262. *)
Definition reset_drain_finished (net : Net) : bool :=
  forallb (fun l => negb ((size_read l =? 0) && negb (sock_bad l))) (links net).

(** The loop of lines 239-265. *)
Fixpoint reset_drain (fuel : nat) (net : Net) : result Net :=
  match fuel with
  | O => OutOfFuel
  | S fuel' =>
      net <~ reset_drain_pass net ;
      if reset_drain_finished net then Done net
      else reset_drain fuel' (tick net)
  end.

(** The loop of lines 283-289. *)
Fixpoint reset_send_ack (fuel : nat) (net : Net) : result Net :=
  match fuel with
  | O => OutOfFuel
  | S fuel' =>
      let o := env_send env (clock net) in
      let len := sock_Send o 1 in
      let net := tick net in
      if len =? 1 then Done net
      else if (len =? -1) && negb (transient (send_errno o)) then Done net
      else reset_send_ack fuel' net
  end.

(** [errno != EAGAIN || errno != EWOULDBLOCK], as lines 279 and 302 write it. *)
Definition errno_not_both (errno : Z) : bool :=
  negb (errno =? EAGAIN cfg) || negb (errno =? EWOULDBLOCK cfg).

Definition first_byte_is (data : list byte) (b : byte) : bool :=
  match data with
  | c :: _ => Byte.eqb c b
  | [] => false
  end.

(** Lines 268-291: read the mark in blocking mode, send the acknowledgement. *)
Definition reset_sync (fuel : nat) (net : Net) : result Net :=
  for_each (link_ids net)
    (fun i net =>
       let l := link_at (links net) (Z.of_nat i) in
       if negb (sock_bad l) then
         let o := env_recv env (clock net) in
         let '(len, data) := sock_Recv o 1 in
         let net := tick net in
         if len =? 0 then Done (put_link i (sock_Close l) net)
         else
           net <~ (if 0 <? len then
                     check! utils_Assert (first_byte_is data (kResetMark cfg))
                              "wrong oob msg" ;
                     let atmark := sock_AtMark l (env_atmark env (clock net)) in
                     let net := tick net in
                     check! utils_Assert (negb (atmark =? 1))
                              "should already read past mark" ;
                     Done net
                   else
                     check! utils_Assert (errno_not_both (recv_errno o)) "BUG" ;
                     Done net) ;
           reset_send_ack fuel net
       else Done net)
    net.

(** Lines 293-307: wait for every acknowledgement. *)
Definition reset_wait_ack (net : Net) : result Net :=
  for_each (link_ids net)
    (fun i net =>
       let l := link_at (links net) (Z.of_nat i) in
       if negb (sock_bad l) then
         let o := env_recv env (clock net) in
         let '(len, data) := sock_Recv o 1 in
         let net := tick net in
         if len =? 0 then Done (put_link i (sock_Close l) net)
         else if 0 <? len then
           check! utils_Assert (first_byte_is data (kResetAck cfg)) "wrong Ack MSG" ;
           Done net
         else
           check! utils_Assert (errno_not_both (recv_errno o)) "BUG" ;
           Done net
       else Done net)
    net.

(** Lines 308-311. *)
Definition reset_verdict (net : Net) : ReturnType :=
  if existsb sock_bad (links net) then kSockError else kSuccess.

Definition TryResetLinks (fuel : nat) (net : Net) : result (ReturnType * Net) :=
  net <~ reset_send_marks fuel (reset_init net) ;
  net <~ reset_wait_except net ;
  net <~ reset_drain fuel net ;
  net <~ reset_sync fuel net ;
  net <~ reset_wait_ack net ;
  Done (reset_verdict net, net).

(** ** Recovery of links (lines 320-342) *)

(** Modelled from the spec: [ReConnectLinks] of the base engine rebuilds the
    link set; the network decides what it is. *)
Definition ReConnectLinks (net : Net) : Net :=
  mkNet (env_reconnect env (clock net)) (S (clock net)).

Definition CheckAndRecover (err_type : ReturnType) (net : Net) : bool * Net :=
  if is_success err_type then (true, net) else
  let net := set_links
               (map (fun l => if negb (sock_bad l) then sock_Close l else l)
                    (links net)) net in
  (false, ReConnectLinks net).

(** ** Cooperative recovery of a result or of the checkpoint (lines 582-623) *)

Definition TryLoadCheckPoint (fuel : nat) (requester : bool)
    (global_checkpoint : list byte) (net : Net)
    : result (ReturnType * list byte * Net) :=
  let role := if requester then kRequestData else kHaveData in
  let size := Z.of_nat (length global_checkpoint) in
  (* [recv_link] and [req_in] are locals without an initial value *)
  '(succ, out, net) <~ TryDecideRouting role (mkRouting size 0 []) net ;
  if negb (is_success succ) then Done (succ, global_checkpoint, net) else
  let global_checkpoint :=
    if is_kRequestData role
    then resize (Z.to_nat (rt_size out)) x00 global_checkpoint
    else global_checkpoint in
  if rt_size out =? 0 then Done (kSuccess, global_checkpoint, net) else
  TryRecoverData fuel role global_checkpoint (rt_size out) (rt_recvlink out)
    (rt_req_in out) net.

(** The role, the buffer and the size [TryGetResult] works with (lines
    610-616): a node that is not the requester takes them from its result
    buffer. *)
Definition result_role (resbuf : ResultBuffer) (sendrecvbuf : list byte)
    (size seqno : Z) (requester : bool) : RecoverType * list byte * Z :=
  if negb requester then
    match Query resbuf seqno with
    | Some (payload, psize) => (kHaveData, payload, psize)
    | None => (kPassData, [], size)
    end
  else (kRequestData, sendrecvbuf, size).

(** Lines 617-622: decide the routes, then move the payload.  The outcome
    comes with what the buffer holds afterwards. *)
Definition route_and_recover (fuel : nat) (role : RecoverType)
    (payload : list byte) (size : Z) (net : Net)
    : result (ReturnType * list byte * Net) :=
  (* [recv_link] and [req_in] are locals without an initial value *)
  '(succ, out, net) <~ TryDecideRouting role (mkRouting size 0 []) net ;
  if negb (is_success succ) then Done (succ, payload, net) else
  check! utils_Check (negb (rt_size out =? 0))
           "zero size check point is not allowed" ;
  TryRecoverData fuel role payload (rt_size out) (rt_recvlink out)
    (rt_req_in out) net.

(** [TryGetResult] returns its outcome and what the caller's buffer holds:
    only the requester works on that buffer. *)
Definition TryGetResult (fuel : nat) (resbuf : ResultBuffer)
    (sendrecvbuf : list byte) (size seqno : Z) (requester : bool) (net : Net)
    : result (ReturnType * list byte * Net) :=
  let '(role, payload, size) :=
    result_role resbuf sendrecvbuf size seqno requester in
  '(r, payload', net) <~ route_and_recover fuel role payload size net ;
  Done (r, if requester then payload' else sendrecvbuf, net).

(** ** The action-summary protocol (lines 641-709) *)

(** Modelled from the spec: the constructor [ActionSummary(flag, seqno)]. *)
Definition make_action (flag seqno : Z) : ActionSummary :=
  mkAction (negb (Z.land flag (kLoadCheck cfg) =? 0))
           (negb (Z.land flag (kCheckPoint cfg) =? 0))
           (negb (Z.land flag (kCheckAck cfg) =? 0))
           false seqno.

(** What [RecoverExec] works on besides the result buffer, which it only
    reads: the caller's buffer, the checkpoint blob and the net. *)
Record Exec : Type := mkExec {
  ex_buf : list byte;
  ex_checkpoint : list byte;
  ex_net : Net
}.

(** Lines 661 and 688: load the checkpoint, then recover the links on an
    error.  [None] stands for [continue]. *)
Definition exec_load_check (fuel : nat) (req : ActionSummary) (st : Exec)
    : result (bool * Exec) :=
  '(r, gc, net) <~ TryLoadCheckPoint fuel (load_check req) (ex_checkpoint st)
                     (ex_net st) ;
  let '(ok, net) := CheckAndRecover r net in
  Done (ok, mkExec (ex_buf st) gc net).

(** Lines 675-676 and 695-696. *)
Definition exec_get_result (fuel : nat) (resbuf : ResultBuffer) (size : Z)
    (req act : ActionSummary) (st : Exec) : result (bool * Exec) :=
  let requester := min_seqno req =? min_seqno act in
  '(r, buf, net) <~ TryGetResult fuel resbuf (ex_buf st) size (min_seqno act)
                      requester (ex_net st) ;
  let '(ok, net) := CheckAndRecover r net in
  Done (ok, mkExec buf (ex_checkpoint st) net).

(** One pass of the loop of lines 647-706. *)
Definition RecoverExec_step (fuel : nat) (resbuf : ResultBuffer) (size : Z)
    (req : ActionSummary) (st : Exec) : result (ctl Exec (bool * Exec)) :=
  let '(succ, act) := env_reduce env (clock (ex_net st)) req in
  let '(ok, net) := CheckAndRecover succ (tick (ex_net st)) in
  let st := mkExec (ex_buf st) (ex_checkpoint st) net in
  if negb ok then Done (Next st) else
  if check_ack act then
    if check_point act then
      check! utils_Assert (negb (diff_seq act))
               "check ack & check pt  cannot occur together with normal ops" ;
      if check_point req then Done (Return (true, st)) else Done (Next st)
    else if load_check act then
      '(ok, st) <~ exec_load_check fuel req st ;
      if negb ok then Done (Next st) else
      if load_check req then Done (Return (true, st)) else Done (Next st)
    else
      if check_ack req then Done (Return (true, st)) else Done (Next st)
  else
    if check_point act then
      if diff_seq act then
        check! utils_Assert (negb (min_seqno act =? kMaxSeq cfg)) "min seq bug" ;
        '(ok, st) <~ exec_get_result fuel resbuf size req act st ;
        if negb ok then Done (Next st) else
        if min_seqno req =? min_seqno act
        then Done (Return (true, st)) else Done (Next st)
      else
        if check_point req then Done (Return (true, st)) else Done (Next st)
    else
      if load_check act then
        if negb (diff_seq act) then Done (Return (false, st)) else
        '(ok, st) <~ exec_load_check fuel req st ;
        if negb ok then Done (Next st) else
        if load_check req then Done (Return (true, st)) else Done (Next st)
      else
        check! utils_Assert (negb (min_seqno act =? kMaxSeq cfg)) "min seq bug" ;
        if diff_seq act then
          '(ok, st) <~ exec_get_result fuel resbuf size req act st ;
          if negb ok then Done (Next st) else
          if min_seqno req =? min_seqno act
          then Done (Return (true, st)) else Done (Next st)
        else Done (Return (false, st)).

(** The loop of lines 647-706. *)
Fixpoint RecoverExec_loop (fuel : nat) (resbuf : ResultBuffer) (size : Z)
    (req : ActionSummary) (st : Exec) : result (bool * Exec) :=
  match fuel with
  | O => OutOfFuel
  | S fuel' =>
      match RecoverExec_step fuel' resbuf size req st with
      | Done (Next st') => RecoverExec_loop fuel' resbuf size req st'
      | Done (Return r) => Done r
      | Abort msg => Abort msg
      | OutOfFuel => OutOfFuel
      end
  end.

Definition RecoverExec (fuel : nat) (resbuf : ResultBuffer) (size flag seqno : Z)
    (st : Exec) : result (bool * Exec) :=
  check! (if negb (flag =? 0)
          then utils_Assert (seqno =? kMaxSeq cfg)
                 "must only set seqno for normal operations"
          else Done tt) ;
  RecoverExec_loop fuel resbuf size (make_action flag seqno) st.

(** ** The collective wrappers (lines 56-154) *)

(** The engine's fields. *)
Record Engine : Type := mkEngine {
  rank : Z;
  result_buffer_round : Z;
  seq_counter : Z;
  version_number : Z;
  resbuf : ResultBuffer;
  global_checkpoint : list byte;
  net : Net
}.

Definition exec_of (buf : list byte) (e : Engine) : Exec :=
  mkExec buf (global_checkpoint e) (net e).

(** [std::memcpy(dst, src, n)]. *)
Definition memcpy (dst src : list byte) (n : Z) : list byte :=
  take (Z.to_nat n) src ++ drop (Z.to_nat n) dst.

(** Lines 62-65 and 91-94: the last result is dropped unless its sequence
    number and the rank agree modulo [result_buffer_round].  [%] is the
    remainder of the truncated division; a zero divisor has no defined
    result. *)
Definition drop_last_check (rank round : Z) (rb : ResultBuffer)
    : result ResultBuffer :=
  if negb (LastSeqNo rb =? -1) then
    if round =? 0 then Abort "remainder by zero" else
    if negb (Z.rem (LastSeqNo rb) round =? Z.rem rank round)
    then Done (DropLast rb) else Done rb
  else Done rb.

(** The state of the retry loops of [Allreduce] and [Broadcast]: the flag
    [recovered], the result buffer with its scratch region [temp], and what
    [RecoverExec] works on. *)
Record Retry : Type := mkRetry {
  recovered : bool;
  rt_resbuf : ResultBuffer;
  rt_exec : Exec
}.

(** One pass of the loop of lines 67-78; [nbytes] is [type_nbytes * count]. *)
Definition Allreduce_step (fuel : nat) (nbytes seqno : Z) (st : Retry)
    : result (ctl Retry Retry) :=
  let rb := rt_resbuf st in
  let ex := rt_exec st in
  let rb := set_temp (memcpy (rb_temp rb) (ex_buf ex) nbytes) rb in
  if recovered st then Done (Return (mkRetry true rb ex)) else
  let '(succ, reduced) :=
    env_allreduce env (clock (ex_net ex)) (take (Z.to_nat nbytes) (rb_temp rb)) in
  let rb := set_temp (memcpy (rb_temp rb) reduced nbytes) rb in
  let '(ok, net) := CheckAndRecover succ (tick (ex_net ex)) in
  if ok then
    Done (Return (mkRetry false rb
            (mkExec (memcpy (ex_buf ex) (rb_temp rb) nbytes) (ex_checkpoint ex) net)))
  else
    '(rec, ex) <~ RecoverExec fuel rb nbytes 0 seqno
                    (mkExec (ex_buf ex) (ex_checkpoint ex) net) ;
    Done (Next (mkRetry rec rb ex)).

Fixpoint Allreduce_loop (fuel : nat) (nbytes seqno : Z) (st : Retry)
    : result Retry :=
  match fuel with
  | O => OutOfFuel
  | S fuel' =>
      match Allreduce_step fuel' nbytes seqno st with
      | Done (Next st') => Allreduce_loop fuel' nbytes seqno st'
      | Done (Return r) => Done r
      | Abort msg => Abort msg
      | OutOfFuel => OutOfFuel
      end
  end.

(** What a wrapper leaves: the caller's buffer and the engine. *)
Definition finish_collective (type_nbytes count : Z) (e : Engine) (st : Retry)
    : list byte * Engine :=
  (ex_buf (rt_exec st),
   mkEngine (rank e) (result_buffer_round e) (seq_counter e + 1)
     (version_number e)
     (PushTemp (seq_counter e) type_nbytes count (rt_resbuf st))
     (ex_checkpoint (rt_exec st)) (ex_net (rt_exec st))).

Definition Allreduce (fuel : nat) (sendrecvbuf_ : list byte)
    (type_nbytes count : Z) (e : Engine) : result (list byte * Engine) :=
  let nbytes := size_mul type_nbytes count in
  '(rec, ex) <~ RecoverExec fuel (resbuf e) nbytes 0 (seq_counter e)
                  (exec_of sendrecvbuf_ e) ;
  rb <~ drop_last_check (rank e) (result_buffer_round e) (resbuf e) ;
  let rb := AllocTemp type_nbytes count rb in
  st <~ Allreduce_loop fuel nbytes (seq_counter e) (mkRetry rec rb ex) ;
  Done (finish_collective type_nbytes count e st).

(** One pass of the loop of lines 96-106. *)
Definition Broadcast_step (fuel : nat) (total_size : Z) (root seqno : Z)
    (st : Retry) : result (ctl Retry Retry) :=
  let rb := rt_resbuf st in
  let ex := rt_exec st in
  if recovered st then
    Done (Return (mkRetry true
            (set_temp (memcpy (rb_temp rb) (ex_buf ex) total_size) rb) ex))
  else
    let '(succ, received) :=
      env_broadcast env (clock (ex_net ex)) (ex_buf ex) root in
    let '(ok, net) := CheckAndRecover succ (tick (ex_net ex)) in
    let ex := mkExec (memcpy (ex_buf ex) received total_size)
                (ex_checkpoint ex) net in
    if ok then
      Done (Return (mkRetry false
              (set_temp (memcpy (rb_temp rb) (ex_buf ex) total_size) rb) ex))
    else
      '(rec, ex) <~ RecoverExec fuel rb total_size 0 seqno ex ;
      Done (Next (mkRetry rec rb ex)).

Fixpoint Broadcast_loop (fuel : nat) (total_size root seqno : Z) (st : Retry)
    : result Retry :=
  match fuel with
  | O => OutOfFuel
  | S fuel' =>
      match Broadcast_step fuel' total_size root seqno st with
      | Done (Next st') => Broadcast_loop fuel' total_size root seqno st'
      | Done (Return r) => Done r
      | Abort msg => Abort msg
      | OutOfFuel => OutOfFuel
      end
  end.

Definition Broadcast (fuel : nat) (sendrecvbuf_ : list byte)
    (total_size root : Z) (e : Engine) : result (list byte * Engine) :=
  '(rec, ex) <~ RecoverExec fuel (resbuf e) total_size 0 (seq_counter e)
                  (exec_of sendrecvbuf_ e) ;
  rb <~ drop_last_check (rank e) (result_buffer_round e) (resbuf e) ;
  let rb := AllocTemp 1 total_size rb in
  st <~ Broadcast_loop fuel total_size root (seq_counter e) (mkRetry rec rb ex) ;
  Done (finish_collective 1 total_size e st).

(** ** Loading the checkpoint (lines 132-154) *)

Variable Model : Type.
(** [global_model->Load(fs)]: the model read from the rest of the stream. *)
Variable model_Load : list byte -> Model -> Model.

Definition LoadCheckPoint (fuel : nat) (global_model : Model)
    (local_model : option Model) (e : Engine)
    : result (Z * Model * Engine) :=
  check! utils_Check (match local_model with None => true | Some _ => false end)
           "CheckPoint local_model is not yet supported" ;
  '(loaded, ex) <~ RecoverExec fuel (resbuf e) 0 (kLoadCheck cfg) (kMaxSeq cfg)
                     (exec_of [] e) ;
  if loaded then
    let '(version, rest) := stream_read_int (ex_checkpoint ex) (version_number e) in
    let e := mkEngine (rank e) (result_buffer_round e) 0 version
               (Clear (resbuf e)) (ex_checkpoint ex) (ex_net ex) in
    if version =? 0 then Done (version, global_model, e) else
    let global_model := model_Load rest global_model in
    '(acked, ex) <~ RecoverExec fuel (resbuf e) 0 (kCheckAck cfg) (kMaxSeq cfg)
                      (exec_of [] e) ;
    check! utils_Assert acked "check ack must return true" ;
    Done (version, global_model,
          mkEngine (rank e) (result_buffer_round e) (seq_counter e)
            (version_number e) (resbuf e) (ex_checkpoint ex) (ex_net ex))
  else
    Done (0, global_model,
          mkEngine (rank e) (result_buffer_round e) 0 (version_number e)
            (Clear (resbuf e)) (ex_checkpoint ex) (ex_net ex)).

(** ** Construction, shutdown and parameters (lines 18-47) *)

(** The constructor sets the retention round and the sequence counter; the
    third field it sets, [num_local_replica], is read nowhere in this file.
    The other fields are those of the base engine. *)
Definition AllreduceRobust_new (e : Engine) : Engine :=
  mkEngine (rank e) 1 0 (version_number e) (resbuf e) (global_checkpoint e) (net e).

(** [Shutdown], up to the call of [AllreduceBase::Shutdown], which is not
    part of the sources. *)
Definition Shutdown (fuel : nat) (e : Engine) : result Engine :=
  '(done, ex) <~ RecoverExec fuel (resbuf e) 0 (kCheckPoint cfg) (kMaxSeq cfg)
                   (exec_of [] e) ;
  check! utils_Assert done "check point must return true" ;
  let e := mkEngine (rank e) (result_buffer_round e) 0 (version_number e)
             (Clear (resbuf e)) (ex_checkpoint ex) (ex_net ex) in
  '(acked, ex) <~ RecoverExec fuel (resbuf e) 0 (kCheckAck cfg) (kMaxSeq cfg)
                    (exec_of [] e) ;
  check! utils_Assert acked "check ack must return true" ;
  Done (mkEngine (rank e) (result_buffer_round e) (seq_counter e)
          (version_number e) (resbuf e) (ex_checkpoint ex) (ex_net ex)).

(** [a / b] on [int] operands: the quotient truncated towards zero.
    [INT_MIN / -1], for which the language defines no result, wraps. *)
Definition int_div (a b : Z) : Z := static_cast_int (Z.quot a b).

(** [atoi] of the C library. *)
Variable atoi : string -> Z.

(** [SetParam], after the call of [AllreduceBase::SetParam], which is not
    part of the sources: [world_size] is the field as that call leaves it.
    A division by zero has no defined result. *)
Definition SetParam (name val : string) (world_size : Z) (e : Engine)
    : result Engine :=
  let round :=
    if String.eqb name "result_buffer_round" then atoi val
    else result_buffer_round e in
  round <~ (if String.eqb name "result_replicate" then
              if atoi val =? 0 then Abort "division by zero"
              else Done (Z.max (int_div world_size (atoi val)) 1)
            else Done round) ;
  Done (mkEngine (rank e) round (seq_counter e) (version_number e) (resbuf e)
          (global_checkpoint e) (net e)).

(** ** Saving the checkpoint (lines 171-190) *)

(** [global_model->Save(fs)]: the bytes the model writes to the stream. *)
Variable model_Save : Model -> list byte.

Definition CheckPoint (fuel : nat) (global_model : Model)
    (local_model : option Model) (e : Engine) : result Engine :=
  check! utils_Assert (match local_model with None => true | Some _ => false end)
           "CheckPoint local model is not supported yet" ;
  '(done, ex) <~ RecoverExec fuel (resbuf e) 0 (kCheckPoint cfg) (kMaxSeq cfg)
                   (exec_of [] e) ;
  check! utils_Assert done "check point must return true" ;
  let version := int_add (version_number e) 1 in
  (* the blob is emptied, then written from its start *)
  let blob := int_bytes version ++ model_Save global_model in
  let e := mkEngine (rank e) (result_buffer_round e) 0 version
             (Clear (resbuf e)) blob (ex_net ex) in
  '(acked, ex) <~ RecoverExec fuel (resbuf e) 0 (kCheckAck cfg) (kMaxSeq cfg)
                    (exec_of [] e) ;
  check! utils_Assert acked "check ack must return true" ;
  Done (mkEngine (rank e) (result_buffer_round e) (seq_counter e)
          (version_number e) (resbuf e) (ex_checkpoint ex) (ex_net ex)).

(** ** Ring passing (lines 728-784) *)

(** What the loop of [RingPassing] works on: the buffer, the two positions
    (parameters passed by value, which the loop advances) and the net. *)
Record Ring : Type := mkRing {
  rg_buf : list byte;
  rg_read_ptr : Z;
  rg_write_ptr : Z;
  rg_net : Net
}.

(** Lines 747-750 and 751-754: what the pass watches. *)
Definition ring_watch_read (read_end : Z) (s : Ring) : bool :=
  negb (rg_read_ptr s =? read_end).
Definition ring_watch_write (write_end : Z) (s : Ring) : bool :=
  (rg_write_ptr s <? rg_read_ptr s) && negb (rg_write_ptr s =? write_end).

(** Lines 761-771: the read from the previous link. *)
Definition ring_read (read_end : Z) (prev : nat) (ready : bool) (s : Ring)
    : ctl Ring (ReturnType * Ring) :=
  if negb (rg_read_ptr s =? read_end) && ready then
    let o := env_recv env (clock (rg_net s)) in
    let '(len, data) := sock_Recv o (size_sub read_end (rg_read_ptr s)) in
    let net := tick (rg_net s) in
    if len =? 0 then
      Return (kSockError,
              mkRing (rg_buf s) (rg_read_ptr s) (rg_write_ptr s)
                (set_links (update_link (links net) (Z.of_nat prev) sock_Close) net))
    else if negb (len =? -1) then
      Next (mkRing (write_at (rg_buf s) (rg_read_ptr s) data)
              (size_add (rg_read_ptr s) len) (rg_write_ptr s) net)
    else if negb (transient (recv_errno o)) then
      Return (kSockError, mkRing (rg_buf s) (rg_read_ptr s) (rg_write_ptr s) net)
    else Next (mkRing (rg_buf s) (rg_read_ptr s) (rg_write_ptr s) net)
  else Next s.

(** Lines 772-781: the write to the next link. *)
Definition ring_write (write_end : Z) (ready : bool) (s : Ring)
    : ctl Ring (ReturnType * Ring) :=
  if negb (rg_write_ptr s =? write_end) && (rg_write_ptr s <? rg_read_ptr s)
     && ready then
    let nsend := Z.min (size_sub write_end (rg_write_ptr s))
                       (size_sub (rg_read_ptr s) (rg_write_ptr s)) in
    let o := env_send env (clock (rg_net s)) in
    let len := sock_Send o nsend in
    let net := tick (rg_net s) in
    if negb (len =? -1) then
      Next (mkRing (rg_buf s) (rg_read_ptr s) (size_add (rg_write_ptr s) len) net)
    else if negb (transient (send_errno o)) then
      Return (kSockError, mkRing (rg_buf s) (rg_read_ptr s) (rg_write_ptr s) net)
    else Next (mkRing (rg_buf s) (rg_read_ptr s) (rg_write_ptr s) net)
  else Next s.

(** One pass of the loop of lines 744-782.  [prev] and [next] are the
    positions in the link set of the two records the pointers refer to. *)
Definition RingPassing_step (read_end write_end : Z) (prev next : nat) (s : Ring)
    : ctl Ring (ReturnType * Ring) :=
  let watch_read := ring_watch_read read_end s in
  let watch_write := ring_watch_write write_end s in
  if negb (watch_read || watch_write) then Return (kSuccess, s) else
  let t := clock (rg_net s) in
  let s := mkRing (rg_buf s) (rg_read_ptr s) (rg_write_ptr s) (tick (rg_net s)) in
  if rd_except (env_select env t prev) then Return (kGetExcept, s) else
  if rd_except (env_select env t next) then Return (kGetExcept, s) else
  match ring_read read_end prev (watch_read && rd_read (env_select env t prev)) s with
  | Return r => Return r
  | Next s => ring_write write_end (watch_write && rd_write (env_select env t next)) s
  end.

Fixpoint RingPassing_loop (fuel : nat) (read_end write_end : Z) (prev next : nat)
    (s : Ring) : result (ReturnType * Ring) :=
  match fuel with
  | O => OutOfFuel
  | S fuel' =>
      match RingPassing_step read_end write_end prev next s with
      | Next s' => RingPassing_loop fuel' read_end write_end prev next s'
      | Return r => Done r
      end
  end.

(** [RingPassing]; the outcome comes with the buffer, the positions reached
    and the net. *)
Definition RingPassing (fuel : nat) (sendrecvbuf_ : list byte)
    (read_ptr read_end write_ptr write_end : Z) (prev next : nat) (net : Net)
    : result (ReturnType * Ring) :=
  let s := mkRing sendrecvbuf_ read_ptr write_ptr net in
  if (length (links net) =? 0)%nat || (read_end =? 0) then Done (kSuccess, s) else
  check! utils_Assert (read_end <=? write_end) "boundary check" ;
  check! utils_Assert (read_ptr <=? read_end) "boundary check" ;
  check! utils_Assert (write_ptr <=? write_end) "boundary check" ;
  RingPassing_loop fuel read_end write_end prev next s.

End Engine.

(** ** Concrete constants, links and networks for the examples *)

Definition sample_constants : Constants :=
  mkConstants 67108864 1 2 4 11 11 x01 x02 1024.

Definition fresh_link : LinkRecord := mkLink false 0 0 1024.

Definition plain_action (diff : bool) (seqno : Z) : ActionSummary :=
  mkAction false false false diff seqno.

(** A network in which every reduction succeeds and returns the request
    unchanged (every rank asked the same), no neighbour reports a distance,
    and every socket is ready. *)
Definition quiet_env : Env :=
  mkEnv (fun _ req => (kSuccess, req))
        (fun _ data => (kSuccess, data))
        (fun _ data _ => (kSuccess, data))
        (fun _ => (kSuccess, []))
        (fun _ => (kSuccess, []))
        (fun _ => [])
        (fun _ _ => mkReady false true true)
        (fun _ => RecvClosed)
        (fun _ => SendRoom 1)
        (fun _ => 0).

(** One neighbour, one hop away from a payload of four bytes, which also
    requests data from this node. *)
Definition mutual_request_env : Env :=
  mkEnv (env_reduce quiet_env) (env_allreduce quiet_env) (env_broadcast quiet_env)
        (fun _ => (kSuccess, [(1, 4)]))
        (fun _ => (kSuccess, [1]))
        (env_reconnect quiet_env) (env_select quiet_env)
        (env_recv quiet_env) (env_send quiet_env) (env_atmark quiet_env).

(** One neighbour, one hop away from a payload of four bytes, which asks
    nothing of this node and has five bytes ready to be read. *)
Definition one_source_env : Env :=
  mkEnv (env_reduce quiet_env) (env_allreduce quiet_env) (env_broadcast quiet_env)
        (fun _ => (kSuccess, [(1, 4)]))
        (fun _ => (kSuccess, [0]))
        (fun _ => [fresh_link]) (env_select quiet_env)
        (fun _ => RecvBytes [x0a; x0b; x0c; x0d; x0e])
        (env_send quiet_env) (env_atmark quiet_env).

Definition one_link_net : Net := mkNet [fresh_link] 0.

(** The network a late joiner sees: the other ranks are ahead, so the reduced
    action carries the joiner's sequence number 0 and the mark of differing
    numbers; one neighbour holds the four bytes of the result. *)
Definition late_joiner_env : Env :=
  mkEnv (fun _ _ => (kSuccess, plain_action true 0))
        (env_allreduce quiet_env) (env_broadcast quiet_env)
        (env_dist_in one_source_env) (env_req_in one_source_env)
        (env_reconnect one_source_env) (env_select quiet_env)
        (env_recv one_source_env) (env_send quiet_env) (env_atmark quiet_env).

Definition empty_resbuf : ResultBuffer := mkResultBuffer [] [].

Definition four_zeros : list byte := [x00; x00; x00; x00].

Definition start_exec : Exec := mkExec four_zeros [] one_link_net.

(** An engine at its start: rank 0, every second result retained. *)
Definition start_engine : Engine :=
  mkEngine 0 2 0 0 empty_resbuf [] one_link_net.

(** The network a restarted worker sees when it loads the checkpoint: the
    others are in the middle of their work, so the reduced action carries its
    flag and the mark of differing sequence numbers, and afterwards the
    acknowledgement it asks for; one neighbour holds the blob of five bytes,
    version 3 and one byte of model. *)
Definition restart_env : Env :=
  mkEnv (fun _ req =>
           if check_ack req then (kSuccess, req)
           else (kSuccess, mkAction (load_check req) false false true 0))
        (env_allreduce quiet_env) (env_broadcast quiet_env)
        (fun _ => (kSuccess, [(1, 5)]))
        (fun _ => (kSuccess, [0]))
        (env_reconnect one_source_env) (env_select quiet_env)
        (fun _ => RecvBytes [x03; x00; x00; x00; x41])
        (env_send quiet_env) (env_atmark quiet_env).

(** An engine in the middle of its work: two collectives done, one result
    held. *)
Definition busy_engine : Engine :=
  mkEngine 0 2 2 0
    (mkResultBuffer [mkEntry 0 4 1 [x01; x02; x03; x04]] [])
    [] one_link_net.

(** A model that is the bytes it was loaded from. *)
Definition bytes_Load (rest : list byte) (_ : list byte) : list byte := rest.

(** The network of a worker whose link breaks at the end of a reduction the
    others complete: its first reduction of the action finds every rank at
    the same sequence number, its [TryAllreduce] fails, and from then on the
    others are ahead and hand it the result, four bytes from one neighbour. *)
Definition broken_link_env : Env :=
  mkEnv (fun t req => if Nat.eqb t 0 then (kSuccess, req)
                      else (kSuccess, plain_action true 0))
        (fun _ data => (kSockError, data))
        (env_broadcast quiet_env)
        (env_dist_in one_source_env) (env_req_in one_source_env)
        (env_reconnect one_source_env) (env_select quiet_env)
        (env_recv one_source_env) (env_send quiet_env) (env_atmark quiet_env).

Definition operands : list byte := [x01; x02; x03; x04].

(** The retry loop of [Allreduce] at its start, on the operands. *)
Definition start_retry : Retry :=
  mkRetry false (mkResultBuffer [] four_zeros) (mkExec operands [] one_link_net).

(** The network of a node that passes data on: link 0 leads to the source,
    one hop away from a payload of four bytes, link 1 to the requester, which
    asks for the data.  The source has sent the four bytes of the payload
    and, done with its part, the four bytes of its next message; all eight
    are waiting in the socket. *)
Definition overread_env : Env :=
  mkEnv (env_reduce quiet_env) (env_allreduce quiet_env) (env_broadcast quiet_env)
        (fun _ => (kSuccess, [(1, 4); (INT_MAX, 0)]))
        (fun _ => (kSuccess, [0; 1]))
        (env_reconnect quiet_env)
        (env_select quiet_env)
        (fun _ => RecvBytes [x0a; x0b; x0c; x0d; x00; x00; x00; x01])
        (env_send quiet_env) (env_atmark quiet_env).

Definition two_link_net : Net := mkNet [fresh_link; fresh_link] 0.

(** The network of a lagging worker whose source dies in the middle of the
    transfer and comes back at the worker's own sequence number: the first
    reduction finds the others ahead, two of the four bytes arrive, the next
    read finds the socket closed, and the reduction after the reconnection
    finds every rank at the same number.  The data reduction itself returns
    what it is given. *)
Definition dying_source_env : Env :=
  mkEnv (fun t req => if (t <? 8)%nat then (kSuccess, plain_action true 0)
                      else (kSuccess, req))
        (env_allreduce quiet_env) (env_broadcast quiet_env)
        (env_dist_in one_source_env) (env_req_in one_source_env)
        (env_reconnect one_source_env) (env_select quiet_env)
        (fun t => if Nat.eqb t 4 then RecvBytes [x0a; x0b] else RecvClosed)
        (env_send quiet_env) (env_atmark quiet_env).

(** A model that saves the bytes it is. *)
Definition bytes_Save (m : list byte) : list byte := m.

(** An engine that has saved two checkpoints. *)
Definition second_version_engine : Engine :=
  mkEngine 0 2 0 2 empty_resbuf [] one_link_net.

(** A network on which the reset of one link goes through: every send is
    taken, the socket is at the mark when the drain looks at it and past it
    afterwards, and the peer sends the mark and then its acknowledgement. *)
Definition reset_ok_env : Env :=
  mkEnv (env_reduce quiet_env) (env_allreduce quiet_env) (env_broadcast quiet_env)
        (env_dist_in quiet_env) (env_req_in quiet_env) (env_reconnect quiet_env)
        (env_select quiet_env)
        (fun t => if (t <? 6)%nat then RecvBytes [x01] else RecvBytes [x02])
        (env_send quiet_env)
        (fun t => if Nat.eqb t 3 then 1 else 0).

(** The network of a worker that asks for a checkpoint while another is
    behind: the first reduction carries the checkpoint flag and the mark of
    differing sequence numbers, with 0 as the lowest; the neighbour has no
    source of the result and asks for it; afterwards every reduction returns
    the request. *)
Definition helper_env : Env :=
  mkEnv (fun t req => if Nat.eqb t 0
                      then (kSuccess, mkAction false true false true 0)
                      else (kSuccess, req))
        (env_allreduce quiet_env) (env_broadcast quiet_env)
        (fun _ => (kSuccess, [(INT_MAX, 0)]))
        (fun _ => (kSuccess, [1]))
        (env_reconnect one_source_env) (env_select quiet_env)
        (env_recv quiet_env) (fun _ => SendRoom 4) (env_atmark quiet_env).

(** The network of a worker whose first [TryAllreduce] fails, leaving four
    bytes of a partial result in the scratch region, while every rank is
    at the same sequence number: the reduction of the action returns the
    request, and from the second attempt on the data reduction succeeds; the
    bytes it is given come back in reverse order, which stands for the
    reduced values. *)
Definition failed_attempt_env : Env :=
  mkEnv (env_reduce quiet_env)
        (fun t data => if Nat.eqb t 1 then (kSockError, [xff; xff; xff; xff])
                       else (kSuccess, rev data))
        (env_broadcast quiet_env)
        (env_dist_in quiet_env) (env_req_in quiet_env)
        (env_reconnect one_source_env) (env_select quiet_env)
        (env_recv quiet_env) (env_send quiet_env) (env_atmark quiet_env).

(** * What the claims speak of *)

(** ** [ShortestDist] *)

(** A neighbour the scan may choose, as the specification has it: any link
    but [out_index] whose distance is not [INT_MAX]. *)
Definition reachable_in (dist_in : list (Z * Z)) (out_index : nat)
    (j : nat) (d : Z * Z) : Prop :=
  dist_in !! j = Some d /\ j <> out_index /\ fst d <> INT_MAX.

(** A neighbour the scan can choose: its distance plus one hop is still below
    [INT_MAX]. *)
Definition eligible_in (dist_in : list (Z * Z)) (out_index : nat)
    (j : nat) (d : Z * Z) : Prop :=
  dist_in !! j = Some d /\ j <> out_index /\ fst d < INT_MAX - 1.

(** [j] holds the minimum hop count among the candidates, and no candidate
    of a lower index holds the same. *)
Definition first_minimum (candidate : nat -> Z * Z -> Prop)
    (j : nat) (d : Z * Z) : Prop :=
  candidate j d /\
  forall k d', candidate k d' -> fst d <= fst d' /\ ((k < j)%nat -> fst d < fst d').

(** The specification of [ShortestDist], in its words. *)
Definition ShortestDist_as_specified (node_value : bool * Z)
    (dist_in : list (Z * Z)) (out_index : nat) : Prop :=
  (fst node_value = true ->
   ShortestDist node_value dist_in out_index = (1, snd node_value)) /\
  (fst node_value = false ->
   (forall j d, first_minimum (reachable_in dist_in out_index) j d ->
      ShortestDist node_value dist_in out_index = (fst d + 1, snd d)) /\
   ((forall j d, ~ reachable_in dist_in out_index j d) ->
      fst (ShortestDist node_value dist_in out_index) = INT_MAX)).

(** ** Routing decision *)

(** What the two assertions of lines 453-456 require. *)
Definition requests_as_asserted (req_in req_out : list Z) (best_link : Z) : Prop :=
  forall i ri ro,
    req_in !! i = Some ri -> req_out !! i = Some ro -> ro <> 0 ->
    ri = 0 /\ static_cast_int (Z.of_nat i) = best_link.

(** What the specification says they require: an outgoing request excludes
    an incoming one, except on the link [recv_link]. *)
Definition requests_as_specified (req_in req_out : list Z) (recv_link : Z) : Prop :=
  forall i ri ro,
    req_in !! i = Some ri -> req_out !! i = Some ro -> ro <> 0 ->
    ri = 0 \/ Z.of_nat i = recv_link.

(** The specification's reading of the loop of lines 449-457: requests that
    satisfy it pass the assertions. *)
Definition routing_requests_as_specified (req_in req_out : list Z)
    (recv_link : Z) : Prop :=
  requests_as_specified req_in req_out recv_link ->
  exists p_req_in, routing_requests req_in req_out 0 recv_link = Done p_req_in.

(** Lines 427-438 together: the size the caller passed in does not matter
    as long as no link has been chosen, and a scan that chooses none is
    rejected. *)
Definition choose_link (dist_in rest : list (Z * Z)) (i : nat) (best_link size : Z)
    : result (Z * Z) :=
  '(best_link, p_size) <~ routing_best dist_in rest i best_link size ;
  check! utils_Check (negb (best_link =? -2))
           "Too many nodes went down and we cannot recover.." ;
  Done (best_link, p_size).


(** ** The action-summary protocol *)

(** No flag bit is set in a reduced action. *)
Definition no_flags (act : ActionSummary) : Prop :=
  load_check act = false /\ check_point act = false /\ check_ack act = false.

(** The row "plain, same seqno" of the specification's table: whenever the
    reduced action has no flag and no differing sequence numbers,
    [RecoverExec] returns false, having done nothing but the reduction. *)
Definition RecoverExec_same_seqno_as_specified (cfg : Constants) (env : Env)
    (fuel : nat) (resbuf : ResultBuffer) (size seqno : Z) (st : Exec) : Prop :=
  forall act,
    env_reduce env (clock (ex_net st)) (make_action cfg 0 seqno) = (kSuccess, act) ->
    no_flags act -> diff_seq act = false ->
    RecoverExec cfg env (S fuel) resbuf size 0 seqno st
    = Done (false, mkExec (ex_buf st) (ex_checkpoint st) (tick (ex_net st))).

(** ** Runs of collectives *)

(** A call of one of the two wrappers. *)
Inductive Collective : Type :=
| DoAllreduce (sendrecvbuf_ : list byte) (type_nbytes count : Z)
| DoBroadcast (sendrecvbuf_ : list byte) (total_size root : Z).

Definition run_collective (cfg : Constants) (env : Env) (fuel : nat)
    (c : Collective) (e : Engine) : result (list byte * Engine) :=
  match c with
  | DoAllreduce buf type_nbytes count => Allreduce cfg env fuel buf type_nbytes count e
  | DoBroadcast buf total_size root => Broadcast cfg env fuel buf total_size root e
  end.

(** The calls one after the other, each on the engine the one before left. *)
Fixpoint run_collectives (cfg : Constants) (env : Env) (fuel : nat)
    (cs : list Collective) (e : Engine) : result Engine :=
  match cs with
  | [] => Done e
  | c :: rest =>
      '(_, e') <~ run_collective cfg env fuel c e ;
      run_collectives cfg env fuel rest e'
  end.

(** [t % round == rank % round]. *)
Definition congruent (rank round t : Z) : bool :=
  Z.rem t round =? Z.rem rank round.

(** The sequence numbers a worker holds after [n] collectives: the earlier
    ones that are congruent to its rank, and the last one. *)
Definition retained_seqnos (rank round : Z) (n : nat) : list Z :=
  match n with
  | O => []
  | S m => List.filter (congruent rank round) (map Z.of_nat (seq 0 m)) ++ [Z.of_nat m]
  end.

Definition three_allreduces : list Collective :=
  [DoAllreduce [x01; x02; x03; x04] 4 1;
   DoAllreduce [x05; x06; x07; x08] 4 1;
   DoAllreduce [x09; x0a; x0b; x0c] 4 1].

(** ** The retry loop of [Allreduce] *)

(** The specification's reading of the retry loop: the caller's buffer is
    overwritten only after [TryAllreduce] reports success. *)
Definition Allreduce_overwrite_as_specified (cfg : Constants) (env : Env)
    (fuel : nat) (sendrecvbuf_ : list byte) (type_nbytes count : Z)
    (e : Engine) : Prop :=
  forall buf' e',
    Allreduce cfg env fuel sendrecvbuf_ type_nbytes count e = Done (buf', e') ->
    buf' = sendrecvbuf_ \/
    exists t data reduced, env_allreduce env t data = (kSuccess, reduced).

(** ** The streaming transfer *)

(** The invariant of the event loop of [TryRecoverData], as the
    specification states it: no link has read more than [size] bytes, and a
    link that asks for data has been sent no more than [size] bytes by a node
    that has the data, and no more than was read from the inbound link by the
    others. *)
Definition transfer_invariant (role : RecoverType) (size recv_link : Z)
    (req_in : list bool) (ls : list LinkRecord) : Prop :=
  (forall i l, ls !! i = Some l -> size_read l <= size) /\
  (forall i l, ls !! i = Some l -> req_at req_in i = true ->
     match role with
     | kHaveData => size_write l <= size
     | _ => size_write l <= size_read (link_at ls recv_link)
     end).

(** Link [i] is there and has been sent nothing. *)
Definition nothing_sent (i : nat) (ls : list LinkRecord) : Prop :=
  exists l, ls !! i = Some l /\ size_write l = 0.

(** ** Link reset *)

(** From one state of the net to a later one no link is added or removed and
    no bad socket becomes good. *)
Definition bad_kept (n n' : Net) : Prop :=
  length (links n') = length (links n) /\
  forall i l, links n !! i = Some l -> sock_bad l = true ->
              exists l', links n' !! i = Some l' /\ sock_bad l' = true.


(** The invariant with what the counters are besides: sizes of the range of
    [size_t], not negative. *)
Definition counters_ok (role : RecoverType) (size recv_link : Z)
    (req_in : list bool) (ls : list LinkRecord) : Prop :=
  0 <= size < SIZE_MODULUS /\
  (forall i l, ls !! i = Some l -> 0 <= size_read l /\ 0 <= size_write l) /\
  transfer_invariant role size recv_link req_in ls.

(** ** Recovery as the requester of a transfer *)

(** Lines 672-676 and 692-696: the reduced action [act] sends every rank
    into [TryGetResult], and the worker that asked [req] is the requester:
    no [check_ack], differing sequence numbers, a checkpoint or else no
    [load_check], and the lowest sequence number is the worker's own. *)
Definition requester_of (req act : ActionSummary) : bool :=
  negb (check_ack act) && diff_seq act
  && (check_point act || negb (load_check act))
  && (min_seqno req =? min_seqno act).

(** In the run of the loop of [RecoverExec] from [st], some pass makes the
    worker the requester of a transfer. *)
Fixpoint was_requester (cfg : Constants) (env : Env) (fuel : nat)
    (resbuf : ResultBuffer) (size : Z) (req : ActionSummary) (st : Exec)
    : bool :=
  match fuel with
  | O => false
  | S fuel' =>
      let '(succ, act) := env_reduce env (clock (ex_net st)) req in
      is_success succ && requester_of req act
      || match RecoverExec_step cfg env fuel' resbuf size req st with
         | Done (Next st') => was_requester cfg env fuel' resbuf size req st'
         | _ => false
         end
  end.

(** ** What a node that has the data hands over *)


(** * What the further properties speak of *)

(** ** Routing decision *)

(** The node has a request to send on link [i]: its own, or one that came
    in on another link. *)
Definition has_request_for (request_data : bool) (req_in : list Z) (i : nat)
    : Prop :=
  request_data = true \/
  exists j rj, req_in !! j = Some rj /\ j <> i /\ rj <> 0.

(** Link [j] reports a source of the data, [fst d] hops away. *)
Definition reports_source (dist_in : list (Z * Z)) (j : nat) (d : Z * Z) : Prop :=
  dist_in !! j = Some d /\ fst d <> INT_MAX.

(** What line 452 stores in [p_req_in]: the links that ask for data. *)
Definition asks (req_in : list Z) : list bool :=
  map (fun r => negb (r =? 0)) req_in.

(** The loop of lines 427-437 has looked at the links of [pre]: either none
    reports a source and no link is chosen, or the chosen link is the first
    of those nearest to a source, [p_size] is the size it reports, and every
    link that reports a source reports that size. *)
Definition best_so_far (pre : list (Z * Z)) (best_link p_size : Z) : Prop :=
  (best_link = -2 /\ forall k d', ~ reports_source pre k d') \/
  (exists j d, best_link = Z.of_nat j /\ p_size = snd d /\
               first_minimum (reports_source pre) j d /\
               forall k d', reports_source pre k d' -> snd d' = snd d).

(** ** The streaming transfer *)

(** Nothing is left to read or to write: the inbound link has read [size]
    bytes and every link that asks has been sent [size] bytes. *)
Definition transfer_complete (size recv_link : Z) (req_in : list bool)
    (ls : list LinkRecord) : Prop :=
  forall i l, ls !! i = Some l ->
    (Z.of_nat i = recv_link -> size_read l = size) /\
    (req_at req_in i = true -> size_write l = size).

(** From [buf] to [buf'] the buffer has kept its length and every byte from
    position [size] on. *)
Definition kept_beyond (size : Z) (buf buf' : list byte) : Prop :=
  length buf' = length buf /\
  drop (Z.to_nat size) buf' = drop (Z.to_nat size) buf.

(** ** The action-summary protocol *)

(** The reduction of the action summary keeps the special flags a request
    carries: it combines the flags of all ranks by bitwise or. *)
Definition flags_kept (env : Env) (req : ActionSummary) : Prop :=
  forall t act,
    env_reduce env t req = (kSuccess, act) ->
    (check_point req = true -> check_point act = true) /\
    (check_ack req = true -> check_ack act = true).

(** The requests of [CheckPoint] and [Shutdown]: a checkpoint, then its
    acknowledgement. *)
Definition point_request (cfg : Constants) : ActionSummary :=
  make_action cfg (kCheckPoint cfg) (kMaxSeq cfg).
Definition ack_request (cfg : Constants) : ActionSummary :=
  make_action cfg (kCheckAck cfg) (kMaxSeq cfg).

(** The flags [kCheckPoint] and [kCheckAck] are bits of their own, apart
    from [kLoadCheck]. *)
Definition separate_flags (cfg : Constants) : Prop :=
  kCheckPoint cfg <> 0 /\ kCheckAck cfg <> 0 /\
  Z.land (kCheckPoint cfg) (kLoadCheck cfg) = 0 /\
  Z.land (kCheckAck cfg) (kLoadCheck cfg) = 0.

(** ** Runs of collectives *)

(** The buffer a collective is called on, and the element size and count
    under which it commits its result. *)
Definition collective_buffer (c : Collective) : list byte :=
  match c with
  | DoAllreduce buf _ _ => buf
  | DoBroadcast buf _ _ => buf
  end.

Definition collective_shape (c : Collective) : Z * Z :=
  match c with
  | DoAllreduce _ type_nbytes count => (type_nbytes, count)
  | DoBroadcast _ total_size _ => (1, total_size)
  end.

(** The number of bytes a collective works on. *)
Definition collective_nbytes (c : Collective) : Z :=
  match c with
  | DoAllreduce _ type_nbytes count => size_mul type_nbytes count
  | DoBroadcast _ total_size _ => total_size
  end.

(** The base engine reduces and broadcasts in place: what it leaves has the
    length of what it was given. *)
Definition in_place (env : Env) : Prop :=
  (forall t data, length (snd (env_allreduce env t data)) = length data) /\
  (forall t data root, length (snd (env_broadcast env t data root)) = length data).

(** ** Checkpoints *)

(** The engine [CheckPoint] leaves: the version number raised by one, the
    blob holding the version number and then the bytes the model saved, an
    empty result buffer and the sequence counter at 0. *)
Definition checkpointed (e : Engine) (saved : list byte) (net' : Net) : Engine :=
  mkEngine (rank e) (result_buffer_round e) 0 (int_add (version_number e) 1)
    (Clear (resbuf e))
    (int_bytes (int_add (version_number e) 1) ++ saved) net'.

(** The engine [Shutdown] leaves, before the base engine closes the links. *)
Definition shut_down (e : Engine) (net' : Net) : Engine :=
  mkEngine (rank e) (result_buffer_round e) 0 (version_number e)
    (Clear (resbuf e)) (global_checkpoint e) net'.

(** ** Ring passing *)

(** Where the two positions of [RingPassing] can be, for a call that started
    at [read_ptr] and [write_ptr]: the read position between its start and
    [read_end], the write position between its start and [write_end], and
    never ahead of both its start and the read position. *)
Definition ring_bounds (read_ptr read_end write_ptr write_end : Z) (s : Ring)
    : Prop :=
  read_ptr <= rg_read_ptr s <= read_end /\
  write_ptr <= rg_write_ptr s <= Z.max write_ptr (rg_read_ptr s) /\
  rg_write_ptr s <= write_end.

(** The buffer has kept its length and every byte outside the positions
    from [read_ptr] to [read_end]. *)
Definition ring_buffer_kept (read_ptr read_end : Z) (buf buf' : list byte) : Prop :=
  length buf' = length buf /\
  take (Z.to_nat read_ptr) buf' = take (Z.to_nat read_ptr) buf /\
  drop (Z.to_nat read_end) buf' = drop (Z.to_nat read_end) buf.

(** ** The retry loop of [Allreduce] *)

(** In the retry loop the scratch region has [n] bytes and the caller's
    buffer at least [n]. *)
Definition retry_sized (n : nat) (st : Retry) : Prop :=
  (n <= length (ex_buf (rt_exec st)))%nat /\
  length (rb_temp (rt_resbuf st)) = n.

(** The first [n] bytes of the scratch region and of the caller's buffer are
    the same. *)
Definition retry_agree (n : nat) (st : Retry) : Prop :=
  take n (rb_temp (rt_resbuf st)) = take n (ex_buf (rt_exec st)).

(** The scratch region at the first pass of the retry loop: allocated on
    the result buffer [kept], then filled from the buffer [RecoverExec]
    left. *)
Definition first_scratch (type_nbytes count : Z) (kept : ResultBuffer)
    (ex : Exec) : list byte :=
  memcpy (rb_temp (AllocTemp type_nbytes count kept)) (ex_buf ex)
    (size_mul type_nbytes count).

(** The buffer is as the call found it outside the region it reads into, and
    the links are as it found them. *)
Definition ring_untouched (read_ptr read_end : Z) (buf : list byte)
    (ls : list LinkRecord) (s : Ring) : Prop :=
  ring_buffer_kept read_ptr read_end buf (rg_buf s) /\ links (rg_net s) = ls.

(** The same, but for the previous link, which may have been closed, with
    [kSockError] as the outcome. *)
Definition ring_closed (read_ptr read_end : Z) (buf : list byte) (prev : nat)
    (ls : list LinkRecord) (r : ReturnType * Ring) : Prop :=
  ring_buffer_kept read_ptr read_end buf (rg_buf (snd r)) /\
  (links (rg_net (snd r)) = ls \/
   fst r = kSockError /\
   links (rg_net (snd r)) = update_link ls (Z.of_nat prev) sock_Close).

Ltac ring_solve := unfold ring_bounds; cbn; repeat split; lia.

(** ** Link reset *)

(** A link on which the reset went through: the socket is good, the urgent
    byte and the mark have been sent, the inbound mark has been reached, and
    the ring has the size [InitBuffer] gives it. *)
Definition reset_done (cfg : Constants) (l : LinkRecord) : Prop :=
  sock_bad l = false /\ size_write l = 2 /\ size_read l = 1 /\
  buffer_size l = reset_buffer_size cfg.

(** From one state of the net to a later one no link is added or removed,
    and each link is related to what it was by [R]. *)
Definition links_rel (R : LinkRecord -> LinkRecord -> Prop) (n n' : Net) : Prop :=
  length (links n') = length (links n) /\
  forall i l l', links n !! i = Some l -> links n' !! i = Some l' -> R l l'.

(** What the phases of the reset do to a link: sending the marks changes
    [size_write] only; draining may close the socket and may set [size_read]
    to 1; the synchronisation and the wait for the acknowledgement may close
    the socket. *)
Definition marks_sent (l l' : LinkRecord) : Prop :=
  sock_bad l' = sock_bad l /\ size_read l' = size_read l /\
  buffer_size l' = buffer_size l.

Definition drained (l l' : LinkRecord) : Prop :=
  (sock_bad l = true -> sock_bad l' = true) /\
  size_write l' = size_write l /\ buffer_size l' = buffer_size l /\
  (size_read l' = size_read l \/ size_read l' = 1).

Definition maybe_closed (l l' : LinkRecord) : Prop :=
  (sock_bad l = true -> sock_bad l' = true) /\
  size_write l' = size_write l /\ size_read l' = size_read l /\
  buffer_size l' = buffer_size l.

(** ** A network that keeps going *)

(** No socket ever reports an exception, every socket is ready whenever it
    is watched, every read finds at least one byte and every send takes at
    least one. *)
Definition lively (env : Env) : Prop :=
  (forall t i, rd_except (env_select env t i) = false /\
               rd_read (env_select env t i) = true /\
               rd_write (env_select env t i) = true) /\
  (forall t, exists data, env_recv env t = RecvBytes data /\ data <> []) /\
  (forall t, exists n, env_send env t = SendRoom n /\ 1 <= n).

(** What [RingPassing] has left to do: the bytes still to be read and the
    bytes still to be sent. *)
Definition ring_remaining (read_end write_ptr : Z) (s : Ring) : Z :=
  (read_end - rg_read_ptr s) + (Z.max write_ptr read_end - rg_write_ptr s).

(** The bytes a node that has the data has still to send: for every link
    that asks, what is missing up to [size].  [i] is the index of the first
    link of [ls]. *)
Fixpoint pending_bytes (size : Z) (req_in : list bool) (i : nat)
    (ls : list LinkRecord) : Z :=
  match ls with
  | [] => 0
  | l :: rest =>
      (if req_at req_in i then size - size_write l else 0)
      + pending_bytes size req_in (S i) rest
  end.

(** From [l0] to [l] link [j] was sent more, within [size], and at least one
    byte if it asks and had bytes missing. *)
Definition sent_more (size : Z) (req_in : list bool) (j : nat)
    (l0 l : LinkRecord) : Prop :=
  size_write l0 <= size_write l <= size /\
  (req_at req_in j = true -> size_write l0 < size -> size_write l0 < size_write l).

(** A pass over the links has dealt with those before [k]: they were sent
    more, the others are as they were. *)
Definition sent_up_to (size : Z) (req_in : list bool) (k : nat)
    (ls0 ls : list LinkRecord) : Prop :=
  length ls = length ls0 /\
  forall j l0, ls0 !! j = Some l0 ->
    exists l, ls !! j = Some l /\
              ((j < k)%nat -> sent_more size req_in j l0 l) /\
              ((k <= j)%nat -> l = l0).

(** * Properties *)

(** ** Machine integers *)

Lemma static_cast_int_id (z : Z) : in_int_range z -> static_cast_int z = z.
Proof.
  unfold in_int_range, INT_MIN, INT_MAX, static_cast_int. intros H.
  rewrite Z.mod_small; lia.
Qed.

Lemma static_cast_int_index (i : nat) :
  Z.of_nat i <= INT_MAX -> static_cast_int (Z.of_nat i) = Z.of_nat i.
Proof.
  intros H. apply static_cast_int_id. unfold in_int_range, INT_MIN. lia.
Qed.

Lemma int_add_one (z : Z) :
  in_int_range z -> z <> INT_MAX -> int_add z 1 = z + 1.
Proof.
  intros H Hne. unfold int_add. apply static_cast_int_id.
  unfold in_int_range, INT_MIN, INT_MAX in *. lia.
Qed.

(** ** [ShortestDist] *)

Lemma ShortestDist_scan_none (rest : list (Z * Z)) :
  forall (i out_index : nat) (res size : Z),
    Forall (fun d => in_int_range (fst d)) rest ->
    (forall j d, rest !! j = Some d -> (i + j)%nat <> out_index ->
                 fst d <> INT_MAX -> res <= fst d + 1) ->
    ShortestDist_scan rest i out_index res size = (res, size).
Proof.
  induction rest as [|d0 rest IH]; intros i out_index res size Hr Hno; [reflexivity|].
  inversion Hr as [|? ? Hd0 Hr']; subst. cbn [ShortestDist_scan].
  assert (Hrest : forall j d, rest !! j = Some d -> (S i + j)%nat <> out_index ->
                              fst d <> INT_MAX -> res <= fst d + 1).
  { intros j d Hj Hne Hd. apply (Hno (S j) d); [exact Hj|lia|exact Hd]. }
  destruct (Nat.eqb_spec i out_index) as [Hi|Hi]; [now apply IH|].
  destruct (Z.eqb_spec (fst d0) INT_MAX) as [Hm|Hm]; [now apply IH|].
  rewrite int_add_one by assumption.
  assert (res <= fst d0 + 1) by (apply (Hno 0%nat d0); [reflexivity|lia|exact Hm]).
  destruct (Z.ltb_spec (fst d0 + 1) res); [lia|now apply IH].
Qed.

Lemma ShortestDist_scan_first_min (rest : list (Z * Z)) :
  forall (i out_index : nat) (res size : Z) (j : nat) (d : Z * Z),
    Forall (fun d => in_int_range (fst d)) rest ->
    res <= INT_MAX ->
    rest !! j = Some d -> (i + j)%nat <> out_index -> fst d + 1 < res ->
    (forall k d', rest !! k = Some d' -> (i + k)%nat <> out_index ->
                  fst d' < INT_MAX - 1 ->
                  fst d <= fst d' /\ ((k < j)%nat -> fst d < fst d')) ->
    ShortestDist_scan rest i out_index res size = (fst d + 1, snd d).
Proof.
  induction rest as [|d0 rest IH]; intros i out_index res size j d Hr Hres Hj Hne Hlt Hmin;
    [discriminate|].
  inversion Hr as [|? ? Hd0 Hr']; subst. cbn [ShortestDist_scan].
  destruct j as [|j].
  - injection Hj as ->.
    destruct (Nat.eqb_spec i out_index) as [Hi|Hi]; [lia|].
    destruct (Z.eqb_spec (fst d) INT_MAX) as [Hm|Hm]; [lia|].
    rewrite int_add_one by assumption.
    destruct (Z.ltb_spec (fst d + 1) res); [|lia].
    apply ShortestDist_scan_none; [assumption|].
    intros k d' Hk Hk' Hd'.
    destruct (Z.lt_ge_cases (fst d') (INT_MAX - 1)) as [Hel|Hel].
    + destruct (Hmin (S k) d' Hk ltac:(lia) Hel). lia.
    + lia.
  - cbn in Hj.
    assert (Hmin' : forall k d', rest !! k = Some d' -> (S i + k)%nat <> out_index ->
                      fst d' < INT_MAX - 1 ->
                      fst d <= fst d' /\ ((k < j)%nat -> fst d < fst d')).
    { intros k d' Hk Hk' Hd'. destruct (Hmin (S k) d' Hk ltac:(lia) Hd') as [H1 H2].
      split; [exact H1|]. intros. apply H2. lia. }
    destruct (Nat.eqb_spec i out_index) as [Hi|Hi];
      [apply (IH _ _ _ _ j); auto; lia|].
    destruct (Z.eqb_spec (fst d0) INT_MAX) as [Hm|Hm];
      [apply (IH _ _ _ _ j); auto; lia|].
    rewrite int_add_one by assumption.
    destruct (Z.ltb_spec (fst d0 + 1) res) as [Hlt0|Hge0].
    + assert (fst d < fst d0).
      { apply (Hmin 0%nat d0); [reflexivity|lia|lia|lia]. }
      apply (IH _ _ _ _ j); auto; lia.
    + apply (IH _ _ _ _ j); auto; lia.
Qed.

(** ** [DataRequest] *)

Lemma DataRequest_scan_one (req_in : list Z) :
  forall (i out_index : nat),
    DataRequest_scan req_in i out_index = 1 <->
    exists j r, req_in !! j = Some r /\ (i + j)%nat <> out_index /\ r <> 0.
Proof.
  induction req_in as [|r0 rest IH]; intros i out_index; cbn [DataRequest_scan].
  - split; [discriminate|]. intros (j & r & Hj & _). discriminate.
  - destruct (Nat.eqb_spec i out_index) as [Hi|Hi].
    + rewrite IH. split.
      * intros (j & r & Hj & Hne & Hr). exists (S j), r. repeat split; auto. lia.
      * intros (j & r & Hj & Hne & Hr). destruct j as [|j]; [lia|].
        exists j, r. repeat split; auto. lia.
    + destruct (Z.eqb_spec r0 0) as [Hz|Hz]; cbn [negb].
      * rewrite IH. split.
        -- intros (j & r & Hj & Hne & Hr). exists (S j), r. repeat split; auto. lia.
        -- intros (j & r & Hj & Hne & Hr). destruct j as [|j].
           ++ injection Hj as <-. contradiction.
           ++ exists j, r. repeat split; auto. lia.
      * split; [|reflexivity]. intros _. exists 0%nat, r0. repeat split; auto. lia.
Qed.

Lemma DataRequest_scan_bit (req_in : list Z) :
  forall (i out_index : nat),
    DataRequest_scan req_in i out_index = 1 \/ DataRequest_scan req_in i out_index = 0.
Proof.
  induction req_in as [|r0 rest IH]; intros i out_index; cbn [DataRequest_scan]; [now right|].
  destruct (Nat.eqb i out_index); [apply IH|].
  destruct (negb (r0 =? 0)); [now left|apply IH].
Qed.

(** ** The claims on the combinators *)

(** C4 (as amended).  [ShortestDist] returns [(1, own_size)] when the node
    holds the payload.  Otherwise, among the links other than [out_index]
    whose hop count is below [INT_MAX - 1], it picks the one with the
    minimum hop count, the lowest index winning a tie, and returns that hop
    count plus one with that neighbour's size; when there is no such link
    it returns [(INT_MAX, 0)]. *)
Theorem ShortestDist_spec (node_value : bool * Z) (dist_in : list (Z * Z))
    (out_index : nat) :
  Forall (fun d => in_int_range (fst d)) dist_in ->
  (fst node_value = true ->
   ShortestDist node_value dist_in out_index = (1, snd node_value)) /\
  (fst node_value = false ->
   (forall j d, first_minimum (eligible_in dist_in out_index) j d ->
      ShortestDist node_value dist_in out_index = (fst d + 1, snd d)) /\
   ((forall j d, ~ eligible_in dist_in out_index j d) ->
      ShortestDist node_value dist_in out_index = (INT_MAX, 0))).
Proof.
  intros Hr. unfold ShortestDist. split; intros Hnv; rewrite Hnv; [reflexivity|].
  split.
  - intros j d [(Hj & Hne & Hd) Hmin].
    apply (ShortestDist_scan_first_min dist_in 0 out_index INT_MAX 0 j d); auto.
    + reflexivity.
    + lia.
    + intros k d' Hk Hk' Hd'. apply Hmin. repeat split; assumption.
  - intros Hnone. apply ShortestDist_scan_none; [assumption|].
    intros j d Hj Hne Hd.
    destruct (Z.lt_ge_cases (fst d) (INT_MAX - 1)) as [Hel|Hel]; [|lia].
    exfalso. apply (Hnone j d). repeat split; assumption.
Qed.

(** The amended claim at a list of three neighbours: two at three hops, of
    which the first wins. *)
Lemma ShortestDist_spec_witness :
  ShortestDist (false, 0) [(5, 7); (3, 8); (3, 9)] 3 = (3 + 1, 8).
Proof.
  assert (Hr : Forall (fun d : Z * Z => in_int_range (fst d)) [(5, 7); (3, 8); (3, 9)]).
  { repeat constructor; cbn; unfold INT_MIN, INT_MAX; lia. }
  destruct (ShortestDist_spec (false, 0) [(5, 7); (3, 8); (3, 9)] 3 Hr) as [_ H].
  destruct (H eq_refl) as [Hmin _].
  apply (Hmin 1%nat (3, 8)).
  split.
  - split; [reflexivity | split; [lia | cbn; unfold INT_MAX; lia]].
  - intros k d' (Hk & _ & _).
    destruct k as [|[|[|k]]]; cbn in Hk; try discriminate;
      injection Hk as <-; cbn; lia.
Defined.

(** C4 as the specification states it fails: a neighbour at [INT_MAX - 1]
    hops is not skipped by the test on [INT_MAX], yet it is not picked, and
    its size is not returned. *)
Lemma ShortestDist_as_specified_fails :
  ~ ShortestDist_as_specified (false, 0) [(2147483646, 7)] 1.
Proof.
  intros [_ H]. destruct (H eq_refl) as [Hmin _].
  specialize (Hmin 0%nat (2147483646, 7)).
  assert (Hfm : first_minimum (reachable_in [(2147483646, 7)] 1) 0 (2147483646, 7)).
  { split.
    - split; [reflexivity | split; [lia | cbn; unfold INT_MAX; lia]].
    - intros k d' (Hk & _ & _). destruct k as [|k]; cbn in Hk; [|discriminate].
      injection Hk as <-. cbn. lia. }
  specialize (Hmin Hfm). vm_compute in Hmin. discriminate.
Qed.

(** C5.  [DataRequest] returns 1 exactly when [out_index], compared as an
    [int] the way the source compares it, equals [best_link] and the node
    requests data or some inbound edge other than [out_index] carries a
    request; in every other case it returns 0. *)
Theorem DataRequest_spec (request : bool) (best_link : Z) (req_in : list Z)
    (out_index : nat) :
  (DataRequest (request, best_link) req_in out_index = 1 <->
   static_cast_int (Z.of_nat out_index) = best_link /\
   (request = true \/
    exists i r, i <> out_index /\ req_in !! i = Some r /\ r <> 0)) /\
  (DataRequest (request, best_link) req_in out_index <> 1 ->
   DataRequest (request, best_link) req_in out_index = 0).
Proof.
  unfold DataRequest. cbn [fst snd].
  destruct (Z.eqb_spec (static_cast_int (Z.of_nat out_index)) best_link) as [He|He].
  - destruct request.
    + split; [|congruence]. split; auto.
    + split.
      * rewrite DataRequest_scan_one. split.
        -- intros (j & r & Hj & Hne & Hr). split; [exact He|]. right.
           exists j, r. repeat split; auto.
        -- intros (_ & [Hreq|(i & r & Hne & Hi & Hr)]); [discriminate|].
           exists i, r. repeat split; auto.
      * intros Hn. destruct (DataRequest_scan_bit req_in 0 out_index); congruence.
  - split; [|reflexivity]. split; [discriminate|]. intros [Heq _]. contradiction.
Qed.

(** ** Routing decision *)

Lemma routing_requests_sound (req_in req_out : list Z) (best_link : Z) :
  forall (i : nat) (p_req_in : list bool),
    routing_requests req_in req_out i best_link = Done p_req_in ->
    p_req_in = map (fun r => negb (r =? 0)) req_in /\
    forall j ri ro,
      req_in !! j = Some ri -> req_out !! (i + j)%nat = Some ro -> ro <> 0 ->
      ri = 0 /\ static_cast_int (Z.of_nat (i + j)) = best_link.
Proof.
  induction req_in as [|r rest IH]; intros i p_req_in H; cbn in H.
  - injection H as <-. split; [reflexivity|]. intros j ri ro Hj. discriminate.
  - destruct (negb (default 0 (req_out !! i) =? 0)) eqn:Hout.
    + unfold utils_Assert in H.
      destruct (Z.eqb_spec r 0) as [Hr|Hr]; cbn in H; [|discriminate].
      destruct (Z.eqb_spec (static_cast_int (Z.of_nat i)) best_link) as [Hb|Hb];
        cbn in H; [|discriminate].
      destruct (routing_requests rest req_out (S i) best_link) as [tl| |] eqn:Htl;
        cbn in H; try discriminate.
      injection H as <-. apply IH in Htl as [-> Htl]. split.
      * cbn. subst r. reflexivity.
      * intros [|j] ri ro Hj Ho Hne.
        -- rewrite Nat.add_0_r. injection Hj as <-. auto.
        -- cbn in Hj. replace (i + S j)%nat with (S i + j)%nat in * by lia. eauto.
    + cbn in H.
      destruct (routing_requests rest req_out (S i) best_link) as [tl| |] eqn:Htl;
        cbn in H; try discriminate.
      injection H as <-. apply IH in Htl as [-> Htl]. split; [reflexivity|].
      intros [|j] ri ro Hj Ho Hne.
      * rewrite Nat.add_0_r in Ho. rewrite Ho in Hout. cbn in Hout.
        apply negb_false_iff, Z.eqb_eq in Hout. contradiction.
      * cbn in Hj. replace (i + S j)%nat with (S i + j)%nat in * by lia. eauto.
Qed.

Lemma routing_requests_complete (req_in req_out : list Z) (best_link : Z) :
  forall (i : nat),
    (forall j ri ro,
       req_in !! j = Some ri -> req_out !! (i + j)%nat = Some ro -> ro <> 0 ->
       ri = 0 /\ static_cast_int (Z.of_nat (i + j)) = best_link) ->
    routing_requests req_in req_out i best_link
    = Done (map (fun r => negb (r =? 0)) req_in).
Proof.
  induction req_in as [|r rest IH]; intros i Hall; cbn; [reflexivity|].
  rewrite (IH (S i)).
  2:{ intros j ri ro Hj Ho Hne. replace (S i + j)%nat with (i + S j)%nat in * by lia.
      apply (Hall (S j) ri ro); auto. }
  destruct (req_out !! i) as [ro0|] eqn:Hro; cbn; [|reflexivity].
  destruct (Z.eqb_spec ro0 0) as [Hz|Hz]; cbn; [reflexivity|].
  destruct (Hall 0%nat r ro0) as [-> Hb]; auto.
  { now rewrite Nat.add_0_r. }
  rewrite Nat.add_0_r in Hb. rewrite Hb. cbn. rewrite Z.eqb_refl. reflexivity.
Qed.

Lemma routing_requests_done (req_in req_out : list Z) (best_link : Z)
    (p_req_in : list bool) :
  routing_requests req_in req_out 0 best_link = Done p_req_in <->
  requests_as_asserted req_in req_out best_link /\
  p_req_in = map (fun r => negb (r =? 0)) req_in.
Proof.
  split.
  - intros H. apply routing_requests_sound in H as [-> H]. split; [|reflexivity].
    intros i ri ro Hi Ho Hne. apply (H i ri ro); auto.
  - intros [H ->]. apply routing_requests_complete.
    intros j ri ro Hj Ho Hne. apply (H j ri ro); auto.
Qed.


Lemma choose_link_no_size (dist_in rest : list (Z * Z)) :
  forall (i : nat) (size1 size2 : Z),
    choose_link dist_in rest i (-2) size1 = choose_link dist_in rest i (-2) size2.
Proof.
  unfold choose_link.
  induction rest as [|d rest IH]; intros i size1 size2; cbn; [reflexivity|].
  destruct (fst d =? INT_MAX); cbn; [apply IH|reflexivity].
Qed.

Section RoutingProperties.

Variable cfg : Constants.
Variable env : Env.

(** What a successful [TryDecideRouting] has done. *)
Lemma TryDecideRouting_success (role : RecoverType) (out out' : Routing)
    (net net' : Net) :
  TryDecideRouting env role out net = Done (kSuccess, out', net') ->
  exists dist_in req_in,
    env_dist_in env (clock net) = (kSuccess, dist_in) /\
    env_req_in env (S (clock net)) = (kSuccess, req_in) /\
    net' = tick (tick net) /\
    (if is_kHaveData role
     then rt_recvlink out' = -1 /\ rt_size out' = rt_size out
     else choose_link dist_in dist_in 0 (-2) (rt_size out)
          = Done (rt_recvlink out', rt_size out')) /\
    routing_requests req_in
      (imap (fun i _ => DataRequest (is_kRequestData role, rt_recvlink out') req_in i)
            req_in)
      0 (rt_recvlink out') = Done (rt_req_in out').
Proof.
  unfold TryDecideRouting, MsgPassing. intros H.
  destruct (env_dist_in env (clock net)) as [s1 dist_in] eqn:Hd.
  destruct s1; cbn in H; try (injection H as ? ? ?; discriminate).
  fold (choose_link dist_in dist_in 0 (-2) (rt_size out)) in H.
  destruct (env_req_in env (S (clock net))) as [s2 req_in] eqn:Hr.
  exists dist_in, req_in.
  destruct role; cbn in H |- *.
  - destruct s2; cbn in H; try (injection H as ? ? ?; discriminate).
    destruct (routing_requests _ _ _ _) as [p| |] eqn:Hp; cbn in H; try discriminate.
    injection H as <- <-. cbn. auto 10.
  - destruct (choose_link dist_in dist_in 0 (-2) (rt_size out)) as [[b s]| |] eqn:Hc;
      cbn in H; try discriminate.
    destruct s2; cbn in H; try (injection H as ? ? ?; discriminate).
    destruct (routing_requests _ _ _ _) as [p| |] eqn:Hp; cbn in H; try discriminate.
    injection H as <- <-. cbn. auto 10.
  - destruct (choose_link dist_in dist_in 0 (-2) (rt_size out)) as [[b s]| |] eqn:Hc;
      cbn in H; try discriminate.
    destruct s2; cbn in H; try (injection H as ? ? ?; discriminate).
    destruct (routing_requests _ _ _ _) as [p| |] eqn:Hp; cbn in H; try discriminate.
    injection H as <- <-. cbn. auto 10.
Qed.

End RoutingProperties.

(** ** The claim on the routing assertions *)

(** C3 (as amended).  After the [DataRequest] pass, the loop of lines
    449-457 succeeds exactly when every link [i] with [req_out[i] != 0] has
    [req_in[i] == 0] and is the link [best_link]; no link is excepted.  So
    when [TryDecideRouting] succeeds, a link on which this node sends a
    request never carries an incoming one, [recv_link] included. *)
Theorem TryDecideRouting_requests (env : Env) (role : RecoverType)
    (out out' : Routing) (net net' : Net) :
  TryDecideRouting env role out net = Done (kSuccess, out', net') ->
  (forall req_in req_out best_link p_req_in,
     routing_requests req_in req_out 0 best_link = Done p_req_in <->
     requests_as_asserted req_in req_out best_link /\
     p_req_in = map (fun r => negb (r =? 0)) req_in) /\
  (forall i,
     DataRequest (is_kRequestData role, rt_recvlink out')
       (snd (env_req_in env (S (clock net)))) i <> 0 ->
     req_at (rt_req_in out') i = false /\
     static_cast_int (Z.of_nat i) = rt_recvlink out').
Proof.
  intros H. split; [intros; apply routing_requests_done|].
  apply TryDecideRouting_success in H as (dist_in & req_in & _ & Hr & _ & _ & Hreq).
  rewrite Hr. cbn [snd]. apply routing_requests_done in Hreq as [Hall ->].
  intros i Hout. unfold req_at. rewrite list_lookup_fmap.
  destruct (req_in !! i) as [ri|] eqn:Hi; cbn.
  - destruct (Hall i ri (DataRequest (is_kRequestData role, rt_recvlink out') req_in i))
      as [-> Hb]; auto.
    { rewrite list_lookup_imap, Hi. reflexivity. }
  - split; [reflexivity|]. unfold DataRequest in Hout. cbn [fst snd] in Hout.
    destruct (Z.eqb_spec (static_cast_int (Z.of_nat i)) (rt_recvlink out'));
      [assumption|contradiction].
Qed.

(** The amended claim where one neighbour holds the payload and asks for
    nothing. *)
Lemma TryDecideRouting_requests_witness :
  TryDecideRouting one_source_env kRequestData (mkRouting 0 0 []) one_link_net
  = Done (kSuccess, mkRouting 4 0 [false], mkNet [fresh_link] 2) /\
  (forall i, DataRequest (true, 0) [0] i <> 0 ->
             req_at [false] i = false /\ static_cast_int (Z.of_nat i) = 0).
Proof.
  assert (H : TryDecideRouting one_source_env kRequestData (mkRouting 0 0 []) one_link_net
              = Done (kSuccess, mkRouting 4 0 [false], mkNet [fresh_link] 2))
    by reflexivity.
  split; [exact H|].
  exact (proj2 (TryDecideRouting_requests one_source_env kRequestData _ _ _ _ H)).
Defined.

(** C3 as the specification states it fails: on the link [recv_link] itself
    an incoming request next to the outgoing one stops the process. *)
Lemma routing_requests_as_specified_fails :
  ~ routing_requests_as_specified [1] [1] 0 /\
  TryDecideRouting mutual_request_env kRequestData (mkRouting 0 0 []) one_link_net
  = Abort "cannot get and receive request".
Proof.
  split; [|reflexivity].
  intros H. destruct H as [p Hp]; [|discriminate Hp].
  intros i ri ro Hi _ _. right. destruct i; [reflexivity|discriminate].
Qed.

(** ** Loops *)

(** A property of the state that every pass keeps holds when the loop is
    left, whichever way. *)
Lemma for_range_invariant {S R : Type} (P : S -> Prop) (Q : R -> Prop)
    (body : nat -> S -> result (ctl S R)) (idx : list nat) :
  (forall i s, P s ->
     match body i s with
     | Done (Next s') => P s'
     | Done (Return r) => Q r
     | _ => True
     end) ->
  forall s, P s ->
    match for_range idx body s with
    | Done (Next s') => P s'
    | Done (Return r) => Q r
    | _ => True
    end.
Proof.
  intros Hbody. induction idx as [|i idx IH]; intros s Hs; cbn; [exact Hs|].
  specialize (Hbody i s Hs).
  destruct (body i s) as [[s'|r]| |]; [apply IH| | |]; assumption.
Qed.

Lemma for_each_invariant {S : Type} (P : S -> Prop)
    (body : nat -> S -> result S) (idx : list nat) :
  (forall i s, P s -> match body i s with Done s' => P s' | _ => True end) ->
  forall s, P s ->
    match for_each idx body s with Done s' => P s' | _ => True end.
Proof.
  intros Hbody. induction idx as [|i idx IH]; intros s Hs; cbn; [exact Hs|].
  specialize (Hbody i s Hs).
  destruct (body i s) as [s'| |]; cbn; [apply IH| |]; assumption.
Qed.

(** ** Cooperative recovery of a result *)

Section TransferProperties.

Variable cfg : Constants.
Variable env : Env.



(** Only a requester stores what it receives in the buffer it is given. *)
Lemma recover_step_keeps_buffer (role : RecoverType) (size recv_link : Z)
    (req_in : list bool) (buf : list byte) (net : Net) :
  role <> kRequestData ->
  match recover_step cfg env role size recv_link req_in (buf, net) with
  | Done (Next st) => fst st = buf
  | Done (Return r) => fst (snd r) = buf
  | _ => True
  end.
Proof.
  intros Hrole. unfold recover_step.
  destruct (transfer_finished size recv_link req_in (links net)); [reflexivity|].
  cbn [do_select].
  match goal with |- context [existsb ?f ?l] => destruct (existsb f l) end;
    [reflexivity|].
  destruct role; [|contradiction|].
  - unfold recover_have.
    apply (for_range_invariant (fun st : Xfer => fst st = buf)
             (fun r : ReturnType * Xfer => fst (snd r) = buf)); [|reflexivity].
    intros i [b n] Hb. cbn in Hb. subst b.
    destruct (req_at req_in i && _); [|reflexivity].
    destruct (WriteFromArray _ _ _ _) as [[] l']; reflexivity.
  - unfold recover_pass.
    match goal with
    | |- context [rbind ?m _] => destruct m as [[[b n]|[r [b n]]]| |] eqn:Hread
    end; cbn [rbind]; auto.
    + assert (b = buf) as ->.
      { revert Hread. 
        match goal with |- context [if ?c then _ else _] => destruct c end;
          [|intros [= <- _]; reflexivity].
        destruct (utils_Assert _ _); cbn; try discriminate.
        destruct (ReadToRingBuffer _ _ _) as [[[] l']| |]; cbn; try discriminate;
          intros [= <- _]; reflexivity. }
      apply (for_range_invariant (fun st : Xfer => fst st = buf)
               (fun r : ReturnType * Xfer => fst (snd r) = buf)); [|reflexivity].
      intros i [b n'] Hb. cbn in Hb. subst b.
      destruct (req_at req_in i && _ && _); [|reflexivity].
      destruct (buffer_size _ =? 0); [exact I|].
      destruct (negb (sock_Send _ _ =? -1)); [reflexivity|].
      destruct (negb (transient _ _)); reflexivity.
    + revert Hread.
      match goal with |- context [if ?c then _ else _] => destruct c end;
        [|discriminate].
      destruct (utils_Assert _ _); cbn; try discriminate.
      destruct (ReadToRingBuffer _ _ _) as [[[] l']| |]; cbn; try discriminate;
        intros [= <- <- _]; reflexivity.
Qed.

Lemma recover_loop_keeps_buffer (role : RecoverType) (size recv_link : Z)
    (req_in : list bool) (fuel : nat) :
  role <> kRequestData ->
  forall (buf : list byte) (net : Net) r st,
    recover_loop cfg env fuel role size recv_link req_in (buf, net) = Done (r, st) ->
    fst st = buf.
Proof.
  intros Hrole. induction fuel as [|fuel IH]; intros buf net r st; cbn [recover_loop];
    [discriminate|].
  pose proof (recover_step_keeps_buffer role size recv_link req_in buf net Hrole) as Hs.
  destruct (recover_step cfg env role size recv_link req_in (buf, net))
    as [[[b n]|[r' st']]| |]; try discriminate.
  - cbn in Hs. subst b. apply IH.
  - intros [= <- <-]. exact Hs.
Qed.

(** X5.  A node that has the data, or passes it on, leaves the buffer it is
    given as it is: only a requester stores what it receives. *)
Lemma TryRecoverData_keeps_buffer (fuel : nat) (role : RecoverType)
    (buf buf' : list byte) (size recv_link : Z) (req_in : list bool)
    (net net' : Net) (r : ReturnType) :
  role <> kRequestData ->
  TryRecoverData cfg env fuel role buf size recv_link req_in net = Done (r, buf', net') ->
  buf' = buf.
Proof.
  intros Hrole. unfold TryRecoverData.
  destruct (_ || _); [intros [= _ <- _]; reflexivity|].
  destruct (utils_Assert _ _); cbn; try discriminate.
  destruct (any_request _ _ _ _) as [[]| |]; cbn; try discriminate;
    [|intros [= _ <- _]; reflexivity].
  destruct (utils_Assert _ _); cbn; try discriminate.
  destruct (recover_loop _ _ _ _ _ _ _ _) as [[r' [b n]]| |] eqn:Hl; cbn; try discriminate.
  intros [= _ <- _]. apply recover_loop_keeps_buffer in Hl; auto.
Qed.

End TransferProperties.

(** A node that has four bytes for one requester sends them and leaves its
    buffer as it was. *)
Lemma TryRecoverData_keeps_buffer_witness :
  TryRecoverData sample_constants quiet_env 5 kHaveData operands 4 (-1) [true]
    one_link_net
  = Done (kSuccess, operands, mkNet [mkLink false 0 4 1024] 8).
Proof.
  assert (H : exists buf',
             TryRecoverData sample_constants quiet_env 5 kHaveData operands 4 (-1)
               [true] one_link_net
             = Done (kSuccess, buf', mkNet [mkLink false 0 4 1024] 8))
    by (eexists; vm_compute; reflexivity).
  destruct H as [buf' H].
  assert (Hrole : kHaveData <> kRequestData) by discriminate.
  rewrite H.
  rewrite (TryRecoverData_keeps_buffer sample_constants quiet_env 5 kHaveData
             operands buf' 4 (-1) [true] one_link_net _ kSuccess Hrole H).
  reflexivity.
Defined.


(** ** Link reset *)

Lemma bad_kept_refl (n : Net) : bad_kept n n.
Proof. split; [reflexivity|]. intros i l Hi Hb. exists l. auto. Qed.

Lemma bad_kept_trans (n1 n2 n3 : Net) :
  bad_kept n1 n2 -> bad_kept n2 n3 -> bad_kept n1 n3.
Proof.
  intros [L1 H1] [L2 H2]. split; [congruence|].
  intros i l Hi Hb. destruct (H1 i l Hi Hb) as (l' & Hi' & Hb'). eauto.
Qed.

Lemma bad_kept_tick (n : Net) : bad_kept n (tick n).
Proof. split; [reflexivity|]. intros i l Hi Hb. exists l. auto. Qed.

Lemma link_at_lookup (ls : list LinkRecord) (i : nat) (l : LinkRecord) :
  ls !! i = Some l -> link_at ls (Z.of_nat i) = l.
Proof.
  intros H. unfold link_at.
  destruct (Z.ltb_spec (Z.of_nat i) 0); [lia|]. rewrite Nat2Z.id, H. reflexivity.
Qed.

Lemma links_put_link (i : nat) (l : LinkRecord) (n : Net) :
  links (put_link i l n) = <[i := l]> (links n).
Proof.
  unfold put_link, update_link. cbn.
  destruct (Z.ltb_spec (Z.of_nat i) 0); [lia|]. rewrite Nat2Z.id. reflexivity.
Qed.

(** Replacing link [i] by one that is bad if the old one was. *)
Lemma bad_kept_put_link (i : nat) (l : LinkRecord) (n : Net) :
  (sock_bad (link_at (links n) (Z.of_nat i)) = true -> sock_bad l = true) ->
  bad_kept n (put_link i l n).
Proof.
  intros Hl. split; rewrite links_put_link; [apply length_insert|].
  intros j lj Hj Hb. destruct (decide (i = j)) as [->|Hne].
  - exists l. split.
    + apply list_lookup_insert_eq. eapply lookup_lt_Some, Hj.
    + apply Hl. rewrite (link_at_lookup _ _ _ Hj). exact Hb.
  - exists lj. rewrite list_lookup_insert_ne by assumption. auto.
Qed.

Section ResetProperties.

Variable cfg : Constants.
Variable env : Env.

Lemma for_each_bad_kept (body : nat -> Net -> result Net) (idx : list nat) :
  (forall i n n', body i n = Done n' -> bad_kept n n') ->
  forall n n', for_each idx body n = Done n' -> bad_kept n n'.
Proof.
  intros Hbody n n' H.
  assert (Hstep : forall i s, bad_kept n s ->
            match body i s with Done s' => bad_kept n s' | _ => True end).
  { intros i s Hs. destruct (body i s) as [s'| |] eqn:Hb; auto.
    eapply bad_kept_trans; [exact Hs|]. eapply Hbody, Hb. }
  pose proof (for_each_invariant (fun s => bad_kept n s) body idx Hstep n
                (bad_kept_refl n)) as Hinv.
  rewrite H in Hinv. exact Hinv.
Qed.

Lemma reset_send_ack_links (fuel : nat) :
  forall n n', reset_send_ack cfg env fuel n = Done n' -> links n' = links n.
Proof.
  induction fuel as [|fuel IH]; intros n n'; cbn [reset_send_ack]; [discriminate|].
  destruct (_ =? 1); [intros [= <-]; reflexivity|].
  destruct (_ && _); [intros [= <-]; reflexivity|].
  intros H. apply IH in H. exact H.
Qed.

Lemma reset_sync_bad_kept (fuel : nat) (n n' : Net) :
  reset_sync cfg env fuel n = Done n' -> bad_kept n n'.
Proof.
  unfold reset_sync. apply for_each_bad_kept. clear n n'. intros i n n'.
  destruct (negb (sock_bad (link_at (links n) (Z.of_nat i)))) eqn:Hbad;
    [|intros [= <-]; apply bad_kept_refl].
  destruct (sock_Recv _ _) as [len data].
  destruct (len =? 0).
  - intros [= <-]. eapply bad_kept_trans; [apply bad_kept_tick|].
    apply bad_kept_put_link. reflexivity.
  - destruct (0 <? len).
    + destruct (utils_Assert _ _); cbn [rbind]; try discriminate.
      destruct (utils_Assert _ _); cbn [rbind]; try discriminate.
      intros H. apply reset_send_ack_links in H.
      split; rewrite H; [reflexivity|]. intros j l Hj Hb. exists l. auto.
    + destruct (utils_Assert _ _); cbn [rbind]; try discriminate.
      intros H. apply reset_send_ack_links in H.
      split; rewrite H; [reflexivity|]. intros j l Hj Hb. exists l. auto.
Qed.

Lemma reset_wait_ack_bad_kept (n n' : Net) :
  reset_wait_ack cfg env n = Done n' -> bad_kept n n'.
Proof.
  unfold reset_wait_ack. apply for_each_bad_kept. clear n n'. intros i n n'.
  destruct (negb (sock_bad (link_at (links n) (Z.of_nat i)))) eqn:Hbad;
    [|intros [= <-]; apply bad_kept_refl].
  destruct (sock_Recv _ _) as [len data].
  destruct (len =? 0).
  - intros [= <-]. eapply bad_kept_trans; [apply bad_kept_tick|].
    apply bad_kept_put_link. reflexivity.
  - destruct (0 <? len).
    + destruct (utils_Assert _ _); cbn [rbind]; try discriminate.
      intros [= <-]. apply bad_kept_tick.
    + destruct (utils_Assert _ _); cbn [rbind]; try discriminate.
      intros [= <-]. apply bad_kept_tick.
Qed.

Lemma reset_verdict_success (n : Net) :
  reset_verdict n = kSuccess <-> forall l, In l (links n) -> sock_bad l = false.
Proof.
  unfold reset_verdict. destruct (existsb sock_bad (links n)) eqn:He.
  - split; [discriminate|]. intros H. apply existsb_exists in He as (l & Hin & Hb).
    rewrite (H l Hin) in Hb. discriminate.
  - split; [|reflexivity]. intros _ l Hin.
    destruct (sock_bad l) eqn:Hb; [|reflexivity].
    assert (existsb sock_bad (links n) = true)
      by (apply existsb_exists; eauto).
    congruence.
Qed.

Lemma reset_verdict_error (n : Net) :
  reset_verdict n <> kSuccess ->
  reset_verdict n = kSockError /\ exists l, In l (links n) /\ sock_bad l = true.
Proof.
  unfold reset_verdict. destruct (existsb sock_bad (links n)) eqn:He;
    [|contradiction].
  intros _. split; [reflexivity|]. apply existsb_exists in He. exact He.
Qed.

End ResetProperties.

(** ** The claim on the link reset *)

(** C8.  [TryResetLinks] returns [kSuccess] if and only if, at the end of
    the handshake, no link's socket is bad, and [kSockError] otherwise; a
    socket that is bad when the drain ends, closed there because of a
    zero-length read or before, makes it return [kSockError]. *)
Theorem TryResetLinks_verdict (cfg : Constants) (env : Env) (fuel : nat)
    (net net' : Net) (r : ReturnType) :
  TryResetLinks cfg env fuel net = Done (r, net') ->
  (r = kSuccess <-> forall l, In l (links net') -> sock_bad l = false) /\
  (r <> kSuccess ->
   r = kSockError /\ exists l, In l (links net') /\ sock_bad l = true) /\
  (forall n1 n2 n3 i l,
     reset_send_marks env fuel (reset_init cfg net) = Done n1 ->
     reset_wait_except n1 = Done n2 ->
     reset_drain env fuel n2 = Done n3 ->
     links n3 !! i = Some l -> sock_bad l = true ->
     r = kSockError).
Proof.
  unfold TryResetLinks. intros H.
  destruct (reset_send_marks env fuel (reset_init cfg net)) as [m1| |] eqn:H1;
    cbn [rbind] in H; try discriminate.
  destruct (reset_wait_except m1) as [m2| |] eqn:H2; cbn [rbind] in H;
    try discriminate.
  destruct (reset_drain env fuel m2) as [m3| |] eqn:H3; cbn [rbind] in H;
    try discriminate.
  destruct (reset_sync cfg env fuel m3) as [m4| |] eqn:H4; cbn [rbind] in H;
    try discriminate.
  destruct (reset_wait_ack cfg env m4) as [m5| |] eqn:H5; cbn [rbind] in H;
    try discriminate.
  injection H as <- <-.
  split; [apply reset_verdict_success|]. split; [apply reset_verdict_error|].
  intros n1 n2 n3 i l [= <-]. rewrite H2. intros [= <-]. rewrite H3.
  intros [= <-] Hi Hb.
  apply reset_sync_bad_kept in H4. apply reset_wait_ack_bad_kept in H5.
  destruct (bad_kept_trans _ _ _ H4 H5) as [_ Hk].
  destruct (Hk i l Hi Hb) as (l' & Hi' & Hb').
  unfold reset_verdict.
  assert (He : existsb sock_bad (links m5) = true).
  { apply existsb_exists. exists l'. split; [|exact Hb'].
    apply list_elem_of_In. eapply list_elem_of_lookup_2, Hi'. }
  rewrite He. reflexivity.
Qed.

(** C8 on one link whose peer has gone: the marks are sent, the drain reads
    zero bytes and closes the socket, and the call returns [kSockError]. *)
Lemma TryResetLinks_verdict_witness :
  TryResetLinks sample_constants quiet_env 5 one_link_net
  = Done (kSockError, mkNet [mkLink true 0 2 1024] 6) /\
  (kSockError <> kSuccess ->
   kSockError = kSockError /\
   exists l, In l [mkLink true 0 2 1024] /\ sock_bad l = true).
Proof.
  assert (H : TryResetLinks sample_constants quiet_env 5 one_link_net
              = Done (kSockError, mkNet [mkLink true 0 2 1024] 6))
    by (vm_compute; reflexivity).
  split; [exact H|].
  exact (proj1 (proj2 (TryResetLinks_verdict sample_constants quiet_env 5 _ _ _ H))).
Defined.

(** ** The claim on the counters of the streaming transfer *)

(** C6, evaluated where it fails.  A node with neither the data nor a need
    for it is given, by the routing decision, the role [kPassData] between
    its source on link 0 and a requester on link 1.  It starts the loop with
    the invariant in place; the inbound socket holds the four bytes of the
    payload followed by four bytes of the sender's next message; the ring
    read of line 552 is bounded by the ring only, takes all eight, and leaves
    [size_read] of the inbound link at 8, above [size]. *)
Theorem TryRecoverData_pass_overread :
  TryDecideRouting overread_env kPassData (mkRouting 0 0 []) two_link_net
  = Done (kSuccess, mkRouting 4 0 [false; true], mkNet [fresh_link; fresh_link] 2) /\
  transfer_invariant kPassData 4 0 [false; true] [fresh_link; fresh_link] /\
  exists buf net',
    recover_step sample_constants overread_env kPassData 4 0 [false; true]
      ([], mkNet [fresh_link; fresh_link] 2) = Done (Next (buf, net')) /\
    size_read (link_at (links net') 0) = 8 /\
    ~ transfer_invariant kPassData 4 0 [false; true] (links net').
Proof.
  split; [vm_compute; reflexivity|]. split.
  - split.
    + intros i l Hi. destruct i as [|[|i]]; cbn in Hi; try discriminate;
        injection Hi as <-; cbn; lia.
    + intros i l Hi _. destruct i as [|[|i]]; cbn in Hi; try discriminate;
        injection Hi as <-; vm_compute; discriminate.
  - eexists _, _. split; [vm_compute; reflexivity|]. split; [reflexivity|].
    intros [Hread _]. specialize (Hread 0%nat _ eq_refl). cbn in Hread. lia.
Qed.

(** ** The counters of the streaming transfer, for the nodes that have the
    data or request it *)

Lemma link_at_insert (ls : list LinkRecord) (i : nat) (l' : LinkRecord) (j : Z) :
  (i < length ls)%nat ->
  link_at (<[i := l']> ls) j
  = if (0 <=? j) && (Z.to_nat j =? i)%nat then l' else link_at ls j.
Proof.
  intros Hi. unfold link_at. destruct (Z.ltb_spec j 0) as [Hj|Hj].
  - destruct (Z.leb_spec 0 j); [lia|reflexivity].
  - destruct (Z.leb_spec 0 j); [|lia]. cbn [andb].
    destruct (Nat.eqb_spec (Z.to_nat j) i) as [->|Hne].
    + rewrite list_lookup_insert_eq by assumption. reflexivity.
    + rewrite list_lookup_insert_ne by congruence. reflexivity.
Qed.

Lemma update_link_out_of_range (ls : list LinkRecord) (i : nat)
    (f : LinkRecord -> LinkRecord) :
  ls !! i = None -> update_link ls (Z.of_nat i) f = ls.
Proof.
  intros H. unfold update_link. destruct (Z.of_nat i <? 0); [reflexivity|].
  rewrite Nat2Z.id. apply list_insert_ge. apply lookup_ge_None. exact H.
Qed.

Lemma update_link_in_range (ls : list LinkRecord) (i : nat) (l l' : LinkRecord) :
  ls !! i = Some l -> update_link ls (Z.of_nat i) (fun _ => l') = <[i := l']> ls.
Proof.
  intros H. unfold update_link. destruct (Z.ltb_spec (Z.of_nat i) 0); [lia|].
  rewrite Nat2Z.id. reflexivity.
Qed.

Section CounterProperties.

Variable cfg : Constants.
Variable env : Env.

Lemma sock_Send_bounds (o : SendOutcome) (n : Z) :
  0 <= n -> sock_Send o n <> -1 -> 0 <= sock_Send o n <= n.
Proof. destruct o; cbn; intros; lia. Qed.

Lemma sock_Recv_bounds (o : RecvOutcome) (n : Z) :
  0 <= n -> fst (sock_Recv o n) <> -1 -> 0 <= fst (sock_Recv o n) <= n.
Proof.
  destruct o; cbn; intros; try lia. rewrite length_take. lia.
Qed.

(** What [WriteFromArray] does to a link that has not written past
    [max_size]. *)
Lemma WriteFromArray_counters (max_size : Z) (l l' : LinkRecord)
    (o : SendOutcome) (ok : bool) :
  WriteFromArray cfg max_size l o = (ok, l') ->
  0 <= size_write l <= max_size -> max_size < SIZE_MODULUS ->
  size_read l' = size_read l /\ size_write l <= size_write l' <= max_size.
Proof.
  unfold WriteFromArray. intros H Hw Hm.
  assert (Hsub : size_sub max_size (size_write l) = max_size - size_write l).
  { unfold size_sub. apply Z.mod_small. lia. }
  rewrite Hsub in H.
  destruct (Z.eqb_spec (sock_Send o (max_size - size_write l)) (-1)) as [He|He].
  - injection H as _ <-. lia.
  - injection H as _ <-. cbn.
    pose proof (sock_Send_bounds o (max_size - size_write l) ltac:(lia) He).
    unfold size_add. rewrite Z.mod_small by lia. lia.
Qed.

(** What [ReadToArray] does to a link that has not read past [max_size]. *)
Lemma ReadToArray_counters (buf buf' : list byte) (max_size : Z)
    (l l' : LinkRecord) (o : RecvOutcome) (ok : bool) :
  ReadToArray cfg buf max_size l o = (ok, buf', l') ->
  0 <= size_read l <= max_size -> max_size < SIZE_MODULUS ->
  size_write l' = size_write l /\ size_read l <= size_read l' <= max_size.
Proof.
  unfold ReadToArray. intros H Hr Hm.
  destruct (max_size =? size_read l); [injection H as _ _ <-; lia|].
  assert (Hsub : size_sub max_size (size_read l) = max_size - size_read l).
  { unfold size_sub. apply Z.mod_small. lia. }
  rewrite Hsub in H.
  pose proof (sock_Recv_bounds o (max_size - size_read l) ltac:(lia)) as Hb.
  destruct (sock_Recv o (max_size - size_read l)) as [len data]. cbn [fst] in Hb.
  destruct (Z.eqb_spec len 0); [injection H as _ _ <-; cbn; lia|].
  destruct (Z.eqb_spec len (-1)); [injection H as _ _ <-; lia|].
  injection H as _ _ <-. cbn. specialize (Hb ltac:(assumption)).
  unfold size_add. rewrite Z.mod_small by lia. lia.
Qed.

(** A link that asks for data is replaced by one that has been sent more,
    within the bound of its role. *)
Lemma counters_ok_written (role : RecoverType) (size recv_link : Z)
    (req_in : list bool) (ls : list LinkRecord) (i : nat) (l l' : LinkRecord) :
  counters_ok role size recv_link req_in ls ->
  ls !! i = Some l ->
  (role <> kHaveData -> 0 <= recv_link -> Z.to_nat recv_link <> i) ->
  size_read l' = size_read l ->
  size_write l <= size_write l' ->
  match role with
  | kHaveData => size_write l' <= size
  | _ => size_write l' <= size_read (link_at ls recv_link)
  end ->
  counters_ok role size recv_link req_in (<[i := l']> ls).
Proof.
  intros (Hs & Hpos & Hread & Hwrite) Hi Hne Hr Hw Hb.
  assert (Hlen : (i < length ls)%nat) by (eapply lookup_lt_Some, Hi).
  assert (Hlink : role <> kHaveData ->
            link_at (<[i := l']> ls) recv_link = link_at ls recv_link).
  { intros Hrole. rewrite link_at_insert by assumption.
    destruct (Z.leb_spec 0 recv_link) as [H0|H0]; [|reflexivity]. cbn [andb].
    destruct (Nat.eqb_spec (Z.to_nat recv_link) i); [|reflexivity].
    exfalso. apply Hne; assumption. }
  split; [exact Hs|]. split; [|split].
  - intros j lj Hj. destruct (decide (i = j)) as [->|Hij].
    + rewrite list_lookup_insert_eq in Hj by assumption. injection Hj as <-.
      destruct (Hpos j l Hi). lia.
    + rewrite list_lookup_insert_ne in Hj by assumption. exact (Hpos j lj Hj).
  - intros j lj Hj. destruct (decide (i = j)) as [->|Hij].
    + rewrite list_lookup_insert_eq in Hj by assumption. injection Hj as <-.
      rewrite Hr. exact (Hread j l Hi).
    + rewrite list_lookup_insert_ne in Hj by assumption. exact (Hread j lj Hj).
  - intros j lj Hj Hreq.
    assert (Hgoal : match role with
                    | kHaveData => size_write lj <= size
                    | _ => size_write lj <= size_read (link_at ls recv_link)
                    end).
    { destruct (decide (i = j)) as [->|Hij].
      - rewrite list_lookup_insert_eq in Hj by assumption. injection Hj as <-.
        exact Hb.
      - rewrite list_lookup_insert_ne in Hj by assumption.
        exact (Hwrite j lj Hj Hreq). }
    destruct role; [exact Hgoal| |]; rewrite Hlink by discriminate; exact Hgoal.
Qed.

(** The inbound link of a requester is replaced by one that has read more,
    within [size]. *)
Lemma counters_ok_read (size recv_link : Z) (req_in : list bool)
    (ls : list LinkRecord) (l l' : LinkRecord) :
  counters_ok kRequestData size recv_link req_in ls ->
  0 <= recv_link ->
  ls !! Z.to_nat recv_link = Some l ->
  req_at req_in (Z.to_nat recv_link) = false ->
  size_write l' = size_write l ->
  size_read l <= size_read l' <= size ->
  counters_ok kRequestData size recv_link req_in (<[Z.to_nat recv_link := l']> ls).
Proof.
  intros (Hs & Hpos & Hread & Hwrite) H0 Hi Hreq Hw Hr.
  assert (Hlen : (Z.to_nat recv_link < length ls)%nat) by (eapply lookup_lt_Some, Hi).
  assert (Hold : link_at ls recv_link = l).
  { unfold link_at. destruct (Z.ltb_spec recv_link 0); [lia|]. rewrite Hi. reflexivity. }
  assert (Hlink : link_at (<[Z.to_nat recv_link := l']> ls) recv_link = l').
  { rewrite link_at_insert by assumption.
    destruct (Z.leb_spec 0 recv_link); [|lia]. rewrite Nat.eqb_refl. reflexivity. }
  split; [exact Hs|]. split; [|split].
  - intros j lj Hj. destruct (decide (Z.to_nat recv_link = j)) as [<-|Hij].
    + rewrite list_lookup_insert_eq in Hj by assumption. injection Hj as <-.
      destruct (Hpos _ l Hi). lia.
    + rewrite list_lookup_insert_ne in Hj by assumption. exact (Hpos j lj Hj).
  - intros j lj Hj. destruct (decide (Z.to_nat recv_link = j)) as [<-|Hij].
    + rewrite list_lookup_insert_eq in Hj by assumption. injection Hj as <-. lia.
    + rewrite list_lookup_insert_ne in Hj by assumption. exact (Hread j lj Hj).
  - intros j lj Hj Hrj. rewrite Hlink.
    destruct (decide (Z.to_nat recv_link = j)) as [<-|Hij]; [congruence|].
    rewrite list_lookup_insert_ne in Hj by assumption.
    specialize (Hwrite j lj Hj Hrj). cbn in Hwrite. rewrite Hold in Hwrite. lia.
Qed.

Lemma counters_ok_tick (role : RecoverType) (size recv_link : Z)
    (req_in : list bool) (n : Net) (ls : list LinkRecord) :
  counters_ok role size recv_link req_in ls ->
  counters_ok role size recv_link req_in (links (tick (set_links ls n))).
Proof. intros H. exact H. Qed.

(** The loop of lines 537-541 keeps the counters in bounds. *)
Lemma recover_have_counters (sel : Selected) (size recv_link : Z)
    (req_in : list bool) (st : Xfer) :
  counters_ok kHaveData size recv_link req_in (links (snd st)) ->
  match recover_have cfg env sel size req_in st with
  | Done (Next st') => counters_ok kHaveData size recv_link req_in (links (snd st'))
  | Done (Return r) =>
      counters_ok kHaveData size recv_link req_in (links (snd (snd r)))
  | _ => True
  end.
Proof.
  intros Hok. unfold recover_have.
  apply (for_range_invariant
           (fun st : Xfer => counters_ok kHaveData size recv_link req_in (links (snd st)))
           (fun r : ReturnType * Xfer =>
              counters_ok kHaveData size recv_link req_in (links (snd (snd r)))));
    [|exact Hok].
  clear st Hok. intros i [b n] Hok. cbn [snd] in Hok.
  destruct (req_at req_in i) eqn:Hreq; [|exact Hok]. cbn [andb].
  destruct (CheckWrite sel i); [|exact Hok].
  destruct (WriteFromArray _ _ _ _) as [ok l'] eqn:HW.
  assert (Hnew : counters_ok kHaveData size recv_link req_in
                   (update_link (links n) (Z.of_nat i) (fun _ => l'))).
  { destruct (links n !! i) as [li|] eqn:Hi.
    - rewrite (update_link_in_range _ _ li) by assumption.
      rewrite (link_at_lookup _ _ _ Hi) in HW.
      pose proof Hok as (Hs & Hpos & Hread & Hwrite).
      pose proof (Hwrite i li Hi Hreq) as Hb. cbn in Hb.
      destruct (Hpos i li Hi) as [_ Hw0].
      apply WriteFromArray_counters in HW as [Hr Hw]; [|lia|lia].
      apply (counters_ok_written kHaveData size recv_link req_in (links n) i li l');
        [exact Hok|assumption|congruence|assumption|lia|cbn; lia].
    - rewrite update_link_out_of_range by assumption. exact Hok. }
  destruct ok; exact Hnew.
Qed.

(** Lines 525-534 keep the counters in bounds. *)
Lemma recover_request_counters (sel : Selected) (size recv_link : Z)
    (req_in : list bool) (st : Xfer) :
  0 <= recv_link ->
  req_at req_in (Z.to_nat recv_link) = false ->
  counters_ok kRequestData size recv_link req_in (links (snd st)) ->
  match recover_request cfg env sel size recv_link req_in st with
  | Done (Next st') =>
      counters_ok kRequestData size recv_link req_in (links (snd st'))
  | Done (Return r) =>
      counters_ok kRequestData size recv_link req_in (links (snd (snd r)))
  | _ => True
  end.
Proof.
  intros H0 Hpid Hok. destruct st as [buf net]. cbn [snd] in Hok.
  unfold recover_request.
  match goal with
  | |- context [rbind ?m _] =>
      assert (Hread :
        match m with
        | Done (Next st') =>
            counters_ok kRequestData size recv_link req_in (links (snd st'))
        | Done (Return r) =>
            counters_ok kRequestData size recv_link req_in (links (snd (snd r)))
        | _ => True
        end)
  end.
  { destruct (CheckRead sel (Z.to_nat recv_link)); [|exact Hok].
    destruct (ReadToArray _ _ _ _ _) as [[ok buf'] l'] eqn:HR.
    assert (Hnew : counters_ok kRequestData size recv_link req_in
                     (update_link (links net) recv_link (fun _ => l'))).
    { unfold update_link. destruct (Z.ltb_spec recv_link 0); [lia|].
      destruct (links net !! Z.to_nat recv_link) as [lp|] eqn:Hp.
      - assert (Hat : link_at (links net) recv_link = lp).
        { unfold link_at. destruct (Z.ltb_spec recv_link 0); [lia|].
          rewrite Hp. reflexivity. }
        rewrite Hat in HR.
        pose proof Hok as (Hs & Hpos & Hrd & Hwr).
        pose proof (Hrd _ lp Hp) as Hb. destruct (Hpos _ lp Hp) as [Hr0 _].
        apply ReadToArray_counters in HR as [Hw Hr]; [|lia|lia].
        apply (counters_ok_read size recv_link req_in (links net) lp l');
          [exact Hok|assumption..].
      - rewrite list_insert_ge by (apply lookup_ge_None; assumption). exact Hok. }
    destruct ok; exact Hnew. }
  match goal with
  | |- context [rbind ?m _] => destruct m as [[st1|r1]| |]
  end; cbn [rbind]; try exact Hread; try exact I.
  cbn [snd] in Hread.
  apply (for_range_invariant
           (fun st : Xfer =>
              counters_ok kRequestData size recv_link req_in (links (snd st)))
           (fun r : ReturnType * Xfer =>
              counters_ok kRequestData size recv_link req_in (links (snd (snd r)))));
    [|exact Hread].
  clear Hok Hread. intros i [b n] Hok. cbn [snd] in Hok.
  destruct (req_at req_in i) eqn:Hreq; [|exact Hok]. cbn [andb].
  destruct (negb _); [|exact Hok]. cbn [andb].
  destruct (CheckWrite sel i); [|exact Hok].
  destruct (WriteFromArray _ _ _ _) as [ok l'] eqn:HW.
  assert (Hnew : counters_ok kRequestData size recv_link req_in
                   (update_link (links n) (Z.of_nat i) (fun _ => l'))).
  { destruct (links n !! i) as [li|] eqn:Hi.
    - rewrite (update_link_in_range _ _ li) by assumption.
      rewrite (link_at_lookup _ _ _ Hi) in HW.
      pose proof Hok as (Hs & Hpos & Hrd & Hwr).
      pose proof (Hwr i li Hi Hreq) as Hb. cbn in Hb.
      destruct (Hpos i li Hi) as [_ Hw0].
      assert (Hsr : size_read (link_at (links n) recv_link) <= size).
      { unfold link_at. destruct (recv_link <? 0); [cbn; lia|].
        destruct (links n !! Z.to_nat recv_link) as [lp|] eqn:Hp; cbn; [|lia].
        exact (Hrd _ lp Hp). }
      apply WriteFromArray_counters in HW as [Hr Hw]; [|lia|lia].
      apply (counters_ok_written kRequestData size recv_link req_in (links n) i li l');
        [exact Hok|assumption| |assumption|lia|cbn; lia].
      intros _ _ Heq. subst i. congruence.
    - rewrite update_link_out_of_range by assumption. exact Hok. }
  destruct ok; exact Hnew.
Qed.

(** One pass of the event loop keeps the counters in bounds, for a node that
    has the data and for one that requests it. *)
Lemma recover_step_counters (role : RecoverType) (size recv_link : Z)
    (req_in : list bool) (buf : list byte) (net : Net) :
  role <> kPassData ->
  (role = kRequestData ->
   0 <= recv_link /\ req_at req_in (Z.to_nat recv_link) = false) ->
  counters_ok role size recv_link req_in (links net) ->
  match recover_step cfg env role size recv_link req_in (buf, net) with
  | Done (Next st') => counters_ok role size recv_link req_in (links (snd st'))
  | Done (Return r) => counters_ok role size recv_link req_in (links (snd (snd r)))
  | _ => True
  end.
Proof.
  intros Hrole Hreq Hok. unfold recover_step.
  destruct (transfer_finished size recv_link req_in (links net)); [exact Hok|].
  cbn [do_select].
  match goal with |- context [existsb ?f ?l] => destruct (existsb f l) end;
    [exact Hok|].
  destruct role; [| |contradiction].
  - apply recover_have_counters. exact Hok.
  - destruct (Hreq eq_refl) as [H0 Hpid].
    apply recover_request_counters; assumption.
Qed.

Lemma recover_loop_counters (role : RecoverType) (size recv_link : Z)
    (req_in : list bool) (fuel : nat) :
  role <> kPassData ->
  (role = kRequestData ->
   0 <= recv_link /\ req_at req_in (Z.to_nat recv_link) = false) ->
  forall (buf : list byte) (net : Net) r st',
    counters_ok role size recv_link req_in (links net) ->
    recover_loop cfg env fuel role size recv_link req_in (buf, net) = Done (r, st') ->
    counters_ok role size recv_link req_in (links (snd st')).
Proof.
  intros Hrole Hreq. induction fuel as [|fuel IH]; intros buf net r st' Hok;
    cbn [recover_loop]; [discriminate|].
  pose proof (recover_step_counters role size recv_link req_in buf net Hrole Hreq Hok)
    as Hs.
  destruct (recover_step cfg env role size recv_link req_in (buf, net))
    as [[[b n]|[r' s]]| |]; try discriminate.
  - apply IH. exact Hs.
  - intros [= <- <-]. exact Hs.
Qed.

(** After [ResetSize] on every link the counters are in bounds. *)
Lemma counters_ok_reset (role : RecoverType) (size recv_link : Z)
    (req_in : list bool) (ls : list LinkRecord) :
  0 <= size < SIZE_MODULUS ->
  counters_ok role size recv_link req_in (map ResetSize ls).
Proof.
  intros Hs.
  assert (Hz : forall i l, map ResetSize ls !! i = Some l ->
                           size_read l = 0 /\ size_write l = 0).
  { intros i l Hi. change (map ResetSize ls) with (ResetSize <$> ls) in Hi.
    rewrite list_lookup_fmap in Hi.
    destruct (ls !! i); cbn in Hi; [|discriminate]. injection Hi as <-. auto. }
  assert (Hat : size_read (link_at (map ResetSize ls) recv_link) = 0).
  { unfold link_at. destruct (recv_link <? 0); [reflexivity|].
    destruct (map ResetSize ls !! Z.to_nat recv_link) as [l|] eqn:Hl; [|reflexivity].
    apply Hz in Hl as [Hl _]. exact Hl. }
  split; [exact Hs|]. split; [|split].
  - intros i l Hi. apply Hz in Hi as [-> ->]. lia.
  - intros i l Hi. apply Hz in Hi as [-> _]. lia.
  - intros i l Hi _. apply Hz in Hi as [_ ->]. rewrite Hat. destruct role; lia.
Qed.

(** The assertion of line 490 holds for every link that asks for data. *)
Lemma any_request_done (req_in : list bool) (recv_link : Z) :
  forall (i : nat) (b b' : bool),
    any_request req_in i recv_link b = Done b' ->
    forall j, req_at req_in j = true -> Z.of_nat (i + j) <> recv_link.
Proof.
  induction req_in as [|r rest IH]; intros i b b' H j Hj.
  - destruct j; discriminate.
  - cbn [any_request] in H. destruct j as [|j].
    + cbn in Hj. subst r. unfold utils_Assert in H.
      rewrite Nat.add_0_r.
      destruct (Z.eqb_spec (Z.of_nat i) recv_link); cbn in H; [discriminate|assumption].
    + replace (i + S j)%nat with (S i + j)%nat by lia.
      destruct r.
      * destruct (utils_Assert _ _); cbn in H; try discriminate.
        apply (IH _ _ _ H). exact Hj.
      * apply (IH _ _ _ H). exact Hj.
Qed.

End CounterProperties.

(** X1.  The counters of the transfer, for the two roles that keep them in
    bounds.  In a call of [TryRecoverData] by a node that has the data or requests it,
    with [size] in the range of [size_t], the counters are in bounds when the
    loop of lines 501-568 is entered; every pass of the loop keeps them in
    bounds; so they are in bounds when the call returns, unless it returned
    before the loop, leaving the links as they were. *)
Theorem TryRecoverData_counters (cfg : Constants) (env : Env)
    (role : RecoverType) (size recv_link : Z) (req_in : list bool) :
  role <> kPassData ->
  0 <= size < SIZE_MODULUS ->
  (forall ls, counters_ok role size recv_link req_in (map ResetSize ls)) /\
  (forall buf net,
     (role = kRequestData ->
      0 <= recv_link /\ req_at req_in (Z.to_nat recv_link) = false) ->
     counters_ok role size recv_link req_in (links net) ->
     match recover_step cfg env role size recv_link req_in (buf, net) with
     | Done (Next st') => counters_ok role size recv_link req_in (links (snd st'))
     | Done (Return r) =>
         counters_ok role size recv_link req_in (links (snd (snd r)))
     | _ => True
     end) /\
  (forall fuel buf net r buf' net',
     TryRecoverData cfg env fuel role buf size recv_link req_in net
     = Done (r, buf', net') ->
     links net' = links net \/
     counters_ok role size recv_link req_in (links net')).
Proof.
  intros Hrole Hs. split; [|split].
  - intros ls. apply counters_ok_reset. exact Hs.
  - intros buf net Hreq Hok. apply recover_step_counters; assumption.
  - intros fuel buf net r buf' net'. unfold TryRecoverData.
    destruct (_ || _); [intros [= _ _ <-]; now left|].
    destruct (utils_Assert _ _); cbn [rbind]; try discriminate.
    destruct (any_request _ _ _ _) as [[]| |] eqn:Hany; cbn [rbind negb];
      try discriminate; [|intros [= _ _ <-]; now left].
    destruct (Z.leb_spec 0 recv_link) as [H0|H0]; cbn [orb];
      [|destruct role; cbn [is_kHaveData utils_Assert]; try contradiction];
      cbn [utils_Assert rbind]; try discriminate.
    + destruct (recover_loop _ _ _ _ _ _ _ _) as [[r' [b n]]| |] eqn:Hl;
        cbn [rbind]; try discriminate.
      intros [= _ _ <-]. right.
      apply recover_loop_counters in Hl; [exact Hl|assumption| |].
      * intros _. split; [assumption|].
        destruct (req_at req_in (Z.to_nat recv_link)) eqn:Hr; [|reflexivity].
        exfalso. apply (any_request_done _ _ _ _ _ Hany _ Hr). cbn. lia.
      * apply counters_ok_reset. exact Hs.
    + destruct (recover_loop _ _ _ _ _ _ _ _) as [[r' [b n]]| |] eqn:Hl;
        cbn [rbind]; try discriminate.
      intros [= _ _ <-]. right.
      apply recover_loop_counters in Hl; [exact Hl|assumption|discriminate|].
      apply counters_ok_reset. exact Hs.
Qed.

(** The counters of a node that has four bytes for one requester: in bounds
    after the reset. *)
Lemma TryRecoverData_counters_witness :
  counters_ok kHaveData 4 (-1) [true] (map ResetSize [fresh_link]).
Proof.
  assert (Hrole : kHaveData <> kPassData) by discriminate.
  assert (Hs : 0 <= 4 < SIZE_MODULUS) by (unfold SIZE_MODULUS; lia).
  exact (proj1 (TryRecoverData_counters sample_constants quiet_env kHaveData 4 (-1)
                  [true] Hrole Hs) [fresh_link]).
Defined.


(** ** The action-summary protocol *)

Section ExecProperties.

Variable cfg : Constants.
Variable env : Env.

Lemma make_action_plain (seqno : Z) :
  make_action cfg 0 seqno = mkAction false false false false seqno.
Proof. reflexivity. Qed.

(** With no flag in the request, [RecoverExec] is its loop. *)
Lemma RecoverExec_plain_loop (fuel : nat) (resbuf : ResultBuffer)
    (size seqno : Z) (st : Exec) :
  RecoverExec cfg env fuel resbuf size 0 seqno st
  = RecoverExec_loop cfg env fuel resbuf size (make_action cfg 0 seqno) st.
Proof. reflexivity. Qed.

Lemma CheckAndRecover_success (net : Net) :
  CheckAndRecover env kSuccess net = (true, net).
Proof. reflexivity. Qed.

Lemma CheckAndRecover_ok (r : ReturnType) (net : Net) :
  fst (CheckAndRecover env r net) = is_success r.
Proof. destruct r; reflexivity. Qed.

End ExecProperties.

(** ** The claim on plain actions *)

(** C1 (as amended).  Take a call [RecoverExec(buf, size, 0, seqno)] whose
    reduced action has no flag bit set and a [min_seqno] other than
    [kMaxSeq].  If [diff_seq] is false it returns false, having done nothing
    but the reduction.  If [diff_seq] is true it runs
    [TryGetResult(buf, size, act.min_seqno, requester)] with
    [requester = (req.min_seqno == act.min_seqno)]; the requester returns
    true on success, and in every other case the loop starts again with a
    new reduction. *)
Theorem RecoverExec_plain (cfg : Constants) (env : Env) (fuel : nat)
    (resbuf : ResultBuffer) (size seqno : Z) (st : Exec) (act : ActionSummary) :
  env_reduce env (clock (ex_net st)) (make_action cfg 0 seqno) = (kSuccess, act) ->
  no_flags act ->
  min_seqno act <> kMaxSeq cfg ->
  (diff_seq act = false ->
   RecoverExec cfg env (S fuel) resbuf size 0 seqno st
   = Done (false, mkExec (ex_buf st) (ex_checkpoint st) (tick (ex_net st)))) /\
  (diff_seq act = true ->
   RecoverExec cfg env (S fuel) resbuf size 0 seqno st
   = ('(r, buf, net) <~ TryGetResult cfg env fuel resbuf (ex_buf st) size
                          (min_seqno act) (seqno =? min_seqno act)
                          (tick (ex_net st)) ;
      let '(ok, net) := CheckAndRecover env r net in
      if ok && (seqno =? min_seqno act)
      then Done (true, mkExec buf (ex_checkpoint st) net)
      else RecoverExec cfg env fuel resbuf size 0 seqno
             (mkExec buf (ex_checkpoint st) net))).
Proof.
  intros Hred (Hl & Hp & Ha) Hmax.
  rewrite !RecoverExec_plain_loop. cbn [RecoverExec_loop].
  unfold RecoverExec_step. rewrite Hred, CheckAndRecover_success.
  cbn [negb ex_buf ex_checkpoint ex_net].
  rewrite Ha, Hp, Hl.
  destruct (Z.eqb_spec (min_seqno act) (kMaxSeq cfg)) as [|_]; [contradiction|].
  cbn [negb utils_Assert rbind].
  split; intros Hd; rewrite Hd; [reflexivity|].
  unfold exec_get_result. cbn [ex_buf ex_checkpoint ex_net min_seqno make_action].
  destruct (TryGetResult _ _ _ _ _ _ _ _ _) as [[[r buf] net]| |]; cbn [rbind];
    try reflexivity.
  destruct (CheckAndRecover env r net) as [ok net']. cbn [rbind].
  destruct ok; cbn [negb andb]; [|reflexivity].
  destruct (seqno =? min_seqno act); reflexivity.
Qed.

(** The amended claim for a late joiner: it is the requester, it receives
    the four bytes of the result and returns true. *)
Lemma RecoverExec_plain_witness :
  RecoverExec sample_constants late_joiner_env 5 empty_resbuf 4 0 0 start_exec
  = Done (true, mkExec [x0a; x0b; x0c; x0d] []
                  (mkNet [mkLink false 4 0 1024] 5)).
Proof.
  assert (Hred : env_reduce late_joiner_env (clock (ex_net start_exec))
                   (make_action sample_constants 0 0)
                 = (kSuccess, plain_action true 0)) by reflexivity.
  assert (Hflags : no_flags (plain_action true 0)) by (repeat split).
  assert (Hmax : min_seqno (plain_action true 0) <> kMaxSeq sample_constants)
    by discriminate.
  destruct (RecoverExec_plain sample_constants late_joiner_env 4 empty_resbuf 4 0
              start_exec (plain_action true 0) Hred Hflags Hmax) as [_ Hdiff].
  rewrite (Hdiff eq_refl). reflexivity.
Defined.

(** C1 as the specification states it fails: when every rank asks for the
    sequence number [kMaxSeq] with no flag, the assertion on [min_seqno]
    stops the process. *)
Lemma RecoverExec_same_seqno_as_specified_fails :
  ~ RecoverExec_same_seqno_as_specified sample_constants quiet_env 4
      empty_resbuf 4 67108864 start_exec.
Proof.
  intros H.
  specialize (H (plain_action false 67108864) eq_refl).
  assert (Hflags : no_flags (plain_action false 67108864)) by (repeat split).
  specialize (H Hflags eq_refl). discriminate H.
Qed.

(** ** The collective wrappers *)

Section WrapperProperties.

Variable cfg : Constants.
Variable env : Env.

Lemma Allreduce_step_entries (fuel : nat) (nbytes seqno : Z) (st : Retry) :
  match Allreduce_step cfg env fuel nbytes seqno st with
  | Done (Next st') | Done (Return st') =>
      rb_entries (rt_resbuf st') = rb_entries (rt_resbuf st)
  | _ => True
  end.
Proof.
  unfold Allreduce_step. destruct (recovered st); [reflexivity|].
  destruct (env_allreduce env _ _) as [succ reduced].
  destruct (CheckAndRecover env succ _) as [[] net']; [reflexivity|].
  destruct (RecoverExec _ _ _ _ _ _ _ _) as [[rec ex]| |]; cbn; auto.
Qed.

Lemma Allreduce_loop_entries (nbytes seqno : Z) (fuel : nat) :
  forall (st st' : Retry),
    Allreduce_loop cfg env fuel nbytes seqno st = Done st' ->
    rb_entries (rt_resbuf st') = rb_entries (rt_resbuf st).
Proof.
  induction fuel as [|fuel IH]; intros st st'; cbn [Allreduce_loop]; [discriminate|].
  pose proof (Allreduce_step_entries fuel nbytes seqno st) as Hs.
  destruct (Allreduce_step cfg env fuel nbytes seqno st) as [[s|s]| |];
    try discriminate.
  - intros H. apply IH in H. congruence.
  - intros [= <-]. exact Hs.
Qed.

Lemma Broadcast_step_entries (fuel : nat) (total_size root seqno : Z) (st : Retry) :
  match Broadcast_step cfg env fuel total_size root seqno st with
  | Done (Next st') | Done (Return st') =>
      rb_entries (rt_resbuf st') = rb_entries (rt_resbuf st)
  | _ => True
  end.
Proof.
  unfold Broadcast_step. destruct (recovered st); [reflexivity|].
  destruct (env_broadcast env _ _ _) as [succ received].
  destruct (CheckAndRecover env succ _) as [[] net']; [reflexivity|].
  destruct (RecoverExec _ _ _ _ _ _ _ _) as [[rec ex]| |]; cbn; auto.
Qed.

Lemma Broadcast_loop_entries (total_size root seqno : Z) (fuel : nat) :
  forall (st st' : Retry),
    Broadcast_loop cfg env fuel total_size root seqno st = Done st' ->
    rb_entries (rt_resbuf st') = rb_entries (rt_resbuf st).
Proof.
  induction fuel as [|fuel IH]; intros st st'; cbn [Broadcast_loop]; [discriminate|].
  pose proof (Broadcast_step_entries fuel total_size root seqno st) as Hs.
  destruct (Broadcast_step cfg env fuel total_size root seqno st) as [[s|s]| |];
    try discriminate.
  - intros H. apply IH in H. congruence.
  - intros [= <-]. exact Hs.
Qed.

(** What a collective does to the entries of the result buffer: the check of
    lines 62-65, then one new entry under the current sequence number. *)
Lemma run_collective_entries (fuel : nat) (c : Collective) (e e' : Engine)
    (buf' : list byte) :
  run_collective cfg env fuel c e = Done (buf', e') ->
  exists kept new,
    drop_last_check (rank e) (result_buffer_round e) (resbuf e) = Done kept /\
    rb_entries (resbuf e') = rb_entries kept ++ [new] /\
    e_seqno new = seq_counter e /\
    seq_counter e' = seq_counter e + 1 /\
    rank e' = rank e /\
    result_buffer_round e' = result_buffer_round e.
Proof.
  destruct c as [buf tn cnt|buf total root]; cbn [run_collective].
  - unfold Allreduce.
    destruct (RecoverExec _ _ _ _ _ _ _ _) as [[rec ex]| |]; cbn [rbind]; try discriminate.
    destruct (drop_last_check _ _ _) as [kept| |]; cbn [rbind]; try discriminate.
    destruct (Allreduce_loop _ _ _ _ _ _) as [st| |] eqn:Hl; cbn [rbind]; try discriminate.
    intros [= <- <-]. apply Allreduce_loop_entries in Hl. cbn in Hl.
    eexists kept, _. split; [reflexivity|]. cbn. rewrite Hl. auto.
  - unfold Broadcast.
    destruct (RecoverExec _ _ _ _ _ _ _ _) as [[rec ex]| |]; cbn [rbind]; try discriminate.
    destruct (drop_last_check _ _ _) as [kept| |]; cbn [rbind]; try discriminate.
    destruct (Broadcast_loop _ _ _ _ _ _ _) as [st| |] eqn:Hl; cbn [rbind]; try discriminate.
    intros [= <- <-]. apply Broadcast_loop_entries in Hl. cbn in Hl.
    eexists kept, _. split; [reflexivity|]. cbn. rewrite Hl. auto.
Qed.

Lemma last_map_seqno (entries : list ResultEntry) (l : list Z) (s : Z) :
  map e_seqno entries = l ++ [s] ->
  exists le, last entries = Some le /\ e_seqno le = s /\
             map e_seqno (removelast entries) = l.
Proof.
  revert l. induction entries as [|x entries IH]; intros l H.
  - destruct l; discriminate.
  - destruct entries as [|y entries].
    + destruct l as [|a [|b l]]; try discriminate. injection H as H. exists x. auto.
    + destruct l as [|a l]; [discriminate|]. cbn [map] in H. injection H as Ha H.
      destruct (IH l H) as (le & Hlast & Hs & Hrm). exists le.
      split; [exact Hlast|]. split; [exact Hs|].
      change (removelast (x :: y :: entries)) with (x :: removelast (y :: entries)).
      cbn [map]. rewrite Hrm, Ha. reflexivity.
Qed.

Lemma retained_seqnos_succ (rank round : Z) (m : nat) :
  retained_seqnos rank round (S (S m))
  = List.filter (congruent rank round) (map Z.of_nat (seq 0 m))
    ++ (if congruent rank round (Z.of_nat m) then [Z.of_nat m] else [])
    ++ [Z.of_nat (S m)].
Proof.
  unfold retained_seqnos. rewrite seq_S, map_app, List.filter_app. cbn [map List.filter].
  rewrite Nat.add_0_l, <- app_assoc. reflexivity.
Qed.

(** The invariant of a run: the sequence counter counts the collectives, and
    the buffer holds the retained sequence numbers. *)
Lemma run_collective_retained (fuel : nat) (c : Collective) (e e' : Engine)
    (buf' : list byte) (n : nat) :
  seq_counter e = Z.of_nat n ->
  map e_seqno (rb_entries (resbuf e))
  = retained_seqnos (rank e) (result_buffer_round e) n ->
  run_collective cfg env fuel c e = Done (buf', e') ->
  seq_counter e' = Z.of_nat (S n) /\
  map e_seqno (rb_entries (resbuf e'))
  = retained_seqnos (rank e') (result_buffer_round e') (S n).
Proof.
  intros Hc Hinv Hrun.
  apply run_collective_entries in Hrun
    as (kept & new & Hdrop & Hent & Hnew & Hcnt & -> & ->).
  split; [lia|]. rewrite Hent, map_app. cbn [map]. rewrite Hnew, Hc.
  destruct n as [|m].
  - destruct (rb_entries (resbuf e)) as [|x l] eqn:He; [|discriminate].
    unfold drop_last_check, LastSeqNo in Hdrop. rewrite He in Hdrop. cbn in Hdrop.
    injection Hdrop as <-. rewrite He. reflexivity.
  - cbn [retained_seqnos] in Hinv.
    apply last_map_seqno in Hinv as (le & Hlast & Hs & Hrm).
    rewrite retained_seqnos_succ.
    unfold drop_last_check, LastSeqNo in Hdrop. rewrite Hlast, Hs in Hdrop.
    destruct (Z.eqb_spec (Z.of_nat m) (-1)) as [|_]; [lia|]. cbn [negb] in Hdrop.
    destruct (result_buffer_round e =? 0); [discriminate|].
    unfold congruent.
    destruct (Z.rem (Z.of_nat m) (result_buffer_round e)
              =? Z.rem (rank e) (result_buffer_round e)); cbn [negb] in Hdrop;
      injection Hdrop as <-.
    + rewrite (app_removelast_last le (l := rb_entries (resbuf e))).
      2:{ intros He. rewrite He in Hlast. discriminate. }
      assert (Hl : List.last (rb_entries (resbuf e)) le = le).
      { clear -Hlast. induction (rb_entries (resbuf e)) as [|x [|y l] IH];
          [discriminate| injection Hlast as ->; reflexivity | apply IH, Hlast]. }
      rewrite Hl, map_app, Hrm. cbn [map]. rewrite Hs, <- app_assoc. reflexivity.
    + cbn [DropLast rb_entries]. rewrite Hrm. reflexivity.
Qed.

Lemma run_collectives_retained (fuel : nat) (cs : list Collective) :
  forall (e e' : Engine) (n : nat),
    seq_counter e = Z.of_nat n ->
    map e_seqno (rb_entries (resbuf e))
    = retained_seqnos (rank e) (result_buffer_round e) n ->
    run_collectives cfg env fuel cs e = Done e' ->
    rank e' = rank e /\ result_buffer_round e' = result_buffer_round e /\
    seq_counter e' = Z.of_nat (n + length cs) /\
    map e_seqno (rb_entries (resbuf e'))
    = retained_seqnos (rank e) (result_buffer_round e) (n + length cs).
Proof.
  induction cs as [|c cs IH]; intros e e' n Hc Hinv; cbn [run_collectives length].
  - intros [= <-]. rewrite Nat.add_0_r. auto.
  - destruct (run_collective cfg env fuel c e) as [[buf1 e1]| |] eqn:Hrun;
      cbn [rbind]; try discriminate.
    intros Hrest.
    pose proof (run_collective_entries _ _ _ _ _ Hrun) as (_ & _ & _ & _ & _ & _ & Hr & HR).
    destruct (run_collective_retained _ _ _ _ _ n Hc Hinv Hrun) as [Hc1 Hinv1].
    destruct (IH e1 e' (S n) Hc1 Hinv1 Hrest) as (H1 & H2 & H3 & H4).
    rewrite Hr, HR in *. replace (n + S (length cs))%nat with (S n + length cs)%nat by lia.
    auto.
Qed.

End WrapperProperties.

(** ** The claims on the wrappers *)

(** C2.  In a call of [Allreduce] or [Broadcast] on a non-empty result
    buffer, the previous last entry is dropped if and only if
    [LastSeqNo() % R != rank % R], and retained when the two remainders
    agree; the result of the call becomes the new last entry.  So after [n]
    collectives from an empty buffer a worker holds the results numbered
    below [n - 1] that are congruent to its rank modulo [R], and the last
    one. *)
Theorem collective_retention (cfg : Constants) (env : Env) (fuel : nat) :
  (forall (c : Collective) (e e' : Engine) (buf' : list byte) (le : ResultEntry),
     run_collective cfg env fuel c e = Done (buf', e') ->
     last (rb_entries (resbuf e)) = Some le ->
     e_seqno le <> -1 ->
     exists new,
       e_seqno new = seq_counter e /\
       (rb_entries (resbuf e') = removelast (rb_entries (resbuf e)) ++ [new] <->
        Z.rem (e_seqno le) (result_buffer_round e)
        <> Z.rem (rank e) (result_buffer_round e)) /\
       (rb_entries (resbuf e') = rb_entries (resbuf e) ++ [new] <->
        Z.rem (e_seqno le) (result_buffer_round e)
        = Z.rem (rank e) (result_buffer_round e))) /\
  (forall (cs : list Collective) (e e' : Engine),
     rb_entries (resbuf e) = [] ->
     seq_counter e = 0 ->
     run_collectives cfg env fuel cs e = Done e' ->
     map e_seqno (rb_entries (resbuf e'))
     = retained_seqnos (rank e) (result_buffer_round e) (length cs)).
Proof.
  split.
  - intros c e e' buf' le Hrun Hlast Hseq.
    apply run_collective_entries in Hrun as (kept & new & Hdrop & Hent & Hnew & _).
    exists new. split; [exact Hnew|].
    unfold drop_last_check, LastSeqNo in Hdrop. rewrite Hlast in Hdrop.
    destruct (Z.eqb_spec (e_seqno le) (-1)) as [|_]; [contradiction|].
    cbn [negb] in Hdrop.
    destruct (result_buffer_round e =? 0); [discriminate|].
    assert (Hne : removelast (rb_entries (resbuf e)) <> rb_entries (resbuf e)).
    { intros Heq. apply (f_equal (@length _)) in Heq.
      rewrite removelast_firstn_len, length_take in Heq.
      destruct (rb_entries (resbuf e)); [discriminate|cbn in Heq; lia]. }
    destruct (Z.eqb_spec (Z.rem (e_seqno le) (result_buffer_round e))
                (Z.rem (rank e) (result_buffer_round e))) as [Heq|Heq];
      cbn [negb] in Hdrop; injection Hdrop as <-; rewrite Hent; cbn [DropLast rb_entries].
    + split; split; intros H; try reflexivity; try assumption.
      * apply app_inv_tail in H. symmetry in H. contradiction.
      * contradiction.
    + split; split; intros H; try reflexivity; try assumption.
      * apply app_inv_tail in H. contradiction.
      * contradiction.
  - intros cs e e' Hempty Hc Hrun.
    apply (run_collectives_retained cfg env fuel cs e e' 0%nat); auto.
    rewrite Hempty. reflexivity.
Qed.

(** C2 on three collectives of rank 0 with [R = 2]: the results 0 and 2 are
    held, the result 1 was dropped. *)
Lemma collective_retention_witness :
  exists e',
    run_collectives sample_constants quiet_env 5 three_allreduces start_engine
    = Done e' /\
    map e_seqno (rb_entries (resbuf e')) = [0; 2].
Proof.
  eexists. split; [vm_compute; reflexivity|].
  refine (proj2 (collective_retention sample_constants quiet_env 5)
            three_allreduces start_engine _ eq_refl eq_refl _).
  vm_compute. reflexivity.
Defined.

(** C7.  [LoadCheckPoint] rejects a [local_model] that is not null.  With a
    null [local_model], whenever it returns, the result buffer is empty and
    [seq_counter] is 0; and if the version number it leaves is 0, it returns
    0 and the [global_model] is as it was. *)
Theorem LoadCheckPoint_spec (cfg : Constants) (env : Env) (Model : Type)
    (model_Load : list byte -> Model -> Model) (fuel : nat)
    (global_model : Model) (e : Engine) :
  (forall m, LoadCheckPoint cfg env Model model_Load fuel global_model (Some m) e
             = Abort "CheckPoint local_model is not yet supported") /\
  (forall v global_model' e',
     LoadCheckPoint cfg env Model model_Load fuel global_model None e
     = Done (v, global_model', e') ->
     rb_entries (resbuf e') = [] /\
     seq_counter e' = 0 /\
     (version_number e' = 0 -> v = 0 /\ global_model' = global_model)).
Proof.
  split; [reflexivity|].
  intros v gm' e'. unfold LoadCheckPoint. cbn [utils_Check rbind].
  destruct (RecoverExec _ _ _ _ _ _ _ _) as [[[] ex]| |]; cbn [rbind];
    try discriminate.
  - destruct (stream_read_int _ _) as [version rest].
    destruct (Z.eqb_spec version 0) as [Hv|Hv].
    + intros [= <- <- <-]. cbn. auto.
    + cbn [resbuf rank result_buffer_round seq_counter version_number
           global_checkpoint net].
      destruct (RecoverExec _ _ _ _ _ _ _ _) as [[acked ex']| |]; cbn [rbind];
        try discriminate.
      destruct acked; cbn [utils_Assert rbind]; try discriminate.
      intros [= <- <- <-]. cbn. repeat split; auto; contradiction.
  - intros [= <- <- <-]. cbn. auto.
Qed.

(** C7 for a restarted worker in the middle of the others' work: it receives
    the blob, returns version 3 with the model loaded, and its result buffer
    and sequence counter are reset. *)
Lemma LoadCheckPoint_spec_witness :
  exists e',
    LoadCheckPoint sample_constants restart_env (list byte) bytes_Load 5 [] None
      busy_engine = Done (3, [x41], e') /\
    rb_entries (resbuf e') = [] /\ seq_counter e' = 0.
Proof.
  eexists. 
  assert (H : LoadCheckPoint sample_constants restart_env (list byte) bytes_Load 5 []
                None busy_engine = Done (3, [x41], _)) by (vm_compute; reflexivity).
  split; [exact H|].
  destruct (proj2 (LoadCheckPoint_spec sample_constants restart_env (list byte)
                     bytes_Load 5 [] busy_engine) _ _ _ H) as (H1 & H2 & _).
  split; assumption.
Defined.

(** C9 as the specification states it fails: the attempt of the worker
    fails, no [TryAllreduce] ever reports success, and yet its buffer is
    overwritten, with the result the others hand to it. *)
Lemma Allreduce_overwrite_as_specified_fails :
  ~ Allreduce_overwrite_as_specified sample_constants broken_link_env 5
      operands 4 1 start_engine.
Proof.
  intros H.
  assert (Hrun : exists e',
             Allreduce sample_constants broken_link_env 5 operands 4 1 start_engine
             = Done ([x0a; x0b; x0c; x0d], e'))
    by (eexists; vm_compute; reflexivity).
  destruct Hrun as [e' Hrun].
  destruct (H _ _ Hrun) as [Heq|(t & data & reduced & Hs)]; discriminate.
Qed.


(** ** A requester that is asked for data *)

Section RequesterProperties.

Variable cfg : Constants.
Variable env : Env.

(** Line 510 lets a node watch a link for writing only when it has the data
    or passes it on: a requester is told of no writable socket. *)
Lemma requester_CheckWrite (size recv_link : Z) (req_in : list bool) (net : Net)
    (i : nat) :
  CheckWrite (fst (do_select env kRequestData size recv_link req_in net)) i = false.
Proof.
  cbn. unfold watch_write. cbn. rewrite andb_false_r. reflexivity.
Qed.

Lemma ReadToArray_size_write (buf buf' : list byte) (max_size : Z)
    (l l' : LinkRecord) (o : RecvOutcome) (ok : bool) :
  ReadToArray cfg buf max_size l o = (ok, buf', l') -> size_write l' = size_write l.
Proof.
  unfold ReadToArray. destruct (max_size =? size_read l); [intros [= _ _ <-]; reflexivity|].
  destruct (sock_Recv _ _) as [len data].
  destruct (len =? 0); [intros [= _ _ <-]; reflexivity|].
  destruct (len =? -1); intros [= _ _ <-]; reflexivity.
Qed.

Lemma recover_request_nothing_sent (sel : Selected) (size recv_link : Z)
    (req_in : list bool) (st : Xfer) (i : nat) :
  (forall j, CheckWrite sel j = false) ->
  nothing_sent i (links (snd st)) ->
  match recover_request cfg env sel size recv_link req_in st with
  | Done (Next st') => nothing_sent i (links (snd st'))
  | Done (Return r) => fst r = kSockError
  | _ => True
  end.
Proof.
  intros Hsel Hi. destruct st as [buf net]. cbn [snd] in Hi. unfold recover_request.
  match goal with
  | |- context [rbind ?m _] =>
      assert (Hread :
        match m with
        | Done (Next st') => nothing_sent i (links (snd st'))
        | Done (Return r) => fst r = kSockError
        | _ => True
        end)
  end.
  { destruct (CheckRead sel (Z.to_nat recv_link)); [|exact Hi].
    destruct (ReadToArray _ _ _ _ _) as [[ok buf'] l'] eqn:HR.
    destruct ok; [|reflexivity]. cbn [snd links tick set_links].
    apply ReadToArray_size_write in HR.
    destruct Hi as (l & Hl & Hw). unfold update_link.
    destruct (Z.ltb_spec recv_link 0); [exists l; auto|].
    destruct (decide (Z.to_nat recv_link = i)) as [Heq|Hne].
    - exists l'. split.
      + rewrite Heq. apply list_lookup_insert_eq. eapply lookup_lt_Some, Hl.
      + rewrite HR. unfold link_at. destruct (Z.ltb_spec recv_link 0); [lia|].
        rewrite Heq, Hl. exact Hw.
    - exists l. rewrite list_lookup_insert_ne by assumption. auto. }
  match goal with
  | |- context [rbind ?m _] => destruct m as [[st1|r1]| |]
  end; cbn [rbind]; try exact Hread; try exact I.
  apply (for_range_invariant (fun st : Xfer => nothing_sent i (links (snd st)))
           (fun r : ReturnType * Xfer => fst r = kSockError)); [|exact Hread].
  intros j [b n] Hj. rewrite Hsel, andb_false_r. exact Hj.
Qed.

Lemma recover_loop_requester (size recv_link : Z) (req_in : list bool) (i : nat)
    (fuel : nat) :
  req_at req_in i = true -> size <> 0 ->
  forall (buf : list byte) (net : Net) r st',
    nothing_sent i (links net) ->
    recover_loop cfg env fuel kRequestData size recv_link req_in (buf, net)
    = Done (r, st') ->
    r <> kSuccess.
Proof.
  intros Hreq Hsize. induction fuel as [|fuel IH]; intros buf net r st' Hi;
    cbn [recover_loop]; [discriminate|].
  assert (Hstep :
    match recover_step cfg env kRequestData size recv_link req_in (buf, net) with
    | Done (Next st1) => nothing_sent i (links (snd st1))
    | Done (Return r1) => fst r1 <> kSuccess
    | _ => True
    end).
  { unfold recover_step.
    assert (Hfin : transfer_finished size recv_link req_in (links net) = false).
    { destruct Hi as (l & Hl & Hw). unfold transfer_finished.
      apply not_true_is_false. intros Hall.
      rewrite forallb_forall in Hall. specialize (Hall i).
      assert (Hin : In i (seq 0 (length (links net)))).
      { apply in_seq. split; [lia|]. cbn. eapply lookup_lt_Some, Hl. }
      specialize (Hall Hin). apply andb_prop in Hall as [_ Hp].
      unfold pending_write in Hp. rewrite Hreq, (link_at_lookup _ _ _ Hl), Hw in Hp.
      destruct size; cbn in Hp; [contradiction|discriminate|discriminate]. }
    rewrite Hfin.
    pose proof (requester_CheckWrite size recv_link req_in net) as Hsel.
    destruct (do_select env kRequestData size recv_link req_in net) as [sel net1] eqn:Hds.
    cbn [fst] in Hsel.
    assert (Hnet1 : links net1 = links net).
    { unfold do_select in Hds. injection Hds as _ <-. reflexivity. }
    destruct (existsb _ _); [discriminate|].
    pose proof (recover_request_nothing_sent sel size recv_link req_in (buf, net1) i
                  Hsel) as Hr.
    cbn [snd] in Hr. rewrite Hnet1 in Hr. specialize (Hr Hi).
    destruct (recover_request _ _ _ _ _ _ _) as [[s|r1]| |]; auto.
    rewrite Hr. discriminate. }
  destruct (recover_step cfg env kRequestData size recv_link req_in (buf, net))
    as [[[b n]|[r1 s1]]| |]; try discriminate.
  - apply IH. exact Hstep.
  - intros [= <- <-]. exact Hstep.
Qed.

End RequesterProperties.

(** X2.  A requester forwards nothing.  When a link asks a node with the role
    [kRequestData] for data ([req_in[i]] holds for a link [i], and [size] is
    not 0), no socket is ever reported writable to it, it sends nothing, and
    [TryRecoverData] does not return [kSuccess], whatever the network does
    and however long the loop runs. *)
Theorem TryRecoverData_requester_forwards_nothing (cfg : Constants) (env : Env)
    (fuel : nat) (buf buf' : list byte) (size recv_link : Z)
    (req_in : list bool) (i : nat) (net net' : Net) (r : ReturnType) :
  req_at req_in i = true ->
  (i < length (links net))%nat ->
  size <> 0 ->
  TryRecoverData cfg env fuel kRequestData buf size recv_link req_in net
  = Done (r, buf', net') ->
  r <> kSuccess.
Proof.
  intros Hreq Hi Hsize. unfold TryRecoverData.
  destruct (Nat.eqb_spec (length (links net)) 0) as [|_]; [lia|].
  destruct (Z.eqb_spec size 0) as [|_]; [contradiction|]. cbn [orb].
  destruct (utils_Assert _ _); cbn [rbind]; try discriminate.
  destruct (any_request _ _ _ _) as [b| |] eqn:Hany; cbn [rbind]; try discriminate.
  assert (b = true) as ->.
  { clear -Hany. cbn [is_kRequestData] in Hany.
    assert (Hgen : forall req_in i b',
              any_request req_in i recv_link true = Done b' -> b' = true).
    { induction req_in0 as [|x rest IH]; intros j b' H; cbn in H.
      - congruence.
      - destruct x; [destruct (utils_Assert _ _); cbn in H; try discriminate|];
          eapply IH, H. }
    eapply Hgen, Hany. }
  cbn [negb]. destruct (utils_Assert _ _); cbn [rbind]; try discriminate.
  destruct (recover_loop _ _ _ _ _ _ _ _) as [[r' [b n]]| |] eqn:Hl; cbn [rbind];
    try discriminate.
  intros [= <- _ _].
  apply (recover_loop_requester cfg env size recv_link req_in i fuel Hreq Hsize
           _ _ _ _) in Hl; [exact Hl|].
  cbn [links set_links]. change (map ResetSize (links net)) with (ResetSize <$> links net).
  destruct (lookup_lt_is_Some_2 (links net) i Hi) as [l Hl'].
  exists (ResetSize l). rewrite list_lookup_fmap, Hl'. auto.
Qed.

(** A requester asked for data by its second link, whose source has gone:
    the call ends with [kSockError]. *)
Lemma TryRecoverData_requester_forwards_nothing_witness :
  TryRecoverData sample_constants quiet_env 5 kRequestData four_zeros 4 0
    [false; true] two_link_net
  = Done (kSockError, four_zeros,
          mkNet [mkLink true 0 0 1024; mkLink false 0 0 1024] 2) /\
  kSockError <> kSuccess.
Proof.
  assert (H : TryRecoverData sample_constants quiet_env 5 kRequestData four_zeros
                4 0 [false; true] two_link_net
              = Done (kSockError, four_zeros,
                      mkNet [mkLink true 0 0 1024; mkLink false 0 0 1024] 2))
    by (vm_compute; reflexivity).
  assert (Hlt : (1 < length (links two_link_net))%nat) by (cbn; lia).
  assert (Hsz : 4 <> 0) by discriminate.
  split; [exact H|].
  exact (TryRecoverData_requester_forwards_nothing sample_constants quiet_env 5
           four_zeros four_zeros 4 0 [false; true] 1%nat two_link_net _
           kSockError eq_refl Hlt Hsz H).
Defined.

(** ** The sequence counter *)

(** X4.  After [n] collectives from a sequence counter of 0, the sequence counter
    is [n], and the rank and the retention period are as they were. *)
Theorem run_collectives_seq_counter (cfg : Constants) (env : Env) (fuel : nat)
    (cs : list Collective) (e e' : Engine) :
  rb_entries (resbuf e) = [] ->
  seq_counter e = 0 ->
  run_collectives cfg env fuel cs e = Done e' ->
  seq_counter e' = Z.of_nat (length cs) /\
  rank e' = rank e /\
  result_buffer_round e' = result_buffer_round e.
Proof.
  intros Hempty Hc Hrun.
  destruct (run_collectives_retained cfg env fuel cs e e' 0%nat) as (H1 & H2 & H3 & _);
    auto.
  rewrite Hempty. reflexivity.
Qed.

(** The sequence counter after three collectives. *)
Lemma run_collectives_seq_counter_witness :
  exists e',
    run_collectives sample_constants quiet_env 5 three_allreduces start_engine
    = Done e' /\
    seq_counter e' = 3.
Proof.
  eexists. split; [vm_compute; reflexivity|].
  refine (proj1 (run_collectives_seq_counter sample_constants quiet_env 5
                   three_allreduces start_engine _ eq_refl eq_refl _)).
  vm_compute. reflexivity.
Defined.

(** ** What a message-passing combinator does not look at *)

Lemma ShortestDist_scan_own_edge (rest : list (Z * Z)) :
  forall (i j : nat) (x : Z * Z) (res size : Z),
    ShortestDist_scan (<[j := x]> rest) i (i + j) res size
    = ShortestDist_scan rest i (i + j) res size.
Proof.
  induction rest as [|d rest IH]; intros i j x res size; [reflexivity|].
  destruct j as [|j]; cbn [ShortestDist_scan list_insert insert].
  - cbn. rewrite Nat.add_0_r, Nat.eqb_refl. reflexivity.
  - cbn. replace (i + S j)%nat with (S i + j)%nat by lia.
    destruct (Nat.eqb i (S i + j)); [apply IH|].
    destruct (fst d =? INT_MAX); [apply IH|].
    destruct (int_add (fst d) 1 <? res); apply IH.
Qed.

Lemma DataRequest_scan_own_edge (rest : list Z) :
  forall (i j : nat) (x : Z),
    DataRequest_scan (<[j := x]> rest) i (i + j)
    = DataRequest_scan rest i (i + j).
Proof.
  induction rest as [|r rest IH]; intros i j x; [reflexivity|].
  destruct j as [|j]; cbn.
  - rewrite Nat.add_0_r, Nat.eqb_refl. reflexivity.
  - replace (i + S j)%nat with (S i + j)%nat by lia.
    destruct (Nat.eqb i (S i + j)); [apply IH|].
    destruct (negb (r =? 0)); [reflexivity|apply IH].
Qed.

(** X6. The value a node sends on an edge does not depend on the value that
    came in on that edge: [ShortestDist] and [DataRequest] skip the entry
    [out_index] of the inbound values (lines 363 and 395), whatever it holds. *)
Theorem combinators_skip_own_edge :
  (forall (node_value : bool * Z) (dist_in : list (Z * Z)) (out_index : nat)
          (x : Z * Z),
     ShortestDist node_value (<[out_index := x]> dist_in) out_index
     = ShortestDist node_value dist_in out_index) /\
  (forall (node_value : bool * Z) (req_in : list Z) (out_index : nat) (x : Z),
     DataRequest node_value (<[out_index := x]> req_in) out_index
     = DataRequest node_value req_in out_index).
Proof.
  split.
  - intros nv dist_in out x. unfold ShortestDist.
    destruct (fst nv); [reflexivity|].
    apply (ShortestDist_scan_own_edge dist_in 0 out).
  - intros nv req_in out x. unfold DataRequest.
    destruct (static_cast_int (Z.of_nat out) =? snd nv); [|reflexivity].
    destruct (fst nv); [reflexivity|].
    apply (DataRequest_scan_own_edge req_in 0 out).
Qed.

(** ** Which assertion of the routing decision can fail *)

Lemma DataRequest_nonzero (request_data : bool) (best_link : Z)
    (req_in : list Z) (i : nat) :
  DataRequest (request_data, best_link) req_in i <> 0 <->
  static_cast_int (Z.of_nat i) = best_link /\
  (request_data = true \/
   exists j r, req_in !! j = Some r /\ j <> i /\ r <> 0).
Proof.
  unfold DataRequest. cbn [fst snd].
  destruct (Z.eqb_spec (static_cast_int (Z.of_nat i)) best_link) as [Hb|Hb].
  2:{ split; [contradiction|]. intros [? _]. contradiction. }
  destruct request_data.
  { split; [auto|discriminate]. }
  pose proof (DataRequest_scan_one req_in 0 i) as Hone.
  destruct (DataRequest_scan_bit req_in 0 i) as [H1|H0].
  - rewrite H1. split; [|discriminate]. intros _. split; [assumption|right].
    apply Hone in H1 as (j & r & Hj & Hne & Hr). eauto.
  - rewrite H0. split; [contradiction|].
    intros [_ [Hrd|(j & r & Hj & Hne & Hr)]]; [discriminate|].
    assert (DataRequest_scan req_in 0 i = 1) by (apply Hone; eauto).
    congruence.
Qed.

Lemma routing_requests_outcome (req_in req_out : list Z) (best_link : Z) :
  (forall j ro, req_out !! j = Some ro -> ro <> 0 ->
                static_cast_int (Z.of_nat j) = best_link) ->
  forall (i : nat),
    routing_requests req_in req_out i best_link
    = Done (map (fun r => negb (r =? 0)) req_in) \/
    (routing_requests req_in req_out i best_link
     = Abort "cannot get and receive request" /\
     exists j rj ro, req_in !! j = Some rj /\ rj <> 0 /\
                     req_out !! (i + j)%nat = Some ro /\ ro <> 0).
Proof.
  intros Hbest.
  induction req_in as [|r rest IH]; intros i; cbn; [left; reflexivity|].
  destruct (req_out !! i) as [ro|] eqn:Hro; cbn.
  - destruct (Z.eqb_spec ro 0) as [Hz|Hz]; cbn.
    + destruct (IH (S i)) as [->|[-> (j & rj & ro' & Hj & Hrj & Ho & Hne)]];
        [left; reflexivity|right].
      split; [reflexivity|]. exists (S j), rj, ro'.
      replace (i + S j)%nat with (S i + j)%nat by lia. auto.
    + destruct (Z.eqb_spec r 0) as [Hr|Hr]; cbn.
      * rewrite (Hbest i ro Hro Hz), Z.eqb_refl. cbn.
        destruct (IH (S i)) as [->|[-> (j & rj & ro' & Hj & Hrj & Ho & Hne)]].
        -- left. subst r. reflexivity.
        -- right. split; [reflexivity|]. exists (S j), rj, ro'.
           replace (i + S j)%nat with (S i + j)%nat by lia. auto.
      * right. split; [reflexivity|]. exists 0%nat, r, ro.
        rewrite Nat.add_0_r. auto.
  - destruct (IH (S i)) as [->|[-> (j & rj & ro' & Hj & Hrj & Ho & Hne)]];
      [left; reflexivity|right].
    split; [reflexivity|]. exists (S j), rj, ro'.
    replace (i + S j)%nat with (S i + j)%nat by lia. auto.
Qed.

(** X7. The loop of lines 450-457 on the requests [MsgPassing] computes with
    [DataRequest]. The assertion of line 455 never fails: a request goes out
    on the link [best_link] only. The assertion of line 454 fails exactly when
    the link [best_link] itself asks for data while this node has a request to
    send on it, its own or one it forwards for another link; in every other
    case the loop ends and [p_req_in] marks the links that ask. *)
Theorem routing_requests_conflict (request_data : bool) (best_link : Z)
    (req_in : list Z) :
  (routing_requests req_in
     (snd (MsgPassing (kSuccess, req_in) (request_data, best_link) DataRequest))
     0 best_link
   = Done (asks req_in) /\
   forall i ri, req_in !! i = Some ri ->
                static_cast_int (Z.of_nat i) = best_link ->
                has_request_for request_data req_in i -> ri = 0) \/
  (routing_requests req_in
     (snd (MsgPassing (kSuccess, req_in) (request_data, best_link) DataRequest))
     0 best_link
   = Abort "cannot get and receive request" /\
   exists i ri, req_in !! i = Some ri /\ ri <> 0 /\
                static_cast_int (Z.of_nat i) = best_link /\
                has_request_for request_data req_in i).
Proof.
  cbn [MsgPassing snd]. unfold asks, has_request_for.
  set (req_out := imap _ req_in).
  assert (Hout : forall j ro, req_out !! j = Some ro ->
                   ro = DataRequest (request_data, best_link) req_in j).
  { intros j ro Hj. unfold req_out in Hj. rewrite list_lookup_imap in Hj.
    destruct (req_in !! j); cbn in Hj; congruence. }
  destruct (routing_requests_outcome req_in req_out best_link) with (i := 0%nat)
    as [Hdone|[Habort (j & rj & ro & Hj & Hrj & Ho & Hne)]].
  - intros j ro Hj Hne. apply Hout in Hj. subst ro.
    apply DataRequest_nonzero in Hne. tauto.
  - left. split; [assumption|].
    apply routing_requests_done in Hdone as [Hall _].
    intros i ri Hi Hb Hf.
    apply (Hall i ri (DataRequest (request_data, best_link) req_in i)); auto.
    + unfold req_out. rewrite list_lookup_imap, Hi. reflexivity.
    + apply DataRequest_nonzero. auto.
  - right. split; [assumption|]. exists j, rj. cbn in Ho.
    pose proof (Hout j ro Ho) as ->. apply DataRequest_nonzero in Hne as [Hb Hf].
    auto.
Qed.

(** ** The routing decision of a node that has the data *)

Section RoutingOutcomes.

Variable env : Env.

(** X8. A node with role [kHaveData] never fails an assertion of
    [TryDecideRouting]: when both message passes succeed it is told to receive
    from no link ([recv_link] -1), its size is left as it gave it, and
    [req_in] marks the links that ask. *)
Theorem TryDecideRouting_have_data (out : Routing) (net : Net)
    (dist_in : list (Z * Z)) (req_in : list Z) :
  env_dist_in env (clock net) = (kSuccess, dist_in) ->
  env_req_in env (S (clock net)) = (kSuccess, req_in) ->
  Z.of_nat (length req_in) <= INT_MAX ->
  TryDecideRouting env kHaveData out net
  = Done (kSuccess, mkRouting (rt_size out) (-1) (asks req_in), tick (tick net)).
Proof.
  intros Hd Hr Hlen. unfold TryDecideRouting, MsgPassing.
  rewrite Hd. cbn. rewrite Hr. cbn.
  rewrite routing_requests_complete; [reflexivity|].
  intros j ri ro Hj Ho Hne. exfalso. apply Hne.
  cbn in Ho. rewrite list_lookup_imap, Hj in Ho. cbn in Ho. injection Ho as <-.
  unfold DataRequest. cbn [fst snd].
  apply lookup_lt_Some in Hj.
  rewrite static_cast_int_index by lia.
  destruct (Z.eqb_spec (Z.of_nat j) (-1)); [lia|reflexivity].
Qed.

End RoutingOutcomes.

Lemma TryDecideRouting_have_data_witness :
  TryDecideRouting overread_env kHaveData (mkRouting 4 0 []) two_link_net
  = Done (kSuccess, mkRouting 4 (-1) [false; true], mkNet [fresh_link; fresh_link] 2).
Proof.
  apply (TryDecideRouting_have_data overread_env (mkRouting 4 0 []) two_link_net
           [(1, 4); (INT_MAX, 0)] [0; 1]).
  - reflexivity.
  - reflexivity.
  - vm_compute. discriminate.
Defined.

(** ** The link the routing decision chooses *)

Lemma reports_source_snoc (pre : list (Z * Z)) (d0 : Z * Z) (k : nat) (d' : Z * Z) :
  reports_source (pre ++ [d0]) k d' ->
  reports_source pre k d' \/ (k = length pre /\ d' = d0 /\ fst d0 <> INT_MAX).
Proof.
  intros [Hk Hf]. destruct (decide (k < length pre)%nat) as [Hlt|Hge].
  - left. rewrite lookup_app_l in Hk by assumption. split; assumption.
  - right. rewrite lookup_app_r in Hk by lia.
    destruct (k - length pre)%nat as [|n] eqn:Hn; cbn in Hk; [|discriminate].
    injection Hk as <-. split; [lia|]. split; [reflexivity|assumption].
Qed.

Lemma reports_source_app (pre rest : list (Z * Z)) (k : nat) (d' : Z * Z) :
  reports_source pre k d' -> reports_source (pre ++ rest) k d'.
Proof.
  intros [Hk Hf]. split; [|assumption].
  rewrite lookup_app_l; [assumption|]. eapply lookup_lt_Some; eassumption.
Qed.

Lemma best_so_far_skip (pre : list (Z * Z)) (d0 : Z * Z) (best_link p_size : Z) :
  fst d0 = INT_MAX ->
  best_so_far pre best_link p_size -> best_so_far (pre ++ [d0]) best_link p_size.
Proof.
  intros H0 [[-> Hnone]|(j & d & -> & -> & [[Hj Hf] Hmin] & Hsize)].
  - left. split; [reflexivity|]. intros k d' Hk.
    apply reports_source_snoc in Hk as [Hk|(_ & -> & Hne)]; [|contradiction].
    exact (Hnone k d' Hk).
  - right. exists j, d. split; [reflexivity|]. split; [reflexivity|]. split.
    + split; [apply reports_source_app; split; assumption|].
      intros k d' Hk.
      apply reports_source_snoc in Hk as [Hk|(_ & -> & Hne)]; [|contradiction].
      exact (Hmin k d' Hk).
    + intros k d' Hk.
      apply reports_source_snoc in Hk as [Hk|(_ & -> & Hne)]; [|contradiction].
      exact (Hsize k d' Hk).
Qed.

Lemma routing_best_invariant (dist_in : list (Z * Z)) :
  Z.of_nat (length dist_in) <= INT_MAX ->
  forall (rest pre : list (Z * Z)) (best_link p_size b s : Z),
    dist_in = pre ++ rest ->
    best_so_far pre best_link p_size ->
    routing_best dist_in rest (length pre) best_link p_size = Done (b, s) ->
    best_so_far dist_in b s.
Proof.
  intros Hlen. induction rest as [|d0 rest IH];
    intros pre best_link p_size b s Hsplit Hinv H.
  - cbn in H. injection H as <- <-. rewrite app_nil_r in Hsplit. subst. assumption.
  - assert (Hsplit' : dist_in = (pre ++ [d0]) ++ rest)
      by (rewrite <- app_assoc; exact Hsplit).
    assert (Hlen' : length (pre ++ [d0]) = S (length pre))
      by (rewrite length_app; cbn; lia).
    assert (Hpre : Z.of_nat (length pre) <= INT_MAX).
    { rewrite Hsplit, length_app in Hlen. lia. }
    cbn [routing_best] in H.
    destruct (Z.eqb_spec (fst d0) INT_MAX) as [H0|H0]; cbn [negb] in H.
    { rewrite <- Hlen' in H. apply (IH _ _ _ _ _ Hsplit' (best_so_far_skip _ _ _ _ H0 Hinv) H). }
    destruct Hinv as [[-> Hnone]|(j & d & -> & -> & [[Hj Hf] Hmin] & Hsize)].
    + cbn in H. rewrite <- Hlen' in H.
      apply (IH _ _ _ _ _ Hsplit') in H; [assumption|].
      right. exists (length pre), d0.
      split; [apply static_cast_int_index; assumption|]. split; [reflexivity|].
      assert (Hself : reports_source (pre ++ [d0]) (length pre) d0).
      { split; [|assumption]. rewrite lookup_app_r by lia.
        rewrite Nat.sub_diag. reflexivity. }
      split; [split; [assumption|]|].
      * intros k d' Hk.
        apply reports_source_snoc in Hk as [Hk|(-> & -> & _)];
          [elim (Hnone k d' Hk)|]. split; lia.
      * intros k d' Hk.
        apply reports_source_snoc in Hk as [Hk|(-> & -> & _)];
          [elim (Hnone k d' Hk)|reflexivity].
    + assert (Hjlt : (j < length pre)%nat) by (eapply lookup_lt_Some; eassumption).
      assert (Hbest : (Z.of_nat j =? -2) = false) by (apply Z.eqb_neq; lia).
      rewrite Hbest in H. cbn [orb] in H.
      unfold utils_Check in H.
      destruct (Z.eqb_spec (snd d) (snd d0)) as [Hs|Hs]; cbn in H; [|discriminate].
      rewrite Nat2Z.id in H.
      assert (Hat : dist_in !! j = Some d).
      { rewrite Hsplit. rewrite lookup_app_l by assumption. assumption. }
      rewrite Hat in H. cbn [default id] in H.
      rewrite <- Hlen' in H.
      assert (Hself : reports_source (pre ++ [d0]) (length pre) d0).
      { split; [|assumption]. rewrite lookup_app_r by lia.
        rewrite Nat.sub_diag. reflexivity. }
      destruct (Z.ltb_spec (fst d0) (fst d)) as [Hlt|Hge];
        apply (IH _ _ _ _ _ Hsplit') in H; try assumption.
      * right. exists (length pre), d0.
        split; [apply static_cast_int_index; assumption|]. split; [reflexivity|].
        split; [split; [assumption|]|].
        -- intros k d' Hk.
           apply reports_source_snoc in Hk as [Hk|(-> & -> & _)]; [|split; lia].
           destruct (Hmin k d' Hk) as [Hle _]. split; [lia|]. intros _. lia.
        -- intros k d' Hk.
           apply reports_source_snoc in Hk as [Hk|(-> & -> & _)]; [|reflexivity].
           rewrite (Hsize k d' Hk). assumption.
      * right. exists j, d. split; [reflexivity|]. split; [reflexivity|].
        split; [split; [apply reports_source_app; split; assumption|]|].
        -- intros k d' Hk.
           apply reports_source_snoc in Hk as [Hk|(-> & -> & _)];
             [exact (Hmin k d' Hk)|]. split; lia.
        -- intros k d' Hk.
           apply reports_source_snoc in Hk as [Hk|(-> & -> & _)];
             [exact (Hsize k d' Hk)|]. symmetry. assumption.
Qed.

Lemma routing_best_none (dist_in rest : list (Z * Z)) :
  forall (i : nat) (p_size : Z),
    (forall d, In d rest -> fst d = INT_MAX) ->
    routing_best dist_in rest i (-2) p_size = Done (-2, p_size).
Proof.
  induction rest as [|d0 rest IH]; intros i p_size Hall; cbn; [reflexivity|].
  rewrite (Hall d0) by (left; reflexivity). cbn.
  apply IH. intros d Hd. apply Hall. right. assumption.
Qed.

Section NearestSource.

Variable env : Env.

(** X9. A node without the data that comes out of [TryDecideRouting] with
    [kSuccess] receives from the first of the links nearest to a source (lines
    427-437 replace the choice only for a strictly smaller distance), its size
    is the size that link reports, and every link that reports a source
    reports the same size. When no link reports a source the check of line 438
    stops the process. *)
Theorem TryDecideRouting_nearest_source (role : RecoverType) (out : Routing)
    (net : Net) (dist_in : list (Z * Z)) :
  role <> kHaveData ->
  env_dist_in env (clock net) = (kSuccess, dist_in) ->
  Z.of_nat (length dist_in) <= INT_MAX ->
  (forall out' net',
     TryDecideRouting env role out net = Done (kSuccess, out', net') ->
     exists j d,
       rt_recvlink out' = Z.of_nat j /\ rt_size out' = snd d /\
       first_minimum (reports_source dist_in) j d /\
       forall k d', reports_source dist_in k d' -> snd d' = snd d) /\
  ((forall k d', ~ reports_source dist_in k d') ->
   TryDecideRouting env role out net
   = Abort "Too many nodes went down and we cannot recover..").
Proof.
  intros Hrole Hd Hlen. split.
  - intros out' net' H.
    apply TryDecideRouting_success in H
      as (dist_in' & req_in & Hd' & _ & _ & Hchoose & _).
    rewrite Hd in Hd'. injection Hd' as <-.
    destruct role; [contradiction| |]; cbn in Hchoose; unfold choose_link in Hchoose.
    all: destruct (routing_best dist_in dist_in 0 (-2) (rt_size out))
           as [[b s]| |] eqn:Hb; cbn in Hchoose; try discriminate.
    all: destruct (Z.eqb_spec b (-2)) as [Hb2|Hb2]; cbn in Hchoose; try discriminate.
    all: injection Hchoose as <- <-.
    all: apply (routing_best_invariant dist_in Hlen dist_in [] (-2) (rt_size out))
           in Hb as [[Hbad _]|Hgood];
           [contradiction|exact Hgood|reflexivity|].
    all: left; split; [reflexivity|]; intros k d' [Hk _]; discriminate.
  - intros Hnone. unfold TryDecideRouting, MsgPassing. rewrite Hd. cbn.
    assert (Hb : routing_best dist_in dist_in 0 (-2) (rt_size out)
                 = Done (-2, rt_size out)).
    { apply routing_best_none. intros d Hin.
      apply list_elem_of_In, list_elem_of_lookup in Hin as [k Hk].
      destruct (Z.eq_dec (fst d) INT_MAX) as [|Hne]; [assumption|].
      elim (Hnone k d). split; assumption. }
    destruct role; [contradiction| |]; cbn; rewrite Hb; reflexivity.
Qed.

End NearestSource.

Lemma TryDecideRouting_nearest_source_witness :
  exists j d,
    rt_recvlink (mkRouting 4 0 [false; true]) = Z.of_nat j /\
    rt_size (mkRouting 4 0 [false; true]) = snd d /\
    first_minimum (reports_source [(1, 4); (INT_MAX, 0)]) j d /\
    forall k d', reports_source [(1, 4); (INT_MAX, 0)] k d' -> snd d' = snd d.
Proof.
  refine (proj1 (TryDecideRouting_nearest_source overread_env kPassData
                   (mkRouting 0 0 []) two_link_net [(1, 4); (INT_MAX, 0)]
                   _ _ _) _ (mkNet [fresh_link; fresh_link] 2) _).
  - discriminate.
  - reflexivity.
  - vm_compute. discriminate.
  - vm_compute. reflexivity.
Defined.

(** ** How the streaming transfer ends *)

Lemma length_update_link (ls : list LinkRecord) (i : Z)
    (f : LinkRecord -> LinkRecord) :
  length (update_link ls i f) = length ls.
Proof.
  unfold update_link. destruct (i <? 0); [reflexivity|apply length_insert].
Qed.

Lemma transfer_finished_complete (size recv_link : Z) (req_in : list bool)
    (ls : list LinkRecord) :
  transfer_finished size recv_link req_in ls = true <->
  transfer_complete size recv_link req_in ls.
Proof.
  unfold transfer_finished, transfer_complete. rewrite forallb_forall. split.
  - intros H i l Hi.
    assert (Hin : In i (seq 0 (length ls))).
    { apply in_seq. apply lookup_lt_Some in Hi. lia. }
    specialize (H i Hin). apply andb_true_iff in H as [Hr Hw].
    unfold watch_read, pending_write in *.
    rewrite (link_at_lookup ls i l Hi) in Hr, Hw. split.
    + intros Heq. apply Z.eqb_eq in Heq. rewrite Heq in Hr. cbn in Hr.
      apply negb_true_iff, negb_false_iff, Z.eqb_eq in Hr. assumption.
    + intros Hreq. rewrite Hreq in Hw. cbn in Hw.
      apply negb_true_iff, negb_false_iff, Z.eqb_eq in Hw. assumption.
  - intros H i Hin. apply in_seq in Hin.
    destruct (lookup_lt_is_Some_2 ls i) as [l Hi]; [lia|].
    destruct (H i l Hi) as [Hr Hw].
    unfold watch_read, pending_write. rewrite (link_at_lookup ls i l Hi).
    apply andb_true_iff. split; apply negb_true_iff.
    + destruct (Z.eqb_spec (Z.of_nat i) recv_link) as [Heq|]; [|reflexivity].
      cbn. apply negb_false_iff, Z.eqb_eq. auto.
    + destruct (req_at req_in i); [|reflexivity].
      cbn. apply negb_false_iff, Z.eqb_eq. auto.
Qed.

Section TransferOutcomes.

Variable cfg : Constants.
Variable env : Env.

(** The three role branches leave the loop with [kSockError] only, and no
    pass adds or removes a link. *)
Lemma recover_branch_return (role : RecoverType) (sel : Selected)
    (size recv_link : Z) (req_in : list bool) (st : Xfer) :
  match
    match role with
    | kRequestData => recover_request cfg env sel size recv_link req_in st
    | kHaveData => recover_have cfg env sel size req_in st
    | kPassData => recover_pass cfg env sel size recv_link req_in st
    end
  with
  | Done (Next st') => length (links (snd st')) = length (links (snd st))
  | Done (Return r) =>
      fst r = kSockError /\
      length (links (snd (snd r))) = length (links (snd st))
  | _ => True
  end.
Proof.
  destruct st as [buf net]. cbn [snd].
  set (n := length (links net)).
  set (P := fun st : Xfer => length (links (snd st)) = n).
  set (Q := fun r : ReturnType * Xfer =>
              fst r = kSockError /\ length (links (snd (snd r))) = n).
  destruct role.
  - unfold recover_have.
    apply (for_range_invariant P Q); [|reflexivity].
    intros i [b n0] Hn. unfold P in Hn. cbn in Hn.
    destruct (req_at req_in i && _); [|exact Hn].
    destruct (WriteFromArray _ _ _ _) as [[] l']; unfold P, Q; cbn;
      rewrite ?length_update_link; auto.
  - unfold recover_request.
    match goal with
    | |- context [rbind ?m _] =>
        assert (Hread : match m with
                        | Done (Next st') => P st'
                        | Done (Return r) => Q r
                        | _ => True
                        end)
    end.
    { destruct (CheckRead sel _); [|reflexivity].
      destruct (ReadToArray _ _ _ _ _) as [[[] b'] l']; unfold P, Q; cbn;
        rewrite ?length_update_link; auto. }
    match goal with
    | |- context [rbind ?m _] => destruct m as [[st'|r]| |]
    end; cbn [rbind]; auto.
    unfold P in Hread. rewrite Hread.
    apply (for_range_invariant P Q); [|exact Hread].
    intros i [b n0] Hn. unfold P in Hn. cbn in Hn.
    destruct (req_at req_in i && _ && _); [|exact Hn].
    destruct (WriteFromArray _ _ _ _) as [[] l']; unfold P, Q; cbn;
      rewrite ?length_update_link; auto.
  - unfold recover_pass.
    match goal with
    | |- context [rbind ?m _] =>
        assert (Hread : match m with
                        | Done (Next st') => P st'
                        | Done (Return r) => Q r
                        | _ => True
                        end)
    end.
    { destruct (CheckRead sel _); [|reflexivity].
      destruct (utils_Assert _ _); cbn [rbind]; auto.
      destruct (ReadToRingBuffer _ _ _) as [[[] l']| |]; unfold P, Q; cbn;
        rewrite ?length_update_link; auto. }
    match goal with
    | |- context [rbind ?m _] => destruct m as [[st'|r]| |]
    end; cbn [rbind]; auto.
    unfold P in Hread. rewrite Hread.
    apply (for_range_invariant P Q); [|exact Hread].
    intros i [b n0] Hn. unfold P in Hn. cbn in Hn.
    destruct (req_at req_in i && _ && _); [|exact Hn].
    destruct (buffer_size _ =? 0); [exact I|].
    destruct (negb (sock_Send _ _ =? -1)); unfold P, Q; cbn;
      rewrite ?length_update_link; auto.
    destruct (negb (transient _ _)); cbn; auto.
Qed.

Lemma recover_step_outcome (role : RecoverType) (size recv_link : Z)
    (req_in : list bool) (buf : list byte) (net : Net) :
  match recover_step cfg env role size recv_link req_in (buf, net) with
  | Done (Next st') => length (links (snd st')) = length (links net)
  | Done (Return r) =>
      length (links (snd (snd r))) = length (links net) /\
      (fst r = kSuccess ->
       snd r = (buf, net) /\
       transfer_finished size recv_link req_in (links net) = true)
  | _ => True
  end.
Proof.
  unfold recover_step.
  destruct (transfer_finished size recv_link req_in (links net)) eqn:Hfin;
    [cbn; auto|].
  cbn [do_select].
  match goal with |- context [existsb ?f ?l] => destruct (existsb f l) end;
    [cbn; split; [reflexivity|discriminate]|].
  pose proof (recover_branch_return role
                (fst (do_select env role size recv_link req_in net))
                size recv_link req_in (buf, tick net)) as H.
  cbn [do_select fst snd tick links] in H.
  destruct role;
    match goal with
    | |- match ?m with _ => _ end =>
        destruct m as [[st'|r]| |]; auto
    end.
  all: destruct H as [Hr Hl]; split; [exact Hl|]; rewrite Hr; discriminate.
Qed.

Lemma recover_loop_outcome (role : RecoverType) (size recv_link : Z)
    (req_in : list bool) (fuel : nat) :
  forall (buf : list byte) (net : Net) r st',
    recover_loop cfg env fuel role size recv_link req_in (buf, net) = Done (r, st') ->
    length (links (snd st')) = length (links net) /\
    (r = kSuccess -> transfer_complete size recv_link req_in (links (snd st'))).
Proof.
  induction fuel as [|fuel IH]; intros buf net r st' H; [discriminate|].
  cbn [recover_loop] in H.
  pose proof (recover_step_outcome role size recv_link req_in buf net) as Hstep.
  destruct (recover_step cfg env role size recv_link req_in (buf, net))
    as [[[b n]|r0]| |]; try discriminate.
  - apply IH in H as [Hl Hc]. cbn in Hstep. split; [lia|assumption].
  - injection H as ->. destruct Hstep as [Hl Hs]. cbn in Hl, Hs.
    split; [assumption|]. intros ->. destruct (Hs eq_refl) as [-> Hfin]. cbn [snd].
    apply transfer_finished_complete. assumption.
Qed.

Lemma any_request_none (req_in : list bool) (recv_link : Z) :
  forall (i : nat) (b : bool),
    any_request req_in i recv_link b = Done false ->
    b = false /\ forall j, req_at req_in j = false.
Proof.
  induction req_in as [|r rest IH]; intros i b H; cbn in H.
  - injection H as ->. split; [reflexivity|]. intros j. destruct j; reflexivity.
  - destruct r.
    + destruct (utils_Assert _ _); cbn in H; try discriminate.
      apply IH in H as [H _]. discriminate.
    + apply IH in H as [-> Hall]. split; [reflexivity|].
      intros [|j]; [reflexivity|apply Hall].
Qed.

(** X10. [TryRecoverData] returns [kSuccess] in two ways only. Before the
    loop, touching nothing: when there is no link, when [size] is 0, or when
    neither the node nor any link asks for data. From the loop, by the test of
    line 518: then no link was added or removed, the inbound link has read
    exactly [size] bytes and every link that asks has been sent exactly [size]
    bytes. *)
Theorem TryRecoverData_success (fuel : nat) (role : RecoverType)
    (buf buf' : list byte) (size recv_link : Z) (req_in : list bool)
    (net net' : Net) :
  TryRecoverData cfg env fuel role buf size recv_link req_in net
  = Done (kSuccess, buf', net') ->
  (buf' = buf /\ net' = net /\
   (links net = [] \/ size = 0 \/
    (role <> kRequestData /\ forall i, req_at req_in i = false))) \/
  (length (links net') = length (links net) /\
   length req_in = length (links net) /\
   transfer_complete size recv_link req_in (links net')).
Proof.
  unfold TryRecoverData. intros H.
  destruct (Nat.eqb_spec (length (links net)) 0) as [Hn|Hn]; cbn [orb] in H.
  { injection H as <- <-. left. split; [reflexivity|]. split; [reflexivity|].
    left. destruct (links net); [reflexivity|discriminate]. }
  destruct (Z.eqb_spec size 0) as [Hz|Hz].
  { injection H as <- <-. left. auto. }
  unfold utils_Assert in H.
  destruct (Nat.eqb_spec (length req_in) (length (links net))) as [Hlen|Hlen];
    cbn [rbind] in H; [|discriminate].
  destruct (any_request req_in 0 recv_link (is_kRequestData role))
    as [req_data| |] eqn:Hany; cbn [rbind] in H; try discriminate.
  destruct req_data; cbn [negb] in H.
  2:{ injection H as <- <-. left. split; [reflexivity|]. split; [reflexivity|].
      right. right. apply any_request_none in Hany as [Hrole Hall].
      split; [|assumption]. intros ->. discriminate. }
  destruct ((0 <=? recv_link) || is_kHaveData role); cbn [rbind] in H; [|discriminate].
  destruct (recover_loop _ _ _ _ _ _ _ _) as [[r [b n]]| |] eqn:Hloop;
    cbn [rbind] in H; try discriminate.
  injection H as -> <- <-.
  apply recover_loop_outcome in Hloop as [Hl Hc]. cbn in Hl, Hc.
  rewrite length_map in Hl. right. auto.
Qed.

End TransferOutcomes.

Lemma TryRecoverData_success_witness :
  transfer_complete 4 (-1) [true] [mkLink false 0 4 1024].
Proof.
  destruct (TryRecoverData_success sample_constants quiet_env 5 kHaveData
              operands operands 4 (-1) [true] one_link_net
              (mkNet [mkLink false 0 4 1024] 8) eq_refl)
    as [(_ & Hnet & _)|(_ & _ & Hc)].
  - discriminate Hnet.
  - exact Hc.
Defined.

(** ** Where a requester stores what it receives *)

Lemma kept_beyond_refl (size : Z) (buf : list byte) : kept_beyond size buf buf.
Proof. split; reflexivity. Qed.

Lemma kept_beyond_trans (size : Z) (b1 b2 b3 : list byte) :
  kept_beyond size b1 b2 -> kept_beyond size b2 b3 -> kept_beyond size b1 b3.
Proof. intros [H1 H2] [H3 H4]. split; congruence. Qed.

Section RequesterBuffer.

Variable cfg : Constants.
Variable env : Env.

Lemma write_at_kept_beyond (buf : list byte) (off size : Z) (data : list byte) :
  0 <= off -> off + Z.of_nat (length data) <= size ->
  (Z.to_nat size <= length buf)%nat ->
  kept_beyond size buf (write_at buf off data).
Proof.
  intros H0 Hend Hlen. unfold kept_beyond, write_at. split.
  - rewrite !length_app, length_take, length_drop. lia.
  - rewrite app_assoc, drop_app_ge
      by (rewrite length_app, length_take; lia).
    rewrite drop_drop. f_equal. rewrite length_app, length_take. lia.
Qed.

Lemma ReadToArray_kept_beyond (buf buf' : list byte) (size : Z)
    (l l' : LinkRecord) (o : RecvOutcome) (ok : bool) :
  ReadToArray cfg buf size l o = (ok, buf', l') ->
  0 <= size_read l <= size -> size < SIZE_MODULUS ->
  (Z.to_nat size <= length buf)%nat ->
  kept_beyond size buf buf'.
Proof.
  unfold ReadToArray. intros H Hr Hs Hlen.
  destruct (size =? size_read l); [injection H as _ <- _; apply kept_beyond_refl|].
  destruct (sock_Recv o (size_sub size (size_read l))) as [len data] eqn:Hrecv.
  destruct (len =? 0); [injection H as _ <- _; apply kept_beyond_refl|].
  destruct (len =? -1); [injection H as _ <- _; apply kept_beyond_refl|].
  injection H as _ <- _.
  apply write_at_kept_beyond; [lia| |assumption].
  assert (Hsub : size_sub size (size_read l) = size - size_read l).
  { unfold size_sub. apply Z.mod_small. lia. }
  rewrite Hsub in Hrecv. unfold sock_Recv in Hrecv.
  destruct o as [bytes| |]; injection Hrecv as <- <-; cbn [length]; try lia.
  rewrite length_take. lia.
Qed.

Lemma recover_request_kept_beyond (sel : Selected) (size recv_link : Z)
    (req_in : list bool) (buf : list byte) (net : Net) :
  0 <= size_read (link_at (links net) recv_link) <= size ->
  size < SIZE_MODULUS ->
  (Z.to_nat size <= length buf)%nat ->
  match recover_request cfg env sel size recv_link req_in (buf, net) with
  | Done (Next st') => kept_beyond size buf (fst st')
  | Done (Return r) => kept_beyond size buf (fst (snd r))
  | _ => True
  end.
Proof.
  intros Hr Hs Hlen. unfold recover_request.
  match goal with
  | |- context [rbind ?m _] =>
      assert (Hread : match m with
                      | Done (Next st') => kept_beyond size buf (fst st')
                      | Done (Return r) => kept_beyond size buf (fst (snd r))
                      | _ => True
                      end)
  end.
  { destruct (CheckRead sel _); [|apply kept_beyond_refl].
    destruct (ReadToArray _ _ _ _ _) as [[ok b'] l'] eqn:Hread.
    apply ReadToArray_kept_beyond in Hread; try assumption.
    destruct ok; exact Hread. }
  match goal with
  | |- context [rbind ?m _] => destruct m as [[[b n]|r]| |]
  end; cbn [rbind]; auto.
  cbn [fst snd] in Hread |- *.
  apply (for_range_invariant (fun st : Xfer => kept_beyond size buf (fst st))
           (fun r : ReturnType * Xfer => kept_beyond size buf (fst (snd r))));
    [|exact Hread].
  intros i [b0 n0] Hb. cbn [fst] in Hb.
  destruct (req_at req_in i && _ && _); [|exact Hb].
  destruct (WriteFromArray _ _ _ _) as [[] l']; exact Hb.
Qed.

Lemma counters_ok_link_at (role : RecoverType) (size recv_link : Z)
    (req_in : list bool) (ls : list LinkRecord) :
  counters_ok role size recv_link req_in ls ->
  0 <= size_read (link_at ls recv_link) <= size.
Proof.
  intros (Hs & Hpos & Hread & _). unfold link_at.
  destruct (recv_link <? 0); [cbn; lia|].
  destruct (ls !! Z.to_nat recv_link) as [l|] eqn:Hl; cbn; [|lia].
  destruct (Hpos _ _ Hl). specialize (Hread _ _ Hl). lia.
Qed.

Lemma recover_loop_kept_beyond (size recv_link : Z) (req_in : list bool)
    (fuel : nat) :
  0 <= recv_link -> req_at req_in (Z.to_nat recv_link) = false ->
  forall (buf : list byte) (net : Net) r st',
    counters_ok kRequestData size recv_link req_in (links net) ->
    (Z.to_nat size <= length buf)%nat ->
    recover_loop cfg env fuel kRequestData size recv_link req_in (buf, net)
    = Done (r, st') ->
    kept_beyond size buf (fst st').
Proof.
  intros H0 Hreq. induction fuel as [|fuel IH]; intros buf net r st' Hok Hlen H;
    [discriminate|].
  cbn [recover_loop] in H.
  pose proof (recover_step_counters cfg env kRequestData size recv_link req_in
                buf net) as Hc.
  assert (Hb : match recover_step cfg env kRequestData size recv_link req_in
                       (buf, net) with
               | Done (Next st1) => kept_beyond size buf (fst st1)
               | Done (Return r1) => kept_beyond size buf (fst (snd r1))
               | _ => True
               end).
  { unfold recover_step.
    destruct (transfer_finished _ _ _ _); [apply kept_beyond_refl|].
    cbn [do_select].
    match goal with |- context [existsb ?f ?l] => destruct (existsb f l) end;
      [apply kept_beyond_refl|].
    apply recover_request_kept_beyond; [|apply Hok|assumption].
    cbn [tick links]. eapply counters_ok_link_at; eassumption. }
  destruct (recover_step cfg env kRequestData size recv_link req_in (buf, net))
    as [[[b n]|r1]| |]; try discriminate.
  - cbn [fst snd] in Hb, Hc.
    eapply kept_beyond_trans; [exact Hb|].
    apply (IH b n r st'); [| |exact H].
    + apply Hc; [discriminate|auto|assumption].
    + destruct Hb as [Hb _]. lia.
  - injection H as ->. exact Hb.
Qed.

(** X11. A requester stores what it receives in the first [size] bytes of the
    buffer it is given and nowhere else: when the buffer holds [size] bytes or
    more, whatever [TryRecoverData] returns, the buffer has kept its length
    and every byte from position [size] on. *)
Theorem TryRecoverData_requester_bounds (fuel : nat) (buf buf' : list byte)
    (size recv_link : Z) (req_in : list bool) (net net' : Net) (r : ReturnType) :
  0 <= size < SIZE_MODULUS ->
  (Z.to_nat size <= length buf)%nat ->
  TryRecoverData cfg env fuel kRequestData buf size recv_link req_in net
  = Done (r, buf', net') ->
  kept_beyond size buf buf'.
Proof.
  intros Hs Hlen. unfold TryRecoverData.
  destruct (_ || _); [intros [= _ <- _]; apply kept_beyond_refl|].
  destruct (utils_Assert _ _); cbn [rbind]; try discriminate.
  destruct (any_request _ _ _ _) as [[]| |] eqn:Hany; cbn [rbind negb];
    try discriminate; [|intros [= _ <- _]; apply kept_beyond_refl].
  destruct (Z.leb_spec 0 recv_link) as [H0|H0]; cbn [orb is_kHaveData utils_Assert rbind];
    try discriminate.
  destruct (recover_loop _ _ _ _ _ _ _ _) as [[r' [b n]]| |] eqn:Hl;
    cbn [rbind]; try discriminate.
  intros [= _ <- _].
  apply recover_loop_kept_beyond in Hl; [exact Hl|assumption| | |assumption].
  - destruct (req_at req_in (Z.to_nat recv_link)) eqn:Hr; [|reflexivity].
    exfalso. apply (any_request_done _ _ _ _ _ Hany _ Hr). cbn. lia.
  - apply counters_ok_reset. exact Hs.
Qed.

End RequesterBuffer.

Lemma TryRecoverData_requester_bounds_witness :
  kept_beyond 4 [x01; x02; x03; x04; x05; x06]
    [x0a; x0b; x0c; x0d; x05; x06].
Proof.
  apply (TryRecoverData_requester_bounds sample_constants one_source_env 5
           [x01; x02; x03; x04; x05; x06] [x0a; x0b; x0c; x0d; x05; x06]
           4 0 [false] one_link_net (mkNet [mkLink false 4 0 1024] 2) kSuccess).
  - unfold SIZE_MODULUS. lia.
  - cbn. lia.
  - vm_compute. reflexivity.
Defined.

(** ** The size a caller passes to the recovery *)

Section SizeIgnored.

Variable cfg : Constants.
Variable env : Env.

Lemma TryDecideRouting_no_size (role : RecoverType) (size1 size2 recvlink : Z)
    (req : list bool) (net : Net) :
  role <> kHaveData ->
  TryDecideRouting env role (mkRouting size1 recvlink req) net
  = match TryDecideRouting env role (mkRouting size2 recvlink req) net with
    | Done (succ, out, net') =>
        if is_success (fst (env_dist_in env (clock net)))
        then Done (succ, out, net')
        else Done (succ, mkRouting size1 recvlink req, net')
    | other => other
    end.
Proof.
  intros Hrole. unfold TryDecideRouting, MsgPassing.
  destruct (env_dist_in env (clock net)) as [st dist_in].
  destruct role; [contradiction| |].
  all: destruct st; cbn [fst is_success negb is_kHaveData rt_size rt_recvlink rt_req_in];
    try reflexivity.
  all: pose proof (choose_link_no_size dist_in dist_in 0 size1 size2) as E;
    unfold choose_link in E; rewrite E.
  all: destruct (routing_best dist_in dist_in 0 (-2) size2) as [[b s]| |]; cbn;
    try reflexivity.
  all: destruct (utils_Check (negb (b =? -2)) _); cbn; try reflexivity.
  all: destruct (env_req_in env (S (clock net))) as [st2 req_in].
  all: destruct st2; cbn; try reflexivity.
  all: destruct (routing_requests _ _ _ _); reflexivity.
Qed.

Lemma route_and_recover_no_size (fuel : nat) (role : RecoverType)
    (payload : list byte) (size1 size2 : Z) (net : Net) :
  role <> kHaveData ->
  route_and_recover cfg env fuel role payload size1 net
  = route_and_recover cfg env fuel role payload size2 net.
Proof.
  intros Hrole. unfold route_and_recover.
  rewrite (TryDecideRouting_no_size role size1 size2) by assumption.
  destruct (TryDecideRouting env role (mkRouting size2 0 []) net)
    as [[[succ out] net']| |] eqn:Hd; try reflexivity.
  destruct (is_success (fst (env_dist_in env (clock net)))) eqn:Hs; [reflexivity|].
  cbn [rbind].
  assert (Hf : is_success succ = false).
  { revert Hd. unfold TryDecideRouting, MsgPassing.
    destruct (env_dist_in env (clock net)) as [st dist_in]. cbn in Hs.
    destruct st; try discriminate; cbn; intros [= <- _ _]; reflexivity. }
  rewrite Hf. reflexivity.
Qed.

Lemma TryGetResult_no_size (fuel : nat) (resbuf : ResultBuffer)
    (buf : list byte) (size1 size2 seqno : Z) (requester : bool) (net : Net) :
  TryGetResult cfg env fuel resbuf buf size1 seqno requester net
  = TryGetResult cfg env fuel resbuf buf size2 seqno requester net.
Proof.
  unfold TryGetResult, result_role. destruct requester; cbn [negb].
  - rewrite (route_and_recover_no_size fuel kRequestData buf size1 size2)
      by discriminate. reflexivity.
  - destruct (Query resbuf seqno) as [[payload psize]|]; [reflexivity|].
    rewrite (route_and_recover_no_size fuel kPassData [] size1 size2)
      by discriminate. reflexivity.
Qed.

Lemma RecoverExec_step_no_size (fuel : nat) (resbuf : ResultBuffer)
    (size1 size2 : Z) (req : ActionSummary) (st : Exec) :
  RecoverExec_step cfg env fuel resbuf size1 req st
  = RecoverExec_step cfg env fuel resbuf size2 req st.
Proof.
  unfold RecoverExec_step, exec_get_result.
  destruct (env_reduce env (clock (ex_net st)) req) as [succ act].
  destruct (CheckAndRecover env succ (tick (ex_net st))) as [ok net'].
  cbn [ex_buf ex_net ex_checkpoint].
  rewrite !(TryGetResult_no_size fuel resbuf (ex_buf st) size1 size2).
  reflexivity.
Qed.

Lemma RecoverExec_loop_no_size (resbuf : ResultBuffer) (size1 size2 : Z)
    (req : ActionSummary) (fuel : nat) :
  forall st,
    RecoverExec_loop cfg env fuel resbuf size1 req st
    = RecoverExec_loop cfg env fuel resbuf size2 req st.
Proof.
  induction fuel as [|fuel IH]; intros st; [reflexivity|].
  cbn [RecoverExec_loop].
  rewrite (RecoverExec_step_no_size fuel resbuf size1 size2).
  destruct (RecoverExec_step cfg env fuel resbuf size2 req st) as [[st'|r]| |];
    auto.
Qed.

(** X12. The parameter [size] of [RecoverExec] and of [TryGetResult] decides
    nothing: a node that has the result sends the size stored with it, and for
    every other node, the requester included, the routing decision replaces
    the size by the one the first link with a source reports (line 434) before
    comparing it with anything (line 429), and what such a node sends in the
    first message pass does not hold it either. So a requester whose buffer
    has another size than the result is not found out: it is sent, and stores,
    as many bytes as the source has. *)
Theorem RecoverExec_ignores_size (fuel : nat) (resbuf : ResultBuffer)
    (size1 size2 flag seqno : Z) (buf : list byte) (requester : bool)
    (st : Exec) (net : Net) :
  RecoverExec cfg env fuel resbuf size1 flag seqno st
  = RecoverExec cfg env fuel resbuf size2 flag seqno st /\
  TryGetResult cfg env fuel resbuf buf size1 seqno requester net
  = TryGetResult cfg env fuel resbuf buf size2 seqno requester net /\
  (forall dist_in,
     snd (MsgPassing (kSuccess, dist_in) (is_kHaveData kRequestData, size1)
            ShortestDist)
     = snd (MsgPassing (kSuccess, dist_in) (is_kHaveData kRequestData, size2)
              ShortestDist)).
Proof.
  split; [|split; [apply TryGetResult_no_size|reflexivity]].
  unfold RecoverExec.
  rewrite (RecoverExec_loop_no_size resbuf size1 size2). reflexivity.
Qed.

End SizeIgnored.

(** ** What the action-summary protocol leaves alone *)

Section ExecFrames.

Variable cfg : Constants.
Variable env : Env.

Lemma RecoverExec_loop_invariant (P : Exec -> Prop) (Q : bool * Exec -> Prop)
    (resbuf : ResultBuffer) (size : Z) (req : ActionSummary) :
  (forall fuel st, P st ->
     match RecoverExec_step cfg env fuel resbuf size req st with
     | Done (Next st') => P st'
     | Done (Return r) => Q r
     | _ => True
     end) ->
  forall fuel st r,
    P st -> RecoverExec_loop cfg env fuel resbuf size req st = Done r -> Q r.
Proof.
  intros Hstep. induction fuel as [|fuel IH]; intros st r HP H; [discriminate|].
  cbn [RecoverExec_loop] in H. specialize (Hstep fuel st HP).
  destruct (RecoverExec_step cfg env fuel resbuf size req st) as [[st'|r']| |];
    try discriminate.
  - exact (IH st' r Hstep H).
  - injection H as <-. assumption.
Qed.

(** A node that does not load the checkpoint has the blob, and sends it
    without writing to it. *)
Lemma TryLoadCheckPoint_keeps_blob (fuel : nat) (gc gc' : list byte)
    (net net' : Net) (r : ReturnType) :
  TryLoadCheckPoint cfg env fuel false gc net = Done (r, gc', net') -> gc' = gc.
Proof.
  unfold TryLoadCheckPoint. cbn [is_kRequestData].
  destruct (TryDecideRouting _ _ _ _) as [[[succ out] n]| |]; cbn [rbind];
    try discriminate.
  destruct (negb (is_success succ)); [intros [= _ <- _]; reflexivity|].
  destruct (rt_size out =? 0); [intros [= _ <- _]; reflexivity|].
  unfold TryRecoverData.
  destruct (_ || _); [intros [= _ <- _]; reflexivity|].
  destruct (utils_Assert _ _); cbn [rbind]; try discriminate.
  destruct (any_request _ _ _ _) as [[]| |]; cbn [rbind negb];
    try discriminate; [|intros [= _ <- _]; reflexivity].
  destruct (utils_Assert _ _); cbn [rbind]; try discriminate.
  destruct (recover_loop _ _ _ _ _ _ _ _) as [[r' [b n']]| |] eqn:Hl;
    cbn [rbind]; try discriminate.
  intros [= _ <- _].
  apply recover_loop_keeps_buffer in Hl; [exact Hl|discriminate].
Qed.

Lemma exec_load_check_frame (fuel : nat) (req : ActionSummary) (st st' : Exec)
    (ok : bool) :
  exec_load_check cfg env fuel req st = Done (ok, st') ->
  ex_buf st' = ex_buf st /\
  (load_check req = false -> ex_checkpoint st' = ex_checkpoint st).
Proof.
  unfold exec_load_check.
  destruct (TryLoadCheckPoint _ _ _ _ _ _) as [[[r gc] n]| |] eqn:Hload;
    cbn [rbind]; try discriminate.
  destruct (CheckAndRecover env r n) as [ok' n']. intros [= _ <-]. cbn.
  split; [reflexivity|]. intros Hreq. rewrite Hreq in Hload.
  eapply TryLoadCheckPoint_keeps_blob. eassumption.
Qed.

Lemma exec_get_result_frame (fuel : nat) (resbuf : ResultBuffer) (size : Z)
    (req act : ActionSummary) (st st' : Exec) (ok : bool) :
  exec_get_result cfg env fuel resbuf size req act st = Done (ok, st') ->
  ex_checkpoint st' = ex_checkpoint st /\
  ((min_seqno req =? min_seqno act) = false -> ex_buf st' = ex_buf st).
Proof.
  unfold exec_get_result, TryGetResult.
  destruct (result_role _ _ _ _ _) as [[role payload] size'].
  destruct (route_and_recover _ _ _ _ _ _ _) as [[[r p] n]| |]; cbn [rbind];
    try discriminate.
  destruct (CheckAndRecover env r n) as [ok' n']. intros [= _ <-]. cbn.
  split; [reflexivity|]. intros ->. reflexivity.
Qed.

Lemma CheckAndRecover_true (r : ReturnType) (n n' : Net) :
  CheckAndRecover env r n = (true, n') -> r = kSuccess /\ n' = n.
Proof.
  unfold CheckAndRecover. destruct r; cbn; intros [= <-]; auto.
Qed.

(** What one pass of the loop leaves alone, and what it has seen when it
    returns false. *)
Lemma RecoverExec_step_frame (fuel : nat) (resbuf : ResultBuffer) (size : Z)
    (req : ActionSummary) (st : Exec) :
  let frame st' :=
    (min_seqno req = kMaxSeq cfg -> ex_buf st' = ex_buf st) /\
    (load_check req = false -> ex_checkpoint st' = ex_checkpoint st) in
  match RecoverExec_step cfg env fuel resbuf size req st with
  | Done (Next st') => frame st'
  | Done (Return r) =>
      frame (snd r) /\
      (fst r = false ->
       exists act,
         env_reduce env (clock (ex_net st)) req = (kSuccess, act) /\
         check_ack act = false /\ check_point act = false /\
         diff_seq act = false /\
         snd r = mkExec (ex_buf st) (ex_checkpoint st) (tick (ex_net st)))
  | _ => True
  end.
Proof.
  intros frame. unfold RecoverExec_step.
  destruct (env_reduce env (clock (ex_net st)) req) as [succ act] eqn:Hred.
  destruct (CheckAndRecover env succ (tick (ex_net st))) as [ok net'] eqn:Hrec.
  assert (Hsame : frame (mkExec (ex_buf st) (ex_checkpoint st) net'))
    by (split; reflexivity).
  destruct ok; cbn [negb]; [|exact Hsame].
  apply CheckAndRecover_true in Hrec as [-> ->].
  set (st0 := mkExec (ex_buf st) (ex_checkpoint st) (tick (ex_net st))) in *.
  assert (Hload : match exec_load_check cfg env fuel req st0 with
                  | Done (ok, st') => frame st'
                  | _ => True
                  end).
  { destruct (exec_load_check cfg env fuel req st0) as [[ok st']| |] eqn:Hl; auto.
    apply exec_load_check_frame in Hl as [Hb Hc]. split; intros; auto. }
  assert (Hget : min_seqno act <> kMaxSeq cfg ->
                 match exec_get_result cfg env fuel resbuf size req act st0 with
                 | Done (ok, st') =>
                     (min_seqno req = kMaxSeq cfg -> ex_buf st' = ex_buf st) /\
                     (load_check req = false -> ex_checkpoint st' = ex_checkpoint st)
                 | _ => True
                 end).
  { intros Hact.
    destruct (exec_get_result cfg env fuel resbuf size req act st0)
      as [[ok st']| |] eqn:Hg; auto.
    apply exec_get_result_frame in Hg as [Hc Hb]. split; intros Hreq; auto.
    apply Hb. apply Z.eqb_neq. congruence. }
  destruct (check_ack act) eqn:Hack.
  - destruct (check_point act) eqn:Hcp.
    + destruct (utils_Assert _ _); cbn [rbind]; auto.
      destruct (check_point req); cbn; auto.
      split; [exact Hsame|discriminate].
    + destruct (load_check act).
      * destruct (exec_load_check cfg env fuel req st0) as [[ok st']| |];
          cbn [rbind]; auto.
        destruct ok; cbn [negb]; [|exact Hload].
        destruct (load_check req); cbn; auto. split; [exact Hload|discriminate].
      * destruct (check_ack req); cbn; auto. split; [exact Hsame|discriminate].
  - destruct (check_point act) eqn:Hcp.
    + destruct (diff_seq act) eqn:Hdiff.
      * unfold utils_Assert.
        destruct (Z.eqb_spec (min_seqno act) (kMaxSeq cfg)) as [Hm|Hm];
          cbn [negb rbind]; auto.
        specialize (Hget Hm).
        destruct (exec_get_result cfg env fuel resbuf size req act st0)
          as [[ok st']| |]; cbn [rbind]; auto.
        destruct ok; cbn [negb]; [|exact Hget].
        destruct (min_seqno req =? min_seqno act); cbn; auto.
        split; [exact Hget|discriminate].
      * destruct (check_point req); cbn; auto. split; [exact Hsame|discriminate].
    + destruct (load_check act).
      * destruct (diff_seq act) eqn:Hdiff; cbn [negb].
        -- destruct (exec_load_check cfg env fuel req st0) as [[ok st']| |];
             cbn [rbind]; auto.
           destruct ok; cbn [negb]; [|exact Hload].
           destruct (load_check req); cbn; auto. split; [exact Hload|discriminate].
        -- cbn. split; [exact Hsame|]. intros _. exists act. auto.
      * unfold utils_Assert.
        destruct (Z.eqb_spec (min_seqno act) (kMaxSeq cfg)) as [Hm|Hm];
          cbn [negb rbind]; auto.
        specialize (Hget Hm).
        destruct (diff_seq act) eqn:Hdiff.
        -- destruct (exec_get_result cfg env fuel resbuf size req act st0)
             as [[ok st']| |]; cbn [rbind]; auto.
           destruct ok; cbn [negb]; [|exact Hget].
           destruct (min_seqno req =? min_seqno act); cbn; auto.
           split; [exact Hget|discriminate].
        -- cbn. split; [exact Hsame|]. intros _. exists act. auto.
Qed.

End ExecFrames.

Section ExecOutcomes.

Variable cfg : Constants.
Variable env : Env.

Lemma make_action_fields (flag seqno : Z) :
  min_seqno (make_action cfg flag seqno) = seqno /\
  load_check (make_action cfg flag seqno) = negb (Z.land flag (kLoadCheck cfg) =? 0) /\
  check_point (make_action cfg flag seqno) = negb (Z.land flag (kCheckPoint cfg) =? 0) /\
  check_ack (make_action cfg flag seqno) = negb (Z.land flag (kCheckAck cfg) =? 0).
Proof. repeat split. Qed.

Lemma RecoverExec_loop_frame (resbuf : ResultBuffer) (size : Z)
    (req : ActionSummary) (fuel : nat) (st st' : Exec) (b : bool) :
  RecoverExec_loop cfg env fuel resbuf size req st = Done (b, st') ->
  (min_seqno req = kMaxSeq cfg -> ex_buf st' = ex_buf st) /\
  (load_check req = false -> ex_checkpoint st' = ex_checkpoint st).
Proof.
  intros H.
  apply (RecoverExec_loop_invariant cfg env
           (fun s => (min_seqno req = kMaxSeq cfg -> ex_buf s = ex_buf st) /\
                     (load_check req = false -> ex_checkpoint s = ex_checkpoint st))
           (fun r => (min_seqno req = kMaxSeq cfg -> ex_buf (snd r) = ex_buf st) /\
                     (load_check req = false ->
                      ex_checkpoint (snd r) = ex_checkpoint st))
           resbuf size req) with (fuel := fuel) (st := st) (r := (b, st'));
    [|split; reflexivity|exact H].
  intros fuel0 s [Hb Hc].
  pose proof (RecoverExec_step_frame cfg env fuel0 resbuf size req s) as Hs.
  cbn zeta in Hs.
  destruct (RecoverExec_step cfg env fuel0 resbuf size req s) as [[s'|r]| |]; auto.
  - destruct Hs as [Hb' Hc']. split; intros Hreq.
    + rewrite (Hb' Hreq). auto.
    + rewrite (Hc' Hreq). auto.
  - destruct Hs as [[Hb' Hc'] _]. split; intros Hreq.
    + rewrite (Hb' Hreq). auto.
    + rewrite (Hc' Hreq). auto.
Qed.

Lemma RecoverExec_loop_false (resbuf : ResultBuffer) (size : Z)
    (req : ActionSummary) (fuel : nat) (st st' : Exec) :
  RecoverExec_loop cfg env fuel resbuf size req st = Done (false, st') ->
  exists t act,
    env_reduce env t req = (kSuccess, act) /\
    check_ack act = false /\ check_point act = false /\ diff_seq act = false /\
    clock (ex_net st') = S t.
Proof.
  intros H.
  apply (RecoverExec_loop_invariant cfg env (fun _ => True)
           (fun r => fst r = false ->
                     exists t act,
                       env_reduce env t req = (kSuccess, act) /\
                       check_ack act = false /\ check_point act = false /\
                       diff_seq act = false /\
                       clock (ex_net (snd r)) = S t)
           resbuf size req) with (fuel := fuel) (st := st) (r := (false, st'));
    [|exact I|exact H|reflexivity].
  intros fuel0 s _.
  pose proof (RecoverExec_step_frame cfg env fuel0 resbuf size req s) as Hs.
  cbn zeta in Hs.
  destruct (RecoverExec_step cfg env fuel0 resbuf size req s) as [[s'|r]| |]; auto.
  destruct Hs as [_ Hf]. intros Hr.
  destruct (Hf Hr) as (act & Hred & Hack & Hcp & Hdiff & ->).
  exists (clock (ex_net s)), act. auto 10.
Qed.

(** X13. Every special action passes the sequence number [kMaxSeq], and no
    buffer ([NULL]). A call of [RecoverExec] with that sequence number never
    writes to the buffer it is given: the assertions of lines 674 and 693 keep
    it from being the requester of a result. A call without the flag
    [kLoadCheck] never changes the checkpoint blob: it takes part in the
    loading of the checkpoint as a node that has it. *)
Theorem RecoverExec_frame (fuel : nat) (resbuf : ResultBuffer)
    (size flag seqno : Z) (st st' : Exec) (b : bool) :
  RecoverExec cfg env fuel resbuf size flag seqno st = Done (b, st') ->
  (seqno = kMaxSeq cfg -> ex_buf st' = ex_buf st) /\
  (Z.land flag (kLoadCheck cfg) = 0 -> ex_checkpoint st' = ex_checkpoint st).
Proof.
  unfold RecoverExec. intros H.
  destruct (if negb (flag =? 0) then _ else _); cbn [rbind] in H; try discriminate.
  apply RecoverExec_loop_frame in H as [Hb Hc]. split.
  - exact Hb.
  - intros Hl. apply Hc. cbn. rewrite Hl. reflexivity.
Qed.

(** X14. [RecoverExec] returns false only from the two places of lines 686 and
    700: the reduction it has just done succeeded and its result carries
    neither [check_ack] nor [check_point] nor the mark of differing sequence
    numbers, and nothing was done after that reduction. *)
Theorem RecoverExec_false (fuel : nat) (resbuf : ResultBuffer)
    (size flag seqno : Z) (st st' : Exec) :
  RecoverExec cfg env fuel resbuf size flag seqno st = Done (false, st') ->
  exists t act,
    env_reduce env t (make_action cfg flag seqno) = (kSuccess, act) /\
    check_ack act = false /\ check_point act = false /\ diff_seq act = false /\
    clock (ex_net st') = S t.
Proof.
  unfold RecoverExec. intros H.
  destruct (if negb (flag =? 0) then _ else _); cbn [rbind] in H; try discriminate.
  apply RecoverExec_loop_false in H. exact H.
Qed.

(** When the reduction keeps the flags of a request, a call of [RecoverExec]
    that asks for a checkpoint or for an acknowledgement returns true
    whenever it returns. *)
Lemma RecoverExec_special_true (fuel : nat) (resbuf : ResultBuffer)
    (size flag seqno : Z) (st st' : Exec) (b : bool) :
  flags_kept env (make_action cfg flag seqno) ->
  check_point (make_action cfg flag seqno) = true \/
  check_ack (make_action cfg flag seqno) = true ->
  RecoverExec cfg env fuel resbuf size flag seqno st = Done (b, st') ->
  b = true.
Proof.
  intros Hkept Hflag H. destruct b; [reflexivity|].
  unfold RecoverExec in H.
  destruct (if negb (flag =? 0) then _ else _); cbn [rbind] in H; try discriminate.
  apply RecoverExec_loop_false in H as (t & act & Hred & Hack & Hcp & _).
  destruct (Hkept t act Hred) as [Hp Ha].
  destruct Hflag as [Hf|Hf]; [rewrite (Hp Hf) in Hcp|rewrite (Ha Hf) in Hack];
    discriminate.
Qed.

End ExecOutcomes.

(** A worker that asks for a checkpoint hands the result 0 it holds to a
    neighbour that is behind, and then is granted the checkpoint: its buffer
    and its blob are as they were. *)
Lemma RecoverExec_frame_witness :
  RecoverExec sample_constants helper_env 6 (resbuf busy_engine) 0 2 67108864
    (mkExec [] [x03; x00; x00; x00; x41] one_link_net)
  = Done (true, mkExec [] [x03; x00; x00; x00; x41]
                  (mkNet [mkLink false 0 4 1024] 6)) /\
  ex_buf (mkExec [] [x03; x00; x00; x00; x41] (mkNet [mkLink false 0 4 1024] 6))
  = [] /\
  ex_checkpoint (mkExec [] [x03; x00; x00; x00; x41]
                   (mkNet [mkLink false 0 4 1024] 6))
  = [x03; x00; x00; x00; x41].
Proof.
  assert (H : RecoverExec sample_constants helper_env 6 (resbuf busy_engine) 0 2
                67108864 (mkExec [] [x03; x00; x00; x00; x41] one_link_net)
              = Done (true, mkExec [] [x03; x00; x00; x00; x41]
                              (mkNet [mkLink false 0 4 1024] 6)))
    by (vm_compute; reflexivity).
  split; [exact H|].
  destruct (RecoverExec_frame sample_constants helper_env 6 (resbuf busy_engine)
              0 2 67108864 _ _ true H) as [Hb Hc].
  split; [apply Hb; reflexivity|apply Hc; reflexivity].
Defined.

Lemma RecoverExec_false_witness :
  exists t act,
    env_reduce quiet_env t (make_action sample_constants 0 0) = (kSuccess, act) /\
    check_ack act = false /\ check_point act = false /\ diff_seq act = false /\
    clock (ex_net (mkExec four_zeros [] (mkNet [fresh_link] 1))) = S t.
Proof.
  apply (RecoverExec_false sample_constants quiet_env 5 empty_resbuf 4 0 0
           start_exec).
  vm_compute. reflexivity.
Defined.

(** ** The checkpoint blob *)

Lemma byte_of_to (n : Z) :
  0 <= n < 256 ->
  Z.of_N (Byte.to_N (default x00 (Byte.of_N (Z.to_N n)))) = n.
Proof.
  intros Hn. destruct (Byte.of_N (Z.to_N n)) as [b|] eqn:Hb.
  - apply Byte.to_of_N in Hb. cbn. rewrite Hb. lia.
  - apply Byte.of_N_None_iff in Hb. lia.
Qed.

(** The version number written to the blob is the version number read from
    it, and the model's bytes follow. *)
Lemma stream_read_int_bytes (v current : Z) (rest : list byte) :
  in_int_range v ->
  stream_read_int (int_bytes v ++ rest) current = (v, rest).
Proof.
  intros Hv. unfold stream_read_int, int_bytes. cbn [map app take drop length].
  rewrite app_nil_r. unfold int_of_bytes. cbn [take fold_right].
  change (take 0 (take 0 rest)) with (@nil byte). cbn [fold_right].
  f_equal.
  change (256 ^ 0) with 1. change (256 ^ 1) with 256.
  change (256 ^ 2) with 65536. change (256 ^ 3) with 16777216.
  rewrite !byte_of_to by (apply Z.mod_pos_bound; lia).
  unfold static_cast_int. unfold in_int_range, INT_MIN, INT_MAX in Hv.
  pose proof (Z.div_mod v 1 ltac:(lia)) as E0.
  pose proof (Z.div_mod (v / 1) 256 ltac:(lia)) as E1.
  pose proof (Z.div_mod (v / 256) 256 ltac:(lia)) as E2.
  pose proof (Z.div_mod (v / 65536) 256 ltac:(lia)) as E3.
  pose proof (Z.div_mod (v / 16777216) 256 ltac:(lia)) as E4.
  rewrite Z.div_1_r in *.
  replace (v / 256 / 256) with (v / 65536) in E2
    by (rewrite Z.div_div by lia; reflexivity).
  replace (v / 65536 / 256) with (v / 16777216) in E3
    by (rewrite Z.div_div by lia; reflexivity).
  set (q4 := v / 16777216 / 256) in *.
  assert (Hq : -1 <= q4 <= 0).
  { unfold q4. rewrite Z.div_div by lia. cbn.
    split; [apply Z.div_le_lower_bound; lia|].
    apply Z.lt_succ_r. apply Z.div_lt_upper_bound; lia. }
  pose proof (Z.mod_pos_bound v 256 ltac:(lia)).
  pose proof (Z.mod_pos_bound (v / 256) 256 ltac:(lia)).
  pose proof (Z.mod_pos_bound (v / 65536) 256 ltac:(lia)).
  pose proof (Z.mod_pos_bound (v / 16777216) 256 ltac:(lia)).
  set (b0 := v mod 256) in *. set (b1 := (v / 256) mod 256) in *.
  set (b2 := (v / 65536) mod 256) in *. set (b3 := (v / 16777216) mod 256) in *.
  assert (Hsum : b0 + 256 * (b1 + 256 * (b2 + 256 * (b3 + 256 * 0)))
                 = v - 4294967296 * q4) by lia.
  rewrite Hsum.
  replace (v - 4294967296 * q4 + 2147483648)
    with (v + 2147483648 + (- q4) * 4294967296) by lia.
  rewrite Z.mod_add by lia. rewrite Z.mod_small by lia. lia.
Qed.

(** ** Saving and loading the checkpoint *)

Section CheckPoints.

Variable cfg : Constants.
Variable env : Env.
Variable Model : Type.
Variable model_Save : Model -> list byte.
Variable model_Load : list byte -> Model -> Model.

Hypothesis Hflags : separate_flags cfg.

Lemma point_request_flag : check_point (point_request cfg) = true.
Proof.
  destruct Hflags as (Hp & _). unfold point_request. cbn.
  rewrite Z.land_diag. apply negb_true_iff, Z.eqb_neq. exact Hp.
Qed.

Lemma ack_request_flag : check_ack (ack_request cfg) = true.
Proof.
  destruct Hflags as (_ & Ha & _). unfold ack_request. cbn.
  rewrite Z.land_diag. apply negb_true_iff, Z.eqb_neq. exact Ha.
Qed.

Lemma RecoverExec_ack_checkpoint (fuel : nat) (resbuf : ResultBuffer)
    (st st' : Exec) (b : bool) :
  RecoverExec cfg env fuel resbuf 0 (kCheckAck cfg) (kMaxSeq cfg) st = Done (b, st') ->
  ex_checkpoint st' = ex_checkpoint st.
Proof.
  unfold RecoverExec. intros H.
  destruct (if negb (kCheckAck cfg =? 0) then _ else _); cbn [rbind] in H;
    try discriminate.
  apply RecoverExec_loop_frame in H as [_ H]. apply H.
  destruct Hflags as (_ & _ & _ & Hal). cbn. rewrite Hal. reflexivity.
Qed.

Lemma RecoverExec_point_checkpoint (fuel : nat) (resbuf : ResultBuffer)
    (st st' : Exec) (b : bool) :
  RecoverExec cfg env fuel resbuf 0 (kCheckPoint cfg) (kMaxSeq cfg) st = Done (b, st') ->
  ex_checkpoint st' = ex_checkpoint st.
Proof.
  unfold RecoverExec. intros H.
  destruct (if negb (kCheckPoint cfg =? 0) then _ else _); cbn [rbind] in H;
    try discriminate.
  apply RecoverExec_loop_frame in H as [_ H]. apply H.
  destruct Hflags as (_ & _ & Hpl & _). cbn. rewrite Hpl. reflexivity.
Qed.

(** X15. [CheckPoint] refuses a local model. When it returns it has raised the
    version number by one, written the version number and the model to the
    blob, emptied the result buffer and reset the sequence counter, and the
    acknowledgement round has left the blob as written. When the reduction
    keeps the flags of a request, neither of its two assertions can fail:
    [CheckPoint] returns whenever its two rounds of [RecoverExec] do. *)
Theorem CheckPoint_spec (fuel : nat) (global_model : Model) (e : Engine) :
  (forall m,
     CheckPoint cfg env Model model_Save fuel global_model (Some m) e
     = Abort "CheckPoint local model is not supported yet") /\
  (forall e',
     CheckPoint cfg env Model model_Save fuel global_model None e = Done e' ->
     e' = checkpointed e (model_Save global_model) (net e')) /\
  (flags_kept env (point_request cfg) -> flags_kept env (ack_request cfg) ->
   forall b1 ex1 b2 ex2,
     RecoverExec cfg env fuel (resbuf e) 0 (kCheckPoint cfg) (kMaxSeq cfg)
       (exec_of [] e) = Done (b1, ex1) ->
     RecoverExec cfg env fuel (Clear (resbuf e)) 0 (kCheckAck cfg) (kMaxSeq cfg)
       (exec_of [] (checkpointed e (model_Save global_model) (ex_net ex1)))
     = Done (b2, ex2) ->
     CheckPoint cfg env Model model_Save fuel global_model None e
     = Done (checkpointed e (model_Save global_model) (ex_net ex2))).
Proof.
  split; [reflexivity|]. split.
  - intros e'. unfold CheckPoint. cbn [utils_Assert rbind].
    destruct (RecoverExec _ _ _ _ _ _ _ _) as [[b1 ex1]| |]; cbn [rbind];
      try discriminate.
    destruct b1; cbn [utils_Assert rbind]; try discriminate.
    cbn [resbuf rank result_buffer_round seq_counter version_number].
    destruct (RecoverExec _ _ _ _ _ _ _ _) as [[b2 ex2]| |] eqn:Hack;
      cbn [rbind]; try discriminate.
    destruct b2; cbn [utils_Assert rbind]; try discriminate.
    intros [= <-]. apply RecoverExec_ack_checkpoint in Hack. cbn in Hack.
    unfold checkpointed. cbn. rewrite Hack. reflexivity.
  - intros Hkp Hka b1 ex1 b2 ex2 H1 H2.
    pose proof (RecoverExec_special_true cfg env _ _ _ _ _ _ _ _ Hkp
                  (or_introl point_request_flag) H1) as ->.
    pose proof (RecoverExec_special_true cfg env _ _ _ _ _ _ _ _ Hka
                  (or_intror ack_request_flag) H2) as ->.
    unfold CheckPoint. cbn [utils_Assert rbind]. rewrite H1. cbn [rbind utils_Assert].
    cbn [resbuf rank result_buffer_round seq_counter version_number].
    unfold checkpointed in H2. cbn [resbuf] in H2.
    unfold exec_of in H2 |- *. cbn [global_checkpoint net] in H2 |- *.
    rewrite H2. cbn [rbind utils_Assert].
    apply RecoverExec_ack_checkpoint in H2. cbn in H2.
    unfold checkpointed. rewrite H2. reflexivity.
Qed.

(** X16. [Shutdown], before the base engine closes the links: when it returns
    the result buffer is empty, the sequence counter is 0, and the version
    number and the blob are as they were. Its assertions cannot fail when the
    reduction keeps the flags of a request. *)
Theorem Shutdown_spec (fuel : nat) (e : Engine) :
  (forall e', Shutdown cfg env fuel e = Done e' -> e' = shut_down e (net e')) /\
  (flags_kept env (point_request cfg) -> flags_kept env (ack_request cfg) ->
   forall b1 ex1 b2 ex2,
     RecoverExec cfg env fuel (resbuf e) 0 (kCheckPoint cfg) (kMaxSeq cfg)
       (exec_of [] e) = Done (b1, ex1) ->
     RecoverExec cfg env fuel (Clear (resbuf e)) 0 (kCheckAck cfg) (kMaxSeq cfg)
       (mkExec [] (ex_checkpoint ex1) (ex_net ex1)) = Done (b2, ex2) ->
     Shutdown cfg env fuel e = Done (shut_down e (ex_net ex2))).
Proof.
  split.
  - intros e'. unfold Shutdown.
    destruct (RecoverExec _ _ _ _ _ _ _ _) as [[b1 ex1]| |] eqn:Hpt; cbn [rbind];
      try discriminate.
    destruct b1; cbn [utils_Assert rbind]; try discriminate.
    cbn [resbuf rank result_buffer_round seq_counter version_number].
    destruct (RecoverExec _ _ _ (Clear _) _ _ _ _) as [[b2 ex2]| |] eqn:Hack;
      cbn [rbind]; try discriminate.
    destruct b2; cbn [utils_Assert rbind]; try discriminate.
    intros [= <-]. apply RecoverExec_ack_checkpoint in Hack. cbn in Hack.
    apply RecoverExec_point_checkpoint in Hpt. cbn in Hpt.
    unfold shut_down. cbn. rewrite Hack, Hpt. reflexivity.
  - intros Hkp Hka b1 ex1 b2 ex2 H1 H2.
    pose proof (RecoverExec_special_true cfg env _ _ _ _ _ _ _ _ Hkp
                  (or_introl point_request_flag) H1) as ->.
    pose proof (RecoverExec_special_true cfg env _ _ _ _ _ _ _ _ Hka
                  (or_intror ack_request_flag) H2) as ->.
    unfold Shutdown. rewrite H1. cbn [rbind utils_Assert].
    cbn [resbuf rank result_buffer_round seq_counter version_number].
    unfold exec_of. cbn [global_checkpoint net].
    rewrite H2. cbn [rbind utils_Assert].
    apply RecoverExec_ack_checkpoint in H2. cbn in H2.
    apply RecoverExec_point_checkpoint in H1. cbn in H1.
    unfold shut_down. rewrite H2, H1. reflexivity.
Qed.

(** X17. A worker that loads the blob another worker's [CheckPoint] wrote gets
    that worker's version number and the model it saved: the version number
    [LoadCheckPoint] reads from the first four bytes is the one [CheckPoint]
    wrote there, and [Load] is given the bytes [Save] produced. *)
Theorem LoadCheckPoint_of_CheckPoint (env_saver : Env) (fuel_saver fuel : nat)
    (saved_model global_model : Model) (saver saver' e : Engine)
    (ex ex2 : Exec) (b2 : bool) :
  flags_kept env (ack_request cfg) ->
  CheckPoint cfg env_saver Model model_Save fuel_saver saved_model None saver
  = Done saver' ->
  version_number saver' <> 0 ->
  RecoverExec cfg env fuel (resbuf e) 0 (kLoadCheck cfg) (kMaxSeq cfg)
    (exec_of [] e) = Done (true, ex) ->
  ex_checkpoint ex = global_checkpoint saver' ->
  RecoverExec cfg env fuel (Clear (resbuf e)) 0 (kCheckAck cfg) (kMaxSeq cfg)
    (mkExec [] (ex_checkpoint ex) (ex_net ex)) = Done (b2, ex2) ->
  exists e',
    LoadCheckPoint cfg env Model model_Load fuel global_model None e
    = Done (version_number saver',
            model_Load (model_Save saved_model) global_model, e') /\
    version_number e' = version_number saver' /\
    global_checkpoint e' = global_checkpoint saver'.
Proof.
  intros Hka Hsave Hv Hload Hblob Hack.
  assert (Hsaved : saver' = checkpointed saver (model_Save saved_model) (net saver')).
  { unfold CheckPoint in Hsave. cbn [utils_Assert rbind] in Hsave.
    destruct (RecoverExec _ _ _ _ _ _ _ _) as [[c1 x1]| |]; cbn [rbind] in Hsave;
      try discriminate.
    destruct c1; cbn [utils_Assert rbind] in Hsave; try discriminate.
    cbn [resbuf rank result_buffer_round seq_counter version_number] in Hsave.
    destruct (RecoverExec _ _ _ _ _ _ _ _) as [[c2 x2]| |] eqn:Hack';
      cbn [rbind] in Hsave; try discriminate.
    destruct c2; cbn [utils_Assert rbind] in Hsave; try discriminate.
    injection Hsave as <-.
    unfold RecoverExec in Hack'.
    destruct (if negb (kCheckAck cfg =? 0) then _ else _); cbn [rbind] in Hack';
      try discriminate.
    apply RecoverExec_loop_frame in Hack' as [_ Hc].
    unfold checkpointed. cbn. rewrite Hc; [reflexivity|].
    destruct Hflags as (_ & _ & _ & Hal). cbn. rewrite Hal. reflexivity. }
  pose proof (RecoverExec_special_true cfg env _ _ _ _ _ _ _ _ Hka
                (or_intror ack_request_flag) Hack) as ->.
  assert (Hread : stream_read_int (ex_checkpoint ex) (version_number e)
                  = (version_number saver', model_Save saved_model)).
  { rewrite Hblob, Hsaved. cbn [checkpointed global_checkpoint version_number].
    apply stream_read_int_bytes. unfold int_add, static_cast_int, in_int_range,
      INT_MIN, INT_MAX.
    pose proof (Z.mod_pos_bound (version_number saver + 1 + 2147483648) 4294967296
                  ltac:(lia)). lia. }
  eexists. unfold LoadCheckPoint. cbn [utils_Check rbind]. rewrite Hload.
  cbn [rbind]. rewrite Hread.
  cbn [resbuf rank result_buffer_round seq_counter version_number].
  destruct (Z.eqb_spec (version_number saver') 0) as [|_]; [contradiction|].
  unfold exec_of. cbn [global_checkpoint net]. rewrite Hack.
  cbn [rbind utils_Assert]. split; [reflexivity|]. cbn. split; [reflexivity|].
  apply RecoverExec_ack_checkpoint in Hack. cbn in Hack. congruence.
Qed.

End CheckPoints.

Lemma separate_flags_sample : separate_flags sample_constants.
Proof. repeat split; discriminate. Qed.

Lemma flags_kept_quiet_env (req : ActionSummary) : flags_kept quiet_env req.
Proof. intros t act [= <-]. auto. Qed.

Lemma flags_kept_restart_env_ack :
  flags_kept restart_env (make_action sample_constants 4 67108864).
Proof. intros t act [= <-]. auto. Qed.

Lemma CheckPoint_spec_witness :
  CheckPoint sample_constants quiet_env (list byte) bytes_Save 5 [x41] None
    second_version_engine
  = Done (mkEngine 0 2 0 3 empty_resbuf [x03; x00; x00; x00; x41]
            (mkNet [fresh_link] 2)).
Proof.
  exact (proj2 (proj2 (CheckPoint_spec sample_constants quiet_env (list byte)
                         bytes_Save separate_flags_sample 5 [x41]
                         second_version_engine))
           (flags_kept_quiet_env _) (flags_kept_quiet_env _)
           true (mkExec [] [] (mkNet [fresh_link] 1))
           true (mkExec [] [x03; x00; x00; x00; x41] (mkNet [fresh_link] 2))
           eq_refl eq_refl).
Defined.

Lemma Shutdown_spec_witness :
  Shutdown sample_constants quiet_env 5 busy_engine
  = Done (mkEngine 0 2 0 0 empty_resbuf [] (mkNet [fresh_link] 2)).
Proof.
  exact (proj2 (Shutdown_spec sample_constants quiet_env separate_flags_sample 5
                  busy_engine)
           (flags_kept_quiet_env _) (flags_kept_quiet_env _)
           true (mkExec [] [] (mkNet [fresh_link] 1))
           true (mkExec [] [] (mkNet [fresh_link] 2))
           eq_refl eq_refl).
Defined.

Lemma LoadCheckPoint_of_CheckPoint_witness :
  exists e',
    LoadCheckPoint sample_constants restart_env (list byte) bytes_Load 5 [] None
      busy_engine
    = Done (3, [x41], e') /\
    version_number e' = 3 /\
    global_checkpoint e' = [x03; x00; x00; x00; x41].
Proof.
  exact (LoadCheckPoint_of_CheckPoint sample_constants restart_env (list byte)
           bytes_Save bytes_Load separate_flags_sample quiet_env 5 5 [x41] []
           second_version_engine
           (mkEngine 0 2 0 3 empty_resbuf [x03; x00; x00; x00; x41]
              (mkNet [fresh_link] 2))
           busy_engine
           (mkExec [] [x03; x00; x00; x00; x41] (mkNet [mkLink false 5 0 1024] 5))
           (mkExec [] [x03; x00; x00; x00; x41] (mkNet [mkLink false 5 0 1024] 6))
           true flags_kept_restart_env_ack eq_refl ltac:(discriminate)
           eq_refl eq_refl eq_refl).
Defined.

(** ** The length of the caller's buffer *)

Section BufferLength.

Variable cfg : Constants.
Variable env : Env.

Lemma write_at_length (buf : list byte) (off : Z) (data : list byte) :
  (length buf <= length (write_at buf off data))%nat.
Proof.
  unfold write_at. rewrite !length_app, length_take, length_drop. lia.
Qed.

Lemma ReadToArray_length (buf buf' : list byte) (size : Z)
    (l l' : LinkRecord) (o : RecvOutcome) (ok : bool) :
  ReadToArray cfg buf size l o = (ok, buf', l') ->
  (length buf <= length buf')%nat.
Proof.
  unfold ReadToArray.
  destruct (size =? size_read l); [intros [= _ <- _]; lia|].
  destruct (sock_Recv o _) as [len data].
  destruct (len =? 0); [intros [= _ <- _]; lia|].
  destruct (len =? -1); intros [= _ <- _]; [lia|apply write_at_length].
Qed.

Lemma recover_step_length (role : RecoverType) (size recv_link : Z)
    (req_in : list bool) (buf : list byte) (net : Net) :
  match recover_step cfg env role size recv_link req_in (buf, net) with
  | Done (Next st') => (length buf <= length (fst st'))%nat
  | Done (Return r) => (length buf <= length (fst (snd r)))%nat
  | _ => True
  end.
Proof.
  assert (Hdec : role = kRequestData \/ role <> kRequestData)
    by (destruct role; auto; right; discriminate).
  destruct Hdec as [->|Hrole].
  2:{ pose proof (recover_step_keeps_buffer cfg env role size recv_link req_in
                    buf net Hrole) as H.
      destruct (recover_step cfg env role size recv_link req_in (buf, net))
        as [[st'|r]| |]; auto; rewrite H; lia. }
  unfold recover_step.
  destruct (transfer_finished _ _ _ _); [cbn; lia|].
  cbn [do_select].
  match goal with |- context [existsb ?f ?l] => destruct (existsb f l) end;
    [cbn; lia|].
  unfold recover_request.
  match goal with
  | |- context [rbind ?m _] =>
      assert (Hread : match m with
                      | Done (Next st') => (length buf <= length (fst st'))%nat
                      | Done (Return r) => (length buf <= length (fst (snd r)))%nat
                      | _ => True
                      end)
  end.
  { destruct (CheckRead _ _); [|cbn; lia].
    destruct (ReadToArray _ _ _ _ _) as [[ok b'] l'] eqn:Hread.
    apply ReadToArray_length in Hread. destruct ok; exact Hread. }
  match goal with
  | |- context [rbind ?m _] => destruct m as [[[b n]|r]| |]
  end; cbn [rbind]; auto.
  cbn [fst snd] in Hread |- *.
  apply (for_range_invariant
           (fun st : Xfer => (length buf <= length (fst st))%nat)
           (fun r : ReturnType * Xfer => (length buf <= length (fst (snd r)))%nat));
    [|exact Hread].
  intros i [b0 n0] Hb. cbn [fst] in Hb.
  destruct (req_at req_in i && _ && _); [|exact Hb].
  destruct (WriteFromArray _ _ _ _) as [[] l']; exact Hb.
Qed.

Lemma recover_loop_length (role : RecoverType) (size recv_link : Z)
    (req_in : list bool) (fuel : nat) :
  forall (buf : list byte) (net : Net) r st',
    recover_loop cfg env fuel role size recv_link req_in (buf, net) = Done (r, st') ->
    (length buf <= length (fst st'))%nat.
Proof.
  induction fuel as [|fuel IH]; intros buf net r st' H; [discriminate|].
  cbn [recover_loop] in H.
  pose proof (recover_step_length role size recv_link req_in buf net) as Hs.
  destruct (recover_step cfg env role size recv_link req_in (buf, net))
    as [[[b n]|r1]| |]; try discriminate.
  - apply IH in H. cbn in Hs. lia.
  - injection H as ->. exact Hs.
Qed.

Lemma TryRecoverData_length (fuel : nat) (role : RecoverType)
    (buf buf' : list byte) (size recv_link : Z) (req_in : list bool)
    (net net' : Net) (r : ReturnType) :
  TryRecoverData cfg env fuel role buf size recv_link req_in net
  = Done (r, buf', net') ->
  (length buf <= length buf')%nat.
Proof.
  unfold TryRecoverData.
  destruct (_ || _); [intros [= _ <- _]; lia|].
  destruct (utils_Assert _ _); cbn [rbind]; try discriminate.
  destruct (any_request _ _ _ _) as [[]| |]; cbn [rbind negb];
    try discriminate; [|intros [= _ <- _]; lia].
  destruct (utils_Assert _ _); cbn [rbind]; try discriminate.
  destruct (recover_loop _ _ _ _ _ _ _ _) as [[r' [b n]]| |] eqn:Hl;
    cbn [rbind]; try discriminate.
  intros [= _ <- _]. apply recover_loop_length in Hl. exact Hl.
Qed.

Lemma TryGetResult_length (fuel : nat) (resbuf : ResultBuffer)
    (buf buf' : list byte) (size seqno : Z) (requester : bool)
    (net net' : Net) (r : ReturnType) :
  TryGetResult cfg env fuel resbuf buf size seqno requester net
  = Done (r, buf', net') ->
  (length buf <= length buf')%nat.
Proof.
  unfold TryGetResult, result_role. destruct requester; cbn [negb].
  2:{ destruct (Query resbuf seqno) as [[p s]|];
        destruct (route_and_recover _ _ _ _ _ _ _) as [[[r0 p0] n0]| |];
        cbn [rbind]; try discriminate; intros [= _ <- _]; lia. }
  unfold route_and_recover.
  destruct (TryDecideRouting _ _ _ _) as [[[succ out] n]| |]; cbn [rbind];
    try discriminate.
  destruct (negb (is_success succ)); cbn [rbind]; [intros [= _ <- _]; lia|].
  destruct (utils_Check _ _); cbn [rbind]; try discriminate.
  destruct (TryRecoverData _ _ _ _ _ _ _ _ _) as [[[r0 p0] n0]| |] eqn:Ht;
    cbn [rbind]; try discriminate.
  intros [= _ <- _]. apply TryRecoverData_length in Ht. exact Ht.
Qed.

Lemma RecoverExec_step_length (fuel : nat) (resbuf : ResultBuffer) (size : Z)
    (req : ActionSummary) (st : Exec) :
  match RecoverExec_step cfg env fuel resbuf size req st with
  | Done (Next st') => (length (ex_buf st) <= length (ex_buf st'))%nat
  | Done (Return r) => (length (ex_buf st) <= length (ex_buf (snd r)))%nat
  | _ => True
  end.
Proof.
  unfold RecoverExec_step.
  destruct (env_reduce env (clock (ex_net st)) req) as [succ act].
  destruct (CheckAndRecover env succ (tick (ex_net st))) as [ok net'].
  set (st0 := mkExec (ex_buf st) (ex_checkpoint st) net').
  assert (Hload : match exec_load_check cfg env fuel req st0 with
                  | Done (ok, st') => (length (ex_buf st) <= length (ex_buf st'))%nat
                  | _ => True
                  end).
  { destruct (exec_load_check cfg env fuel req st0) as [[ok' st']| |] eqn:Hl; auto.
    apply exec_load_check_frame in Hl as [-> _]. cbn. lia. }
  assert (Hget : match exec_get_result cfg env fuel resbuf size req act st0 with
                 | Done (ok, st') => (length (ex_buf st) <= length (ex_buf st'))%nat
                 | _ => True
                 end).
  { unfold exec_get_result.
    destruct (TryGetResult _ _ _ _ _ _ _ _ _) as [[[r b] n]| |] eqn:Hg;
      cbn [rbind]; auto.
    destruct (CheckAndRecover env r n) as [ok' n']. cbn.
    apply TryGetResult_length in Hg. exact Hg. }
  destruct ok; cbn [negb]; [|cbn; lia].
  destruct (check_ack act).
  - destruct (check_point act).
    + destruct (utils_Assert _ _); cbn [rbind]; auto.
      destruct (check_point req); cbn; lia.
    + destruct (load_check act).
      * destruct (exec_load_check cfg env fuel req st0) as [[ok st']| |];
          cbn [rbind]; auto.
        destruct ok; cbn [negb]; [|exact Hload].
        destruct (load_check req); exact Hload.
      * destruct (check_ack req); cbn; lia.
  - destruct (check_point act).
    + destruct (diff_seq act).
      * destruct (utils_Assert _ _); cbn [rbind]; auto.
        destruct (exec_get_result cfg env fuel resbuf size req act st0)
          as [[ok st']| |]; cbn [rbind]; auto.
        destruct ok; cbn [negb]; [|exact Hget].
        destruct (min_seqno req =? min_seqno act); exact Hget.
      * destruct (check_point req); cbn; lia.
    + destruct (load_check act).
      * destruct (diff_seq act); cbn [negb]; [|cbn; lia].
        destruct (exec_load_check cfg env fuel req st0) as [[ok st']| |];
          cbn [rbind]; auto.
        destruct ok; cbn [negb]; [|exact Hload].
        destruct (load_check req); exact Hload.
      * destruct (utils_Assert _ _); cbn [rbind]; auto.
        destruct (diff_seq act); [|cbn; lia].
        destruct (exec_get_result cfg env fuel resbuf size req act st0)
          as [[ok st']| |]; cbn [rbind]; auto.
        destruct ok; cbn [negb]; [|exact Hget].
        destruct (min_seqno req =? min_seqno act); exact Hget.
Qed.

(** [RecoverExec] never leaves the caller's buffer shorter than it was. *)
Lemma RecoverExec_length (fuel : nat) (resbuf : ResultBuffer)
    (size flag seqno : Z) (st st' : Exec) (b : bool) :
  RecoverExec cfg env fuel resbuf size flag seqno st = Done (b, st') ->
  (length (ex_buf st) <= length (ex_buf st'))%nat.
Proof.
  unfold RecoverExec. intros H.
  destruct (if negb (flag =? 0) then _ else _); cbn [rbind] in H; try discriminate.
  apply (RecoverExec_loop_invariant cfg env
           (fun s => (length (ex_buf st) <= length (ex_buf s))%nat)
           (fun r => (length (ex_buf st) <= length (ex_buf (snd r)))%nat)
           resbuf size (make_action cfg flag seqno))
    with (fuel := fuel) (st := st) (r := (b, st')); [|lia|exact H].
  intros fuel0 s Hs.
  pose proof (RecoverExec_step_length fuel0 resbuf size (make_action cfg flag seqno) s)
    as Hstep.
  destruct (RecoverExec_step _ _ _ _ _ _ _) as [[s'|r]| |]; auto; lia.
Qed.

End BufferLength.

(** ** What a collective caches *)

Lemma length_memcpy (dst src : list byte) (n : Z) :
  length (memcpy dst src n)
  = (Nat.min (Z.to_nat n) (length src) + (length dst - Z.to_nat n))%nat.
Proof. unfold memcpy. rewrite length_app, length_take, length_drop. reflexivity. Qed.

Lemma take_memcpy (dst src : list byte) (n : Z) :
  (Z.to_nat n <= length src)%nat ->
  take (Z.to_nat n) (memcpy dst src n) = take (Z.to_nat n) src.
Proof.
  intros H. unfold memcpy. rewrite take_app_le by (rewrite length_take; lia).
  rewrite take_take. f_equal. lia.
Qed.

Section CachedResult.

Variable cfg : Constants.
Variable env : Env.
Hypothesis Hplace : in_place env.

Lemma Allreduce_step_agree (fuel : nat) (nbytes seqno : Z) (st : Retry) :
  retry_sized (Z.to_nat nbytes) st ->
  match Allreduce_step cfg env fuel nbytes seqno st with
  | Done (Next st') => retry_sized (Z.to_nat nbytes) st'
  | Done (Return st') => retry_agree (Z.to_nat nbytes) st'
  | _ => True
  end.
Proof.
  intros [Hbuf Htemp]. unfold Allreduce_step.
  set (temp1 := memcpy (rb_temp (rt_resbuf st)) (ex_buf (rt_exec st)) nbytes).
  assert (Htemp1 : length temp1 = Z.to_nat nbytes).
  { unfold temp1. rewrite length_memcpy. lia. }
  destruct (recovered st).
  { unfold retry_agree. cbn. apply take_memcpy. exact Hbuf. }
  cbn [rb_temp set_temp].
  destruct (env_allreduce env (clock (ex_net (rt_exec st)))
              (take (Z.to_nat nbytes) temp1)) as [succ reduced] eqn:Hred.
  assert (Hreduced : length reduced = Z.to_nat nbytes).
  { destruct Hplace as [Hall _]. specialize (Hall (clock (ex_net (rt_exec st)))
                                               (take (Z.to_nat nbytes) temp1)).
    rewrite Hred in Hall. cbn in Hall. rewrite Hall, length_take. lia. }
  set (temp2 := memcpy temp1 reduced nbytes).
  assert (Htemp2 : length temp2 = Z.to_nat nbytes).
  { unfold temp2. rewrite length_memcpy. lia. }
  destruct (CheckAndRecover env succ _) as [[] net'].
  - unfold retry_agree. cbn. symmetry. apply take_memcpy. lia.
  - destruct (RecoverExec _ _ _ _ _ _ _ _) as [[rec ex]| |] eqn:Hrec; cbn; auto.
    apply RecoverExec_length in Hrec. cbn in Hrec. split; cbn; [lia|exact Htemp2].
Qed.

Lemma Allreduce_loop_agree (nbytes seqno : Z) (fuel : nat) :
  forall (st st' : Retry),
    retry_sized (Z.to_nat nbytes) st ->
    Allreduce_loop cfg env fuel nbytes seqno st = Done st' ->
    retry_agree (Z.to_nat nbytes) st'.
Proof.
  induction fuel as [|fuel IH]; intros st st' Hs; cbn [Allreduce_loop];
    [discriminate|].
  pose proof (Allreduce_step_agree fuel nbytes seqno st Hs) as Hstep.
  destruct (Allreduce_step cfg env fuel nbytes seqno st) as [[s|s]| |];
    try discriminate.
  - apply IH. exact Hstep.
  - intros [= <-]. exact Hstep.
Qed.

Lemma Broadcast_step_agree (fuel : nat) (total_size root seqno : Z) (st : Retry) :
  retry_sized (Z.to_nat total_size) st ->
  match Broadcast_step cfg env fuel total_size root seqno st with
  | Done (Next st') => retry_sized (Z.to_nat total_size) st'
  | Done (Return st') => retry_agree (Z.to_nat total_size) st'
  | _ => True
  end.
Proof.
  intros [Hbuf Htemp]. unfold Broadcast_step.
  destruct (recovered st).
  { unfold retry_agree. cbn. apply take_memcpy. exact Hbuf. }
  destruct (env_broadcast env (clock (ex_net (rt_exec st))) (ex_buf (rt_exec st)) root)
    as [succ received] eqn:Hbc.
  assert (Hreceived : length received = length (ex_buf (rt_exec st))).
  { destruct Hplace as [_ Hall].
    specialize (Hall (clock (ex_net (rt_exec st))) (ex_buf (rt_exec st)) root).
    rewrite Hbc in Hall. exact Hall. }
  destruct (CheckAndRecover env succ _) as [ok net'].
  cbn [ex_buf].
  set (buf1 := memcpy (ex_buf (rt_exec st)) received total_size).
  assert (Hbuf1 : length buf1 = length (ex_buf (rt_exec st))).
  { unfold buf1. rewrite length_memcpy. lia. }
  destruct ok.
  - unfold retry_agree. cbn. apply take_memcpy. lia.
  - destruct (RecoverExec _ _ _ _ _ _ _ _) as [[rec ex]| |] eqn:Hrec; cbn; auto.
    apply RecoverExec_length in Hrec. cbn in Hrec. split; cbn; [lia|exact Htemp].
Qed.

Lemma Broadcast_loop_agree (total_size root seqno : Z) (fuel : nat) :
  forall (st st' : Retry),
    retry_sized (Z.to_nat total_size) st ->
    Broadcast_loop cfg env fuel total_size root seqno st = Done st' ->
    retry_agree (Z.to_nat total_size) st'.
Proof.
  induction fuel as [|fuel IH]; intros st st' Hs; cbn [Broadcast_loop];
    [discriminate|].
  pose proof (Broadcast_step_agree fuel total_size root seqno st Hs) as Hstep.
  destruct (Broadcast_step cfg env fuel total_size root seqno st) as [[s|s]| |];
    try discriminate.
  - apply IH. exact Hstep.
  - intros [= <-]. exact Hstep.
Qed.

(** X18. The result a collective hands back is the result it caches for the
    workers that fall behind: when [Allreduce] or [Broadcast] returns, the
    last entry of the result buffer is filed under the sequence number the
    call started with and holds the first [nbytes] bytes of the buffer as the
    caller finds it, whether the result was computed (lines 72-73, 100-101) or
    recovered (lines 69, 98). *)
Theorem collective_caches_result (fuel : nat) (c : Collective) (e e' : Engine)
    (buf' : list byte) :
  (Z.to_nat (collective_nbytes c) <= length (collective_buffer c))%nat ->
  in_size_range (collective_nbytes c) ->
  run_collective cfg env fuel c e = Done (buf', e') ->
  last (rb_entries (resbuf e'))
  = Some (mkEntry (seq_counter e) (fst (collective_shape c))
            (snd (collective_shape c))
            (take (Z.to_nat (collective_nbytes c)) buf')).
Proof.
  intros Hlen Hrange.
  destruct c as [buf tn cnt|buf total root];
    cbn [run_collective collective_nbytes collective_buffer collective_shape fst snd]
      in *.
  - unfold Allreduce.
    destruct (RecoverExec _ _ _ _ _ _ _ _) as [[rec ex]| |] eqn:Hrec;
      cbn [rbind]; try discriminate.
    destruct (drop_last_check _ _ _) as [kept| |]; cbn [rbind]; try discriminate.
    destruct (Allreduce_loop _ _ _ _ _ _) as [st| |] eqn:Hl; cbn [rbind];
      try discriminate.
    intros [= <- <-]. cbn. rewrite last_snoc. f_equal. f_equal.
    apply Allreduce_loop_agree in Hl; [exact Hl|].
    apply RecoverExec_length in Hrec. cbn in Hrec. split; cbn; [lia|].
    apply length_resize.
  - unfold Broadcast.
    destruct (RecoverExec _ _ _ _ _ _ _ _) as [[rec ex]| |] eqn:Hrec;
      cbn [rbind]; try discriminate.
    destruct (drop_last_check _ _ _) as [kept| |]; cbn [rbind]; try discriminate.
    destruct (Broadcast_loop _ _ _ _ _ _ _) as [st| |] eqn:Hl; cbn [rbind];
      try discriminate.
    assert (Hmul : size_mul 1 total = total).
    { unfold size_mul. rewrite Z.mul_1_l. apply Z.mod_small. exact Hrange. }
    intros [= <- <-]. cbn. rewrite last_snoc, Hmul. f_equal. f_equal.
    apply Broadcast_loop_agree in Hl; [exact Hl|].
    apply RecoverExec_length in Hrec. cbn in Hrec. split; cbn; [lia|].
    rewrite Hmul. apply length_resize.
Qed.

End CachedResult.

Lemma in_place_quiet_env : in_place quiet_env.
Proof. split; reflexivity. Qed.

Lemma collective_caches_result_witness :
  exists e',
    run_collective sample_constants quiet_env 5 (DoAllreduce operands 4 1)
      start_engine = Done (operands, e') /\
    last (rb_entries (resbuf e')) = Some (mkEntry 0 4 1 operands).
Proof.
  eexists. split; [vm_compute; reflexivity|].
  refine (collective_caches_result sample_constants quiet_env in_place_quiet_env 5
            (DoAllreduce operands 4 1) start_engine _ operands _ _ _).
  - vm_compute. lia.
  - vm_compute. split; [discriminate|reflexivity].
  - vm_compute. reflexivity.
Defined.

(** ** What a collective leaves alone *)

Section CollectiveFrames.

Variable cfg : Constants.
Variable env : Env.

Lemma RecoverExec_plain_checkpoint (fuel : nat) (resbuf : ResultBuffer)
    (size seqno : Z) (st st' : Exec) (b : bool) :
  RecoverExec cfg env fuel resbuf size 0 seqno st = Done (b, st') ->
  ex_checkpoint st' = ex_checkpoint st.
Proof.
  rewrite RecoverExec_plain_loop. intros H.
  apply RecoverExec_loop_frame in H as [_ H]. apply H. reflexivity.
Qed.

Lemma Allreduce_loop_checkpoint (nbytes seqno : Z) (fuel : nat) :
  forall (st st' : Retry),
    Allreduce_loop cfg env fuel nbytes seqno st = Done st' ->
    ex_checkpoint (rt_exec st') = ex_checkpoint (rt_exec st).
Proof.
  induction fuel as [|fuel IH]; intros st st'; cbn [Allreduce_loop]; [discriminate|].
  assert (Hs : match Allreduce_step cfg env fuel nbytes seqno st with
               | Done (Next s) | Done (Return s) =>
                   ex_checkpoint (rt_exec s) = ex_checkpoint (rt_exec st)
               | _ => True
               end).
  { unfold Allreduce_step. destruct (recovered st); [reflexivity|].
    destruct (env_allreduce env _ _) as [succ reduced].
    destruct (CheckAndRecover env succ _) as [[] net']; [reflexivity|].
    destruct (RecoverExec _ _ _ _ _ _ _ _) as [[rec ex]| |] eqn:Hrec; cbn; auto.
    apply RecoverExec_plain_checkpoint in Hrec. exact Hrec. }
  destruct (Allreduce_step cfg env fuel nbytes seqno st) as [[s|s]| |];
    try discriminate.
  - intros H. apply IH in H. congruence.
  - intros [= <-]. exact Hs.
Qed.

Lemma Broadcast_loop_checkpoint (total_size root seqno : Z) (fuel : nat) :
  forall (st st' : Retry),
    Broadcast_loop cfg env fuel total_size root seqno st = Done st' ->
    ex_checkpoint (rt_exec st') = ex_checkpoint (rt_exec st).
Proof.
  induction fuel as [|fuel IH]; intros st st'; cbn [Broadcast_loop]; [discriminate|].
  assert (Hs : match Broadcast_step cfg env fuel total_size root seqno st with
               | Done (Next s) | Done (Return s) =>
                   ex_checkpoint (rt_exec s) = ex_checkpoint (rt_exec st)
               | _ => True
               end).
  { unfold Broadcast_step. destruct (recovered st); [reflexivity|].
    destruct (env_broadcast env _ _ _) as [succ received].
    destruct (CheckAndRecover env succ _) as [[] net']; [reflexivity|].
    destruct (RecoverExec _ _ _ _ _ _ _ _) as [[rec ex]| |] eqn:Hrec; cbn; auto.
    apply RecoverExec_plain_checkpoint in Hrec. exact Hrec. }
  destruct (Broadcast_step cfg env fuel total_size root seqno st) as [[s|s]| |];
    try discriminate.
  - intros H. apply IH in H. congruence.
  - intros [= <-]. exact Hs.
Qed.

(** X19. [Allreduce] and [Broadcast] never change the checkpoint: whatever
    recovery they take part in, the loading of the checkpoint by another
    worker included, the blob and the version number are the same when they
    return. *)
Theorem collective_keeps_checkpoint (fuel : nat) (c : Collective)
    (e e' : Engine) (buf' : list byte) :
  run_collective cfg env fuel c e = Done (buf', e') ->
  global_checkpoint e' = global_checkpoint e /\
  version_number e' = version_number e.
Proof.
  destruct c as [buf tn cnt|buf total root]; cbn [run_collective].
  - unfold Allreduce.
    destruct (RecoverExec _ _ _ _ _ _ _ _) as [[rec ex]| |] eqn:Hrec;
      cbn [rbind]; try discriminate.
    destruct (drop_last_check _ _ _) as [kept| |]; cbn [rbind]; try discriminate.
    destruct (Allreduce_loop _ _ _ _ _ _) as [st| |] eqn:Hl; cbn [rbind];
      try discriminate.
    intros [= <- <-]. cbn. split; [|reflexivity].
    apply Allreduce_loop_checkpoint in Hl. cbn in Hl. rewrite Hl.
    apply RecoverExec_plain_checkpoint in Hrec. exact Hrec.
  - unfold Broadcast.
    destruct (RecoverExec _ _ _ _ _ _ _ _) as [[rec ex]| |] eqn:Hrec;
      cbn [rbind]; try discriminate.
    destruct (drop_last_check _ _ _) as [kept| |]; cbn [rbind]; try discriminate.
    destruct (Broadcast_loop _ _ _ _ _ _ _) as [st| |] eqn:Hl; cbn [rbind];
      try discriminate.
    intros [= <- <-]. cbn. split; [|reflexivity].
    apply Broadcast_loop_checkpoint in Hl. cbn in Hl. rewrite Hl.
    apply RecoverExec_plain_checkpoint in Hrec. exact Hrec.
Qed.

(** X20. With the retention round the constructor sets, 1, no result is ever
    dropped: after [n] collectives the result buffer holds every sequence
    number from 0 to [n - 1]. *)
Theorem default_round_keeps_all (fuel : nat) (cs : list Collective)
    (e0 e' : Engine) :
  rb_entries (resbuf e0) = [] ->
  run_collectives cfg env fuel cs (AllreduceRobust_new e0) = Done e' ->
  map e_seqno (rb_entries (resbuf e')) = map Z.of_nat (seq 0 (length cs)).
Proof.
  intros Hempty H.
  apply (run_collectives_retained cfg env fuel cs _ _ 0%nat) in H
    as (_ & _ & _ & H).
  - rewrite H. cbn [AllreduceRobust_new rank result_buffer_round Nat.add].
    unfold retained_seqnos. destruct (length cs) as [|m]; [reflexivity|].
    rewrite seq_S, map_app. cbn [map Nat.add]. f_equal.
    induction (seq 0 m) as [|x l IH]; [reflexivity|].
    cbn [map List.filter]. unfold congruent at 1.
    rewrite !Z.rem_1_r. cbn. f_equal. exact IH.
  - reflexivity.
  - cbn. rewrite Hempty. reflexivity.
Qed.

End CollectiveFrames.

Lemma collective_keeps_checkpoint_witness :
  exists e',
    run_collective sample_constants quiet_env 5 (DoAllreduce operands 4 1)
      start_engine = Done (operands, e') /\
    global_checkpoint e' = global_checkpoint start_engine /\
    version_number e' = version_number start_engine.
Proof.
  eexists. split; [vm_compute; reflexivity|].
  refine (collective_keeps_checkpoint sample_constants quiet_env 5
            (DoAllreduce operands 4 1) start_engine _ operands _).
  vm_compute. reflexivity.
Defined.

Lemma default_round_keeps_all_witness :
  exists e',
    run_collectives sample_constants quiet_env 5 three_allreduces
      (AllreduceRobust_new start_engine) = Done e' /\
    map e_seqno (rb_entries (resbuf e')) = [0; 1; 2].
Proof.
  eexists. split; [vm_compute; reflexivity|].
  refine (default_round_keeps_all sample_constants quiet_env 5 three_allreduces
            start_engine _ _ _).
  - reflexivity.
  - vm_compute. reflexivity.
Defined.

(** ** Ring passing *)

Section RingProperties.

Variable cfg : Constants.
Variable env : Env.

Variables read_ptr read_end write_ptr write_end : Z.
Hypothesis Hread : 0 <= read_ptr.
Hypothesis Hwrite : 0 <= write_ptr.
Hypothesis Hend : write_end < SIZE_MODULUS.
Hypothesis Hends : read_end <= write_end.

Lemma ring_read_bounds (prev : nat) (ready : bool) (s : Ring) :
  ring_bounds read_ptr read_end write_ptr write_end s ->
  match ring_read cfg env read_end prev ready s with
  | Next s' => ring_bounds read_ptr read_end write_ptr write_end s'
  | Return r => fst r = kSockError
  end.
Proof.
  intros (Hr & Hw & Hwe). unfold ring_read.
  destruct (negb (rg_read_ptr s =? read_end) && ready);
    [|ring_solve].
  assert (Hsub : size_sub read_end (rg_read_ptr s) = read_end - rg_read_ptr s).
  { unfold size_sub. apply Z.mod_small. lia. }
  rewrite Hsub.
  pose proof (sock_Recv_bounds (env_recv env (clock (rg_net s)))
                (read_end - rg_read_ptr s) ltac:(lia)) as Hb.
  destruct (sock_Recv _ _) as [len data]. cbn [fst] in Hb.
  destruct (Z.eqb_spec len 0); [reflexivity|].
  destruct (Z.eqb_spec len (-1)) as [|Hne]; cbn [negb].
  - destruct (negb (transient _ _)); [reflexivity|]. ring_solve.
  - specialize (Hb Hne).
    assert (Hadd : size_add (rg_read_ptr s) len = rg_read_ptr s + len).
    { unfold size_add. apply Z.mod_small. lia. }
    unfold ring_bounds. cbn. rewrite Hadd. repeat split; lia.
Qed.

Lemma ring_write_bounds (ready : bool) (s : Ring) :
  ring_bounds read_ptr read_end write_ptr write_end s ->
  match ring_write cfg env write_end ready s with
  | Next s' =>
      ring_bounds read_ptr read_end write_ptr write_end s' /\
      rg_buf s' = rg_buf s /\ links (rg_net s') = links (rg_net s)
  | Return r =>
      fst r = kSockError /\
      rg_buf (snd r) = rg_buf s /\ links (rg_net (snd r)) = links (rg_net s)
  end.
Proof.
  intros (Hr & Hw & Hwe). unfold ring_write.
  destruct (Z.eqb_spec (rg_write_ptr s) write_end) as [|Hne]; cbn [negb andb];
    [ring_solve|].
  destruct (Z.ltb_spec (rg_write_ptr s) (rg_read_ptr s)) as [Hlt|]; cbn [andb];
    [|ring_solve].
  destruct ready; [|ring_solve].
  assert (Hs1 : size_sub write_end (rg_write_ptr s) = write_end - rg_write_ptr s).
  { unfold size_sub. apply Z.mod_small. lia. }
  assert (Hs2 : size_sub (rg_read_ptr s) (rg_write_ptr s)
                = rg_read_ptr s - rg_write_ptr s).
  { unfold size_sub. apply Z.mod_small. lia. }
  rewrite Hs1, Hs2.
  set (nsend := Z.min (write_end - rg_write_ptr s) (rg_read_ptr s - rg_write_ptr s)).
  pose proof (sock_Send_bounds (env_send env (clock (rg_net s))) nsend
                ltac:(unfold nsend; lia)) as Hb.
  destruct (Z.eqb_spec (sock_Send (env_send env (clock (rg_net s))) nsend) (-1))
    as [|Hn1]; cbn [negb].
  - destruct (negb (transient _ _)); ring_solve.
  - specialize (Hb Hn1).
    assert (Hn : nsend <= write_end - rg_write_ptr s /\
                 nsend <= rg_read_ptr s - rg_write_ptr s) by (unfold nsend; lia).
    assert (Hadd : size_add (rg_write_ptr s)
                     (sock_Send (env_send env (clock (rg_net s))) nsend)
                   = rg_write_ptr s + sock_Send (env_send env (clock (rg_net s))) nsend).
    { unfold size_add. apply Z.mod_small. lia. }
    unfold ring_bounds. cbn. rewrite Hadd.
    repeat split; lia.
Qed.

Lemma RingPassing_step_bounds (prev next : nat) (s : Ring) :
  ring_bounds read_ptr read_end write_ptr write_end s ->
  match RingPassing_step cfg env read_end write_end prev next s with
  | Next s' => ring_bounds read_ptr read_end write_ptr write_end s'
  | Return r =>
      fst r = kSuccess ->
      rg_read_ptr (snd r) = read_end /\
      rg_write_ptr (snd r) = Z.max write_ptr read_end
  end.
Proof.
  intros Hb. unfold RingPassing_step.
  destruct (ring_watch_read read_end s) eqn:Hwr; cbn [orb negb].
  2:{ destruct (ring_watch_write write_end s) eqn:Hww; cbn [negb].
      2:{ intros _. cbn. unfold ring_watch_read, ring_watch_write in *.
          destruct Hb as (Hr & Hw & Hwe).
          apply negb_false_iff, Z.eqb_eq in Hwr.
          apply andb_false_iff in Hww.
          split; [exact Hwr|].
          destruct Hww as [Hlt|Heq].
          - apply Z.ltb_ge in Hlt. lia.
          - apply negb_false_iff, Z.eqb_eq in Heq. lia. }
      destruct (rd_except _); [discriminate|].
      destruct (rd_except _); [discriminate|].
      pose proof (ring_read_bounds prev
                    (false && rd_read (env_select env (clock (rg_net s)) prev))
                    (mkRing (rg_buf s) (rg_read_ptr s) (rg_write_ptr s)
                       (tick (rg_net s))) Hb) as Hrd.
      destruct (ring_read _ _ _ _ _ _) as [s1|r1]; [|rewrite Hrd; discriminate].
      pose proof (ring_write_bounds
                    (true && rd_write (env_select env (clock (rg_net s)) next))
                    s1 Hrd) as Hwt.
      destruct (ring_write _ _ _ _ _) as [s2|r2]; [apply Hwt|].
      destruct Hwt as [-> _]. discriminate. }
  destruct (rd_except _); [discriminate|].
  destruct (rd_except _); [discriminate|].
  pose proof (ring_read_bounds prev
                (true && rd_read (env_select env (clock (rg_net s)) prev))
                (mkRing (rg_buf s) (rg_read_ptr s) (rg_write_ptr s)
                   (tick (rg_net s))) Hb) as Hrd.
  destruct (ring_read _ _ _ _ _ _) as [s1|r1]; [|rewrite Hrd; discriminate].
  pose proof (ring_write_bounds
                (ring_watch_write write_end s
                 && rd_write (env_select env (clock (rg_net s)) next))
                s1 Hrd) as Hwt.
  destruct (ring_write _ _ _ _ _) as [s2|r2]; [apply Hwt|].
  destruct Hwt as [-> _]. discriminate.
Qed.

Lemma RingPassing_loop_bounds (prev next : nat) (fuel : nat) :
  forall s s',
    ring_bounds read_ptr read_end write_ptr write_end s ->
    RingPassing_loop cfg env fuel read_end write_end prev next s
    = Done (kSuccess, s') ->
    rg_read_ptr s' = read_end /\ rg_write_ptr s' = Z.max write_ptr read_end.
Proof.
  induction fuel as [|fuel IH]; intros s s' Hb H; [discriminate|].
  cbn [RingPassing_loop] in H.
  pose proof (RingPassing_step_bounds prev next s Hb) as Hs.
  destruct (RingPassing_step cfg env read_end write_end prev next s) as [s1|r1].
  - eapply IH; eassumption.
  - injection H as ->. apply Hs. reflexivity.
Qed.

End RingProperties.

(** X21. [RingPassing] returns [kSuccess] either at once, when there is no
    link or nothing to read, or when it has read up to [read_end] and sent up
    to [read_end] and no further: the write position ends at [read_end], or
    where it started if that was beyond. Line 737 admits a call only when
    [read_end <= write_end], so the bytes from [read_end] to [write_end] are
    sent by no call, and [write_end] is reached only if it equals [read_end]
    or the write position started there. *)
Theorem RingPassing_positions (cfg : Constants) (env : Env) (fuel : nat)
    (buf : list byte) (read_ptr read_end write_ptr write_end : Z)
    (prev next : nat) (net : Net) (s' : Ring) :
  0 <= read_ptr -> 0 <= write_ptr -> write_end < SIZE_MODULUS ->
  RingPassing cfg env fuel buf read_ptr read_end write_ptr write_end prev next net
  = Done (kSuccess, s') ->
  ((links net = [] \/ read_end = 0) /\ s' = mkRing buf read_ptr write_ptr net) \/
  (read_end <= write_end /\ read_ptr <= read_end /\ write_ptr <= write_end /\
   rg_read_ptr s' = read_end /\
   rg_write_ptr s' = Z.max write_ptr read_end /\
   (rg_write_ptr s' = write_end <->
    write_ptr = write_end \/ read_end = write_end)).
Proof.
  intros Hr Hw He. unfold RingPassing.
  destruct (Nat.eqb_spec (length (links net)) 0) as [Hn|Hn]; cbn [orb].
  { intros [= <-]. left. split; [|reflexivity]. left.
    destruct (links net); [reflexivity|discriminate]. }
  destruct (Z.eqb_spec read_end 0) as [Hz|Hz].
  { intros [= <-]. left. auto. }
  unfold utils_Assert.
  destruct (Z.leb_spec read_end write_end) as [H1|]; cbn [rbind]; [|discriminate].
  destruct (Z.leb_spec read_ptr read_end) as [H2|]; cbn [rbind]; [|discriminate].
  destruct (Z.leb_spec write_ptr write_end) as [H3|]; cbn [rbind]; [|discriminate].
  intros H. right.
  apply (RingPassing_loop_bounds cfg env read_ptr read_end write_ptr write_end
           Hr Hw He H1) in H as [Hrp Hwp].
  - rewrite Hrp, Hwp. repeat split; try lia.
  - unfold ring_bounds. cbn. lia.
Qed.

Section RingWrites.

Variable cfg : Constants.
Variable env : Env.

Variables read_ptr read_end write_ptr write_end : Z.
Variable buf : list byte.
Variable prev : nat.
Variable ls : list LinkRecord.
Hypothesis Hread : 0 <= read_ptr.
Hypothesis Hwrite : 0 <= write_ptr.
Hypothesis Hend : write_end < SIZE_MODULUS.
Hypothesis Hends : read_end <= write_end.
Hypothesis Hlen : (Z.to_nat read_end <= length buf)%nat.

Lemma ring_read_writes (ready : bool) (s : Ring) :
  ring_bounds read_ptr read_end write_ptr write_end s ->
  ring_untouched read_ptr read_end buf ls s ->
  match ring_read cfg env read_end prev ready s with
  | Next s' => ring_untouched read_ptr read_end buf ls s'
  | Return r => ring_closed read_ptr read_end buf prev ls r
  end.
Proof.
  intros (Hr & Hw & Hwe) [(Hl & Ht & Hd) Hls]. unfold ring_read.
  destruct (negb (rg_read_ptr s =? read_end) && ready);
    [|split; [split|]; auto].
  assert (Hsub : size_sub read_end (rg_read_ptr s) = read_end - rg_read_ptr s).
  { unfold size_sub. apply Z.mod_small. lia. }
  rewrite Hsub.
  destruct (sock_Recv _ _) as [len data] eqn:Hrecv.
  assert (Hdata : Z.of_nat (length data) <= read_end - rg_read_ptr s).
  { unfold sock_Recv in Hrecv.
    destruct (env_recv env (clock (rg_net s))) as [bytes| |];
      injection Hrecv as <- <-; cbn [length]; try lia.
    rewrite length_take. lia. }
  destruct (Z.eqb_spec len 0).
  { split; cbn; [split; auto|]. right. split; [reflexivity|]. rewrite Hls.
    reflexivity. }
  destruct (Z.eqb_spec len (-1)) as [|Hne]; cbn [negb].
  { destruct (negb (transient _ _)); split; cbn; auto; split; auto. }
  split; [|exact Hls]. cbn [rg_buf].
  destruct (write_at_kept_beyond (rg_buf s) (rg_read_ptr s) read_end data)
    as [Hl' Hd']; [lia|lia|lia|].
  split; [congruence|]. split; [|congruence].
  rewrite <- Ht. unfold write_at.
  rewrite take_app_le by (rewrite length_take; lia).
  rewrite take_take. f_equal. lia.
Qed.

Lemma RingPassing_step_writes (next : nat) (s : Ring) :
  ring_bounds read_ptr read_end write_ptr write_end s ->
  ring_untouched read_ptr read_end buf ls s ->
  match RingPassing_step cfg env read_end write_end prev next s with
  | Next s' => ring_untouched read_ptr read_end buf ls s'
  | Return r => ring_closed read_ptr read_end buf prev ls r
  end.
Proof.
  intros Hb Hu. unfold RingPassing_step.
  assert (Hsame : forall r,
            ring_closed read_ptr read_end buf prev ls
              (r, mkRing (rg_buf s) (rg_read_ptr s)
                                        (rg_write_ptr s) (tick (rg_net s)))).
  { intros r. destruct Hu as [Hk Hls]. split; cbn; auto. }
  destruct (negb (_ || _)).
  { destruct Hu as [Hk Hls]. split; cbn; auto. }
  destruct (rd_except _); [apply Hsame|].
  destruct (rd_except _); [apply Hsame|].
  set (s0 := mkRing (rg_buf s) (rg_read_ptr s) (rg_write_ptr s) (tick (rg_net s))).
  assert (Hb0 : ring_bounds read_ptr read_end write_ptr write_end s0) by exact Hb.
  assert (Hu0 : ring_untouched read_ptr read_end buf ls s0) by exact Hu.
  match goal with
  | |- context [ring_read cfg env read_end prev ?ready s0] =>
      pose proof (ring_read_writes ready s0 Hb0 Hu0) as Hrd;
      pose proof (ring_read_bounds cfg env read_ptr read_end write_ptr write_end
                    Hread Hwrite Hend Hends prev ready s0 Hb0) as Hrb;
      destruct (ring_read cfg env read_end prev ready s0) as [s1|r1]
  end; [|exact Hrd].
  match goal with
  | |- context [ring_write cfg env write_end ?ready s1] =>
      pose proof (ring_write_bounds cfg env read_ptr read_end write_ptr write_end
                    Hread Hwrite Hend Hends ready s1 Hrb) as Hwt;
      destruct (ring_write cfg env write_end ready s1) as [s2|r2]
  end.
  - destruct Hwt as (_ & Hbuf & Hlinks). destruct Hrd as [Hk Hls].
    split; [rewrite Hbuf|rewrite Hlinks]; assumption.
  - destruct Hwt as (_ & Hbuf & Hlinks). destruct Hrd as [Hk Hls].
    split; [rewrite Hbuf; assumption|left; rewrite Hlinks; assumption].
Qed.

Lemma RingPassing_loop_writes (next : nat) (fuel : nat) :
  forall s r,
    ring_bounds read_ptr read_end write_ptr write_end s ->
    ring_untouched read_ptr read_end buf ls s ->
    RingPassing_loop cfg env fuel read_end write_end prev next s = Done r ->
    ring_closed read_ptr read_end buf prev ls r.
Proof.
  induction fuel as [|fuel IH]; intros s r Hb Hu H; [discriminate|].
  cbn [RingPassing_loop] in H.
  pose proof (RingPassing_step_writes next s Hb Hu) as Hs.
  pose proof (RingPassing_step_bounds cfg env read_ptr read_end write_ptr write_end
                Hread Hwrite Hend Hends prev next s Hb) as Hsb.
  destruct (RingPassing_step cfg env read_end write_end prev next s) as [s1|r1].
  - eapply IH; eassumption.
  - injection H as ->. exact Hs.
Qed.

End RingWrites.

(** X22. [RingPassing] stores what it receives between the positions
    [read_ptr] and [read_end] of the buffer and nowhere else: whatever it
    returns, the buffer has kept its length and every byte before [read_ptr]
    and from [read_end] on. The only thing it does to the links is to close
    the socket of the previous link, when that link's peer has closed it, and
    it then returns [kSockError]. *)
Theorem RingPassing_writes (cfg : Constants) (env : Env) (fuel : nat)
    (buf : list byte) (read_ptr read_end write_ptr write_end : Z)
    (prev next : nat) (net : Net) (r : ReturnType) (s' : Ring) :
  0 <= read_ptr -> 0 <= write_ptr -> write_end < SIZE_MODULUS ->
  (Z.to_nat read_end <= length buf)%nat ->
  RingPassing cfg env fuel buf read_ptr read_end write_ptr write_end prev next net
  = Done (r, s') ->
  ring_buffer_kept read_ptr read_end buf (rg_buf s') /\
  (links (rg_net s') = links net \/
   r = kSockError /\
   links (rg_net s') = update_link (links net) (Z.of_nat prev) sock_Close).
Proof.
  intros Hr Hw He Hlen. unfold RingPassing.
  destruct (_ || _).
  { intros [= <- <-]. cbn. split; [split; auto|auto]. }
  unfold utils_Assert.
  destruct (Z.leb_spec read_end write_end) as [H1|]; cbn [rbind]; [|discriminate].
  destruct (Z.leb_spec read_ptr read_end) as [H2|]; cbn [rbind]; [|discriminate].
  destruct (Z.leb_spec write_ptr write_end) as [H3|]; cbn [rbind]; [|discriminate].
  intros H.
  apply (RingPassing_loop_writes cfg env read_ptr read_end write_ptr write_end buf
           prev (links net) Hr Hw He H1 Hlen) in H.
  - exact H.
  - unfold ring_bounds. cbn. lia.
  - split; cbn; [split; auto|reflexivity].
Qed.

Lemma RingPassing_positions_witness :
  exists s',
    RingPassing sample_constants one_source_env 12
      [x01; x02; x00; x00; x00; x00; x00; x00] 2 6 0 8 0 1 two_link_net
    = Done (kSuccess, s') /\
    rg_read_ptr s' = 6 /\ rg_write_ptr s' = 6 /\ rg_write_ptr s' <> 8.
Proof.
  assert (H : RingPassing sample_constants one_source_env 12
                [x01; x02; x00; x00; x00; x00; x00; x00] 2 6 0 8 0 1 two_link_net
              = Done (kSuccess,
                      mkRing [x01; x02; x0a; x0b; x0c; x0d; x00; x00] 6 6
                        (mkNet [fresh_link; fresh_link] 13)))
    by (vm_compute; reflexivity).
  eexists. split; [exact H|].
  destruct (RingPassing_positions sample_constants one_source_env 12
              [x01; x02; x00; x00; x00; x00; x00; x00] 2 6 0 8 0 1 two_link_net _
              ltac:(lia) ltac:(lia) ltac:(unfold SIZE_MODULUS; lia) H)
    as [[[Hn|Hn] _]|(_ & _ & _ & Hrp & Hwp & _)];
    [discriminate Hn|discriminate Hn|].
  split; [exact Hrp|]. split; [exact Hwp|]. rewrite Hwp. discriminate.
Defined.

Lemma RingPassing_writes_witness :
  ring_buffer_kept 2 6 [x01; x02; x00; x00; x00; x00; x00; x00]
    [x01; x02; x0a; x0b; x0c; x0d; x00; x00].
Proof.
  refine (proj1 (RingPassing_writes sample_constants one_source_env 12
                   [x01; x02; x00; x00; x00; x00; x00; x00] 2 6 0 8 0 1
                   two_link_net kSuccess
                   (mkRing [x01; x02; x0a; x0b; x0c; x0d; x00; x00] 6 6
                      (mkNet [fresh_link; fresh_link] 13))
                   _ _ _ _ _)).
  - lia.
  - lia.
  - unfold SIZE_MODULUS. lia.
  - cbn. lia.
  - vm_compute. reflexivity.
Defined.

(** ** Ring passing on a network that keeps going *)

Section RingProgress.

Variable cfg : Constants.
Variable env : Env.
Hypothesis Hlive : lively env.

Variables read_ptr read_end write_ptr write_end : Z.
Hypothesis Hread : 0 <= read_ptr.
Hypothesis Hwrite : 0 <= write_ptr.
Hypothesis Hend : write_end < SIZE_MODULUS.
Hypothesis Hends : read_end <= write_end.

Lemma ring_read_next (prev : nat) (ready : bool) (s : Ring) :
  ring_bounds read_ptr read_end write_ptr write_end s ->
  exists s',
    ring_read cfg env read_end prev ready s = Next s' /\
    rg_write_ptr s' = rg_write_ptr s /\
    rg_read_ptr s <= rg_read_ptr s' /\
    (ready = true -> rg_read_ptr s <> read_end -> rg_read_ptr s < rg_read_ptr s').
Proof.
  intros (Hr & Hw & Hwe). unfold ring_read.
  destruct (Z.eqb_spec (rg_read_ptr s) read_end) as [Heq|Hne]; cbn [negb andb].
  { exists s. repeat split; try lia; intros; contradiction. }
  destruct ready.
  2:{ exists s. repeat split; try lia; discriminate. }
  assert (Hsub : size_sub read_end (rg_read_ptr s) = read_end - rg_read_ptr s).
  { unfold size_sub. apply Z.mod_small. lia. }
  rewrite Hsub.
  destruct Hlive as (_ & Hrecv & _).
  destruct (Hrecv (clock (rg_net s))) as (data & -> & Hdata).
  unfold sock_Recv.
  set (got := take (Z.to_nat (read_end - rg_read_ptr s)) data).
  assert (Hgot : 1 <= Z.of_nat (length got) <= read_end - rg_read_ptr s).
  { unfold got. rewrite length_take. destruct data; [contradiction|].
    cbn [length]. lia. }
  destruct (Z.eqb_spec (Z.of_nat (length got)) 0); [lia|].
  destruct (Z.eqb_spec (Z.of_nat (length got)) (-1)); [lia|]. cbn [negb].
  eexists. split; [reflexivity|]. cbn.
  unfold size_add. rewrite Z.mod_small by lia. repeat split; lia.
Qed.

Lemma ring_write_next (ready : bool) (s : Ring) :
  ring_bounds read_ptr read_end write_ptr write_end s ->
  exists s',
    ring_write cfg env write_end ready s = Next s' /\
    rg_read_ptr s' = rg_read_ptr s /\
    rg_write_ptr s <= rg_write_ptr s' /\
    (ready = true -> rg_write_ptr s < rg_read_ptr s ->
     rg_write_ptr s <> write_end -> rg_write_ptr s < rg_write_ptr s').
Proof.
  intros (Hr & Hw & Hwe). unfold ring_write.
  destruct (Z.eqb_spec (rg_write_ptr s) write_end) as [Heq|Hne]; cbn [negb andb].
  { exists s. repeat split; try lia; intros; contradiction. }
  destruct (Z.ltb_spec (rg_write_ptr s) (rg_read_ptr s)) as [Hlt|Hge];
    cbn [andb].
  2:{ exists s. repeat split; try lia; intros; lia. }
  destruct ready.
  2:{ exists s. repeat split; try lia; discriminate. }
  assert (Hs1 : size_sub write_end (rg_write_ptr s) = write_end - rg_write_ptr s).
  { unfold size_sub. apply Z.mod_small. lia. }
  assert (Hs2 : size_sub (rg_read_ptr s) (rg_write_ptr s)
                = rg_read_ptr s - rg_write_ptr s).
  { unfold size_sub. apply Z.mod_small. lia. }
  rewrite Hs1, Hs2.
  destruct Hlive as (_ & _ & Hsend).
  destruct (Hsend (clock (rg_net s))) as (n & -> & Hn).
  unfold sock_Send.
  set (len := Z.max 0 (Z.min n (Z.min (write_end - rg_write_ptr s)
                                      (rg_read_ptr s - rg_write_ptr s)))).
  assert (Hlen : 1 <= len <= rg_read_ptr s - rg_write_ptr s) by (unfold len; lia).
  destruct (Z.eqb_spec len (-1)); [lia|]. cbn [negb].
  eexists. split; [reflexivity|]. cbn.
  unfold size_add. rewrite Z.mod_small by lia. repeat split; lia.
Qed.

Lemma RingPassing_step_progress (prev next : nat) (s : Ring) :
  ring_bounds read_ptr read_end write_ptr write_end s ->
  match RingPassing_step cfg env read_end write_end prev next s with
  | Next s' =>
      ring_bounds read_ptr read_end write_ptr write_end s' /\
      ring_remaining read_end write_ptr s' < ring_remaining read_end write_ptr s
  | Return r => fst r = kSuccess
  end.
Proof.
  intros Hb.
  pose proof (RingPassing_step_bounds cfg env read_ptr read_end write_ptr write_end
                Hread Hwrite Hend Hends prev next s Hb) as Hkeep.
  revert Hkeep. unfold RingPassing_step.
  destruct Hlive as (Hsel & _ & _).
  destruct (Hsel (clock (rg_net s)) prev) as (He1 & Hr1 & _).
  destruct (Hsel (clock (rg_net s)) next) as (He2 & _ & Hw2).
  rewrite He1, He2, Hr1, Hw2, !andb_true_r.
  set (s0 := mkRing (rg_buf s) (rg_read_ptr s) (rg_write_ptr s) (tick (rg_net s))).
  assert (Hb0 : ring_bounds read_ptr read_end write_ptr write_end s0) by exact Hb.
  destruct (ring_watch_read read_end s || ring_watch_write write_end s) eqn:Hwatch;
    cbn [negb]; [|reflexivity].
  destruct (ring_read_next prev (ring_watch_read read_end s) s0 Hb0)
    as (s1 & E1 & Hw1 & Hr1le & Hr1lt).
  pose proof (ring_read_bounds cfg env read_ptr read_end write_ptr write_end
                Hread Hwrite Hend Hends prev (ring_watch_read read_end s) s0 Hb0)
    as Hb1.
  rewrite E1 in Hb1.
  destruct (ring_write_next (ring_watch_write write_end s) s1 Hb1)
    as (s2 & E2 & Hr2 & Hw2le & Hw2lt).
  rewrite E1.
  rewrite E2. intros Hkeep. split; [exact Hkeep|].
  unfold ring_remaining. cbn [rg_read_ptr rg_write_ptr s0] in *.
  unfold ring_watch_read, ring_watch_write in *.
  destruct (Z.eqb_spec (rg_read_ptr s) read_end) as [Heq|Hne]; cbn [negb] in *.
  - cbn [orb] in Hwatch. apply andb_true_iff in Hwatch as [Hlt Hwe].
    apply Z.ltb_lt in Hlt. apply negb_true_iff, Z.eqb_neq in Hwe.
    assert (rg_write_ptr s1 < rg_write_ptr s2).
    { apply Hw2lt; [|lia|lia]. apply andb_true_iff. split.
      - apply Z.ltb_lt. exact Hlt.
      - apply negb_true_iff, Z.eqb_neq. exact Hwe. }
    lia.
  - specialize (Hr1lt eq_refl Hne). lia.
Qed.

Lemma RingPassing_loop_completes (prev next : nat) (fuel : nat) :
  forall s,
    ring_bounds read_ptr read_end write_ptr write_end s ->
    (Z.to_nat (ring_remaining read_end write_ptr s) < fuel)%nat ->
    exists s',
      RingPassing_loop cfg env fuel read_end write_end prev next s
      = Done (kSuccess, s').
Proof.
  induction fuel as [|fuel IH]; intros s Hb Hfuel; [lia|].
  cbn [RingPassing_loop].
  pose proof (RingPassing_step_progress prev next s Hb) as Hstep.
  destruct (RingPassing_step cfg env read_end write_end prev next s) as [s1|[r s1]].
  - destruct Hstep as [Hb1 Hless]. apply IH; [exact Hb1|].
    assert (0 <= ring_remaining read_end write_ptr s1).
    { destruct Hb1 as (Hr & Hw & Hwe). unfold ring_remaining. lia. }
    lia.
  - cbn in Hstep. subst r. exists s1. reflexivity.
Qed.

End RingProgress.

(** X25. On a network that keeps going (no exception, every watched socket
    ready, every read finding and every send taking at least one byte)
    [RingPassing] returns [kSuccess] once it is given as many passes of its
    loop as there are bytes to read and to send, and one more. *)
Theorem RingPassing_completes (cfg : Constants) (env : Env) (fuel : nat)
    (buf : list byte) (read_ptr read_end write_ptr write_end : Z)
    (prev next : nat) (net : Net) :
  lively env ->
  0 <= read_ptr <= read_end -> 0 <= write_ptr <= write_end ->
  read_end <= write_end < SIZE_MODULUS ->
  (Z.to_nat ((read_end - read_ptr) + (Z.max write_ptr read_end - write_ptr))
   < fuel)%nat ->
  exists s',
    RingPassing cfg env fuel buf read_ptr read_end write_ptr write_end prev next
      net = Done (kSuccess, s').
Proof.
  intros Hlive Hr Hw He Hfuel. unfold RingPassing.
  destruct (_ || _); [eexists; reflexivity|].
  unfold utils_Assert.
  destruct (Z.leb_spec read_end write_end); [|lia].
  destruct (Z.leb_spec read_ptr read_end); [|lia].
  destruct (Z.leb_spec write_ptr write_end); [|lia].
  cbn [rbind].
  apply (RingPassing_loop_completes cfg env Hlive read_ptr read_end write_ptr
           write_end); try lia.
  - unfold ring_bounds. cbn. lia.
  - exact Hfuel.
Qed.

Lemma lively_one_source_env : lively one_source_env.
Proof.
  split; [|split].
  - intros t i. repeat split.
  - intros t. eexists. split; [reflexivity|discriminate].
  - intros t. exists 1. split; [reflexivity|lia].
Qed.

Lemma RingPassing_completes_witness :
  exists s',
    RingPassing sample_constants one_source_env 12
      [x01; x02; x00; x00; x00; x00; x00; x00] 2 6 0 8 0 1 two_link_net
    = Done (kSuccess, s').
Proof.
  apply (RingPassing_completes sample_constants one_source_env 12
           [x01; x02; x00; x00; x00; x00; x00; x00] 2 6 0 8 0 1 two_link_net
           lively_one_source_env).
  - lia.
  - lia.
  - unfold SIZE_MODULUS. lia.
  - vm_compute. lia.
Defined.

(** ** What [Allreduce] reduces *)

Section AllreduceOutcome.

Variable cfg : Constants.
Variable env : Env.

(** X3. [Allreduce] after its first call of [RecoverExec] (line 60). If the
    result was recovered, the reduction is not run: the caller gets the buffer
    [RecoverExec] left and the network is not used again. If not, the operands
    of the reduction are the first [nbytes] bytes of the buffer as
    [RecoverExec] left it, which need not be the bytes the caller passed in;
    when the reduction succeeds at once its result is copied over the start of
    that buffer and returned. *)
Theorem Allreduce_outcome (fuel : nat) (buf : list byte) (type_nbytes count : Z)
    (e : Engine) (rec : bool) (ex : Exec) (kept : ResultBuffer) :
  RecoverExec cfg env (S fuel) (resbuf e) (size_mul type_nbytes count) 0
    (seq_counter e) (exec_of buf e) = Done (rec, ex) ->
  drop_last_check (rank e) (result_buffer_round e) (resbuf e) = Done kept ->
  (rec = true ->
   exists e',
     Allreduce cfg env (S fuel) buf type_nbytes count e = Done (ex_buf ex, e') /\
     net e' = ex_net ex) /\
  (rec = false ->
   forall reduced,
     env_allreduce env (clock (ex_net ex))
       (take (Z.to_nat (size_mul type_nbytes count))
          (first_scratch type_nbytes count kept ex))
     = (kSuccess, reduced) ->
     exists e',
       Allreduce cfg env (S fuel) buf type_nbytes count e
       = Done (memcpy (ex_buf ex)
                 (memcpy (first_scratch type_nbytes count kept ex) reduced
                    (size_mul type_nbytes count))
                 (size_mul type_nbytes count), e') /\
       net e' = tick (ex_net ex)).
Proof.
  intros Hrec Hdrop. split.
  - intros ->. eexists. unfold Allreduce. rewrite Hrec. cbn [rbind].
    rewrite Hdrop. cbn [rbind Allreduce_loop].
    unfold Allreduce_step. cbn [recovered rbind]. split; reflexivity.
  - intros -> reduced Hred. eexists. unfold Allreduce. rewrite Hrec. cbn [rbind].
    rewrite Hdrop. cbn [rbind Allreduce_loop].
    unfold Allreduce_step. cbn [recovered rt_resbuf rt_exec rb_temp set_temp].
    unfold first_scratch in Hred. rewrite Hred.
    rewrite CheckAndRecover_success. cbn [rbind]. split; reflexivity.
Qed.

End AllreduceOutcome.

(** A lagging worker calls [Allreduce] on its operands.  As requester it
    receives two of the four bytes of the result before the source dies;
    after the reconnection every rank is at its sequence number, so
    [RecoverExec] returns false, with the first two bytes of the buffer
    overwritten.  The reduction, which here returns what it is given, works
    on the overwritten bytes, and they are what [Allreduce] returns. *)
Lemma Allreduce_outcome_witness :
  RecoverExec sample_constants dying_source_env 5 empty_resbuf 4 0 0
    (mkExec operands [] one_link_net)
  = Done (false, mkExec [x0a; x0b; x03; x04] [] (mkNet [fresh_link] 9)) /\
  exists e',
    Allreduce sample_constants dying_source_env 5 operands 4 1 start_engine
    = Done ([x0a; x0b; x03; x04], e') /\
    net e' = mkNet [fresh_link] 10.
Proof.
  assert (H : RecoverExec sample_constants dying_source_env 5
                (resbuf start_engine) (size_mul 4 1) 0 (seq_counter start_engine)
                (exec_of operands start_engine)
              = Done (false, mkExec [x0a; x0b; x03; x04] [] (mkNet [fresh_link] 9)))
    by (vm_compute; reflexivity).
  split; [exact H|].
  exact (proj2 (Allreduce_outcome sample_constants dying_source_env 4 operands 4 1
                  start_engine false _ empty_resbuf H eq_refl)
           eq_refl [x0a; x0b; x03; x04] eq_refl).
Defined.

(** ** The retention round a parameter sets *)

(** X23. [SetParam] and the remainder of lines 63 and 92. The parameter
    [result_replicate] never leaves a retention round below 1, so the
    remainder by it is defined in every collective that follows. The parameter
    [result_buffer_round] stores whatever [atoi] makes of the value; when that
    is 0, every collective that finds the result buffer non-empty takes a
    remainder by zero. *)
Theorem SetParam_round (atoi : string -> Z) (name val : string)
    (world_size : Z) (e e' : Engine) :
  SetParam atoi name val world_size e = Done e' ->
  (name = "result_replicate"%string ->
   1 <= result_buffer_round e' /\
   forall rank rb,
     drop_last_check rank (result_buffer_round e') rb <> Abort "remainder by zero") /\
  (name = "result_buffer_round"%string ->
   result_buffer_round e' = atoi val /\
   (atoi val = 0 ->
    forall rank rb,
      LastSeqNo rb <> -1 ->
      drop_last_check rank (result_buffer_round e') rb = Abort "remainder by zero")) /\
  (name <> "result_replicate"%string -> name <> "result_buffer_round"%string ->
   e' = e) /\
  (rank e', seq_counter e', version_number e', resbuf e', global_checkpoint e', net e')
  = (rank e, seq_counter e, version_number e, resbuf e, global_checkpoint e, net e).
Proof.
  unfold SetParam. intros H.
  destruct (String.eqb_spec name "result_replicate") as [Hr|Hr].
  - subst name. cbn [String.eqb Ascii.eqb Bool.eqb andb] in H.
    destruct (atoi val =? 0); cbn [rbind] in H; [discriminate|].
    injection H as <-. cbn. split; [|split; [discriminate|split; [congruence|reflexivity]]].
    intros _. split; [lia|]. intros rank rb. unfold drop_last_check.
    destruct (negb (LastSeqNo rb =? -1)); [|discriminate].
    destruct (Z.eqb_spec (Z.max (int_div world_size (atoi val)) 1) 0); [lia|].
    destruct (negb _); discriminate.
  - cbn [rbind] in H. injection H as <-. cbn.
    split; [contradiction|].
    destruct (String.eqb_spec name "result_buffer_round") as [Hb|Hb].
    + split; [|split; [congruence|reflexivity]].
      intros _. split; [reflexivity|]. intros Hz rank rb Hlast.
      unfold drop_last_check. rewrite Hz.
      destruct (Z.eqb_spec (LastSeqNo rb) (-1)); [contradiction|]. reflexivity.
    + split; [contradiction|]. split; [|reflexivity]. intros _ _.
      destruct e; reflexivity.
Qed.

Lemma SetParam_round_witness :
  1 <= result_buffer_round
         (mkEngine 0 2 0 0 empty_resbuf [] one_link_net) /\
  forall rank rb,
    drop_last_check rank 2 rb <> Abort "remainder by zero".
Proof.
  exact (proj1 (SetParam_round (fun _ => 3) "result_replicate" "3" 8 start_engine
                  (mkEngine 0 2 0 0 empty_resbuf [] one_link_net) eq_refl)
           eq_refl).
Defined.

(** ** What a successful link reset has done *)

Section LinkRelations.

Variable R : LinkRecord -> LinkRecord -> Prop.
Hypothesis R_refl : forall l, R l l.
Hypothesis R_trans : forall l1 l2 l3, R l1 l2 -> R l2 l3 -> R l1 l3.

Lemma links_rel_same (n n' : Net) : links n' = links n -> links_rel R n n'.
Proof.
  intros H. split; rewrite H; [reflexivity|].
  intros i l l' Hl Hl'. rewrite Hl in Hl'. injection Hl' as <-. apply R_refl.
Qed.

Lemma links_rel_trans (n1 n2 n3 : Net) :
  links_rel R n1 n2 -> links_rel R n2 n3 -> links_rel R n1 n3.
Proof.
  intros [L1 H1] [L2 H2]. split; [congruence|].
  intros i l l'' Hl Hl''.
  destruct (lookup_lt_is_Some_2 (links n2) i) as [l' Hl'].
  { rewrite L1. eapply lookup_lt_Some. exact Hl. }
  eapply R_trans; eauto.
Qed.

Lemma links_rel_put_link (i : nat) (l' : LinkRecord) (n n0 : Net) :
  links n0 = links n ->
  R (link_at (links n) (Z.of_nat i)) l' -> links_rel R n (put_link i l' n0).
Proof.
  intros Hn Hl. split; rewrite links_put_link, Hn; [apply length_insert|].
  intros j lj lj' Hj Hj'. destruct (decide (i = j)) as [->|Hne].
  - rewrite list_lookup_insert_eq in Hj' by (eapply lookup_lt_Some, Hj).
    injection Hj' as <-. rewrite (link_at_lookup _ _ _ Hj) in Hl. exact Hl.
  - rewrite list_lookup_insert_ne in Hj' by assumption.
    rewrite Hj in Hj'. injection Hj' as <-. apply R_refl.
Qed.

Lemma for_each_links_rel (body : nat -> Net -> result Net) (idx : list nat) :
  (forall i n n', body i n = Done n' -> links_rel R n n') ->
  forall n n', for_each idx body n = Done n' -> links_rel R n n'.
Proof.
  intros Hbody n n' H.
  assert (Hstep : forall i s, links_rel R n s ->
            match body i s with Done s' => links_rel R n s' | _ => True end).
  { intros i s Hs. destruct (body i s) as [s'| |] eqn:Hb; auto.
    eapply links_rel_trans; [exact Hs|]. eapply Hbody, Hb. }
  pose proof (for_each_invariant (fun s => links_rel R n s) body idx Hstep n
                (links_rel_same n n eq_refl)) as Hinv.
  rewrite H in Hinv. exact Hinv.
Qed.

End LinkRelations.

Lemma marks_sent_refl (l : LinkRecord) : marks_sent l l.
Proof. repeat split. Qed.

Lemma marks_sent_trans (l1 l2 l3 : LinkRecord) :
  marks_sent l1 l2 -> marks_sent l2 l3 -> marks_sent l1 l3.
Proof. intros (A & B & C) (D & E & F). repeat split; congruence. Qed.

Lemma drained_refl (l : LinkRecord) : drained l l.
Proof. repeat split; auto. Qed.

Lemma drained_trans (l1 l2 l3 : LinkRecord) :
  drained l1 l2 -> drained l2 l3 -> drained l1 l3.
Proof.
  intros (A & B & C & D) (E & F & G & H).
  repeat split; [auto|congruence|congruence|].
  destruct H as [H|H]; [|right; exact H].
  destruct D as [D|D]; [left|right]; congruence.
Qed.

Lemma maybe_closed_refl (l : LinkRecord) : maybe_closed l l.
Proof. repeat split; auto. Qed.

Lemma maybe_closed_trans (l1 l2 l3 : LinkRecord) :
  maybe_closed l1 l2 -> maybe_closed l2 l3 -> maybe_closed l1 l3.
Proof. intros (A & B & C & D) (E & F & G & H). repeat split; [auto|congruence..]. Qed.

Section ResetPhases.

Variable cfg : Constants.
Variable env : Env.

Lemma reset_send_pass_rel (n n' : Net) :
  reset_send_pass env n = Done n' -> links_rel marks_sent n n'.
Proof.
  unfold reset_send_pass.
  apply (for_each_links_rel marks_sent marks_sent_refl marks_sent_trans).
  clear n n'. intros i n n'.
  set (l := link_at (links n) (Z.of_nat i)).
  destruct (sock_bad l);
    [intros [= <-]; apply links_rel_same; auto using marks_sent_refl|].
  destruct (size_write l =? 0).
  - destruct (sock_Send _ _ =? 1).
    + cbn [size_write set_size_write]. destruct (1 =? 1).
      * destruct (sock_Send _ _ =? 1); intros [= <-];
          apply (links_rel_put_link marks_sent marks_sent_refl);
          [reflexivity|repeat split..].
      * intros [= <-]. apply (links_rel_put_link marks_sent marks_sent_refl);
          [reflexivity|repeat split].
    + destruct (size_write l =? 1).
      * destruct (sock_Send _ _ =? 1); intros [= <-];
          apply (links_rel_put_link marks_sent marks_sent_refl);
          [reflexivity|repeat split..].
      * intros [= <-]. apply (links_rel_put_link marks_sent marks_sent_refl);
          [reflexivity|repeat split].
  - destruct (size_write l =? 1).
    + destruct (sock_Send _ _ =? 1); intros [= <-];
        apply (links_rel_put_link marks_sent marks_sent_refl);
        [reflexivity|repeat split..].
    + intros [= <-]. apply (links_rel_put_link marks_sent marks_sent_refl);
        [reflexivity|repeat split].
Qed.

Lemma reset_send_marks_rel (fuel : nat) :
  forall n n',
    reset_send_marks env fuel n = Done n' ->
    links_rel marks_sent n n' /\
    forall l, In l (links n') -> size_write l = 2 \/ sock_bad l = true.
Proof.
  induction fuel as [|fuel IH]; intros n n'; cbn [reset_send_marks];
    [discriminate|].
  destruct (reset_send_pass env n) as [n1| |] eqn:Hpass; cbn [rbind];
    try discriminate.
  apply reset_send_pass_rel in Hpass.
  destruct (reset_send_finished n1) eqn:Hfin.
  - intros [= <-]. split; [exact Hpass|].
    intros l Hin. unfold reset_send_finished in Hfin.
    rewrite forallb_forall in Hfin. specialize (Hfin l Hin).
    destruct (Z.eqb_spec (size_write l) 2); [left; assumption|].
    destruct (sock_bad l); [right; reflexivity|discriminate].
  - intros H. apply IH in H as [Hrel Hall]. split; [|exact Hall].
    eapply (links_rel_trans marks_sent);
      [exact marks_sent_refl|exact marks_sent_trans|exact Hpass|].
    eapply (links_rel_trans marks_sent);
      [exact marks_sent_refl|exact marks_sent_trans| |exact Hrel].
    apply links_rel_same; [exact marks_sent_refl|reflexivity].
Qed.

Lemma reset_wait_except_links (n n' : Net) :
  reset_wait_except n = Done n' -> links n' = links n.
Proof.
  unfold reset_wait_except. intros H.
  match type of H with
  | for_each ?idx ?body n = _ =>
      assert (Hstep : forall i s, links s = links n ->
                match body i s with Done s' => links s' = links n | _ => True end)
        by (intros i s Hs; cbn beta; destruct (negb _); exact Hs);
      pose proof (for_each_invariant (fun s => links s = links n) body idx
                    Hstep n eq_refl) as Hinv
  end.
  rewrite H in Hinv. exact Hinv.
Qed.

Lemma reset_drain_pass_rel (n n' : Net) :
  reset_drain_pass env n = Done n' -> links_rel drained n n'.
Proof.
  unfold reset_drain_pass.
  apply (for_each_links_rel drained drained_refl drained_trans).
  clear n n'. intros i n n'.
  set (l := link_at (links n) (Z.of_nat i)).
  destruct (size_read l =? 0);
    [|intros [= <-]; apply links_rel_same; auto using drained_refl].
  destruct (sock_AtMark l _ <? 0).
  { destruct (utils_Assert _ _); cbn [rbind]; try discriminate.
    intros [= <-]. apply links_rel_same; auto using drained_refl. }
  destruct (0 <? sock_AtMark l _).
  { intros [= <-]. apply (links_rel_put_link drained drained_refl);
      [reflexivity|]. repeat split; auto. }
  destruct (sock_Recv _ _) as [len data].
  intros [= <-]. apply (links_rel_put_link drained drained_refl); [reflexivity|].
  destruct (negb (sock_AtMark l _ =? 0)); destruct (len =? 0);
    repeat split; cbn; auto.
Qed.

Lemma reset_drain_rel (fuel : nat) :
  forall n n',
    reset_drain env fuel n = Done n' ->
    links_rel drained n n' /\
    forall l, In l (links n') -> size_read l <> 0 \/ sock_bad l = true.
Proof.
  induction fuel as [|fuel IH]; intros n n'; cbn [reset_drain]; [discriminate|].
  destruct (reset_drain_pass env n) as [n1| |] eqn:Hpass; cbn [rbind];
    try discriminate.
  apply reset_drain_pass_rel in Hpass.
  destruct (reset_drain_finished n1) eqn:Hfin.
  - intros [= <-]. split; [exact Hpass|].
    intros l Hin. unfold reset_drain_finished in Hfin.
    rewrite forallb_forall in Hfin. specialize (Hfin l Hin).
    destruct (Z.eqb_spec (size_read l) 0); [|left; assumption].
    destruct (sock_bad l); [right; reflexivity|discriminate].
  - intros H. apply IH in H as [Hrel Hall]. split; [|exact Hall].
    eapply (links_rel_trans drained);
      [exact drained_refl|exact drained_trans|exact Hpass|].
    eapply (links_rel_trans drained);
      [exact drained_refl|exact drained_trans| |exact Hrel].
    apply links_rel_same; [exact drained_refl|reflexivity].
Qed.

Lemma reset_sync_rel (fuel : nat) (n n' : Net) :
  reset_sync cfg env fuel n = Done n' -> links_rel maybe_closed n n'.
Proof.
  unfold reset_sync.
  apply (for_each_links_rel maybe_closed maybe_closed_refl maybe_closed_trans).
  clear n n'. intros i n n'.
  destruct (negb (sock_bad (link_at (links n) (Z.of_nat i))));
    [|intros [= <-]; apply links_rel_same; auto using maybe_closed_refl].
  destruct (sock_Recv _ _) as [len data].
  destruct (len =? 0).
  - intros [= <-]. apply (links_rel_put_link maybe_closed maybe_closed_refl);
      [reflexivity|repeat split; auto].
  - destruct (0 <? len).
    + destruct (utils_Assert _ _); cbn [rbind]; try discriminate.
      destruct (utils_Assert _ _); cbn [rbind]; try discriminate.
      intros H. apply reset_send_ack_links in H.
      apply links_rel_same; [exact maybe_closed_refl|exact H].
    + destruct (utils_Assert _ _); cbn [rbind]; try discriminate.
      intros H. apply reset_send_ack_links in H.
      apply links_rel_same; [exact maybe_closed_refl|exact H].
Qed.

Lemma reset_wait_ack_rel (n n' : Net) :
  reset_wait_ack cfg env n = Done n' -> links_rel maybe_closed n n'.
Proof.
  unfold reset_wait_ack.
  apply (for_each_links_rel maybe_closed maybe_closed_refl maybe_closed_trans).
  clear n n'. intros i n n'.
  destruct (negb (sock_bad (link_at (links n) (Z.of_nat i))));
    [|intros [= <-]; apply links_rel_same; auto using maybe_closed_refl].
  destruct (sock_Recv _ _) as [len data].
  destruct (len =? 0).
  - intros [= <-]. apply (links_rel_put_link maybe_closed maybe_closed_refl);
      [reflexivity|repeat split; auto].
  - destruct (0 <? len).
    + destruct (utils_Assert _ _); cbn [rbind]; try discriminate.
      intros [= <-]. apply links_rel_same; [exact maybe_closed_refl|reflexivity].
    + destruct (utils_Assert _ _); cbn [rbind]; try discriminate.
      intros [= <-]. apply links_rel_same; [exact maybe_closed_refl|reflexivity].
Qed.

Lemma reset_init_lookup (n : Net) (i : nat) (l1 : LinkRecord) :
  links (reset_init cfg n) !! i = Some l1 ->
  exists l0, links n !! i = Some l0 /\
             sock_bad l1 = sock_bad l0 /\ size_read l1 = 0 /\
             buffer_size l1 = reset_buffer_size cfg.
Proof.
  unfold reset_init. cbn [links set_links].
  change (map ?f ?l) with (f <$> l). rewrite list_lookup_fmap.
  destruct (links n !! i) as [l0|]; cbn; [|discriminate].
  intros [= <-]. exists l0. auto.
Qed.

(** X24. When [TryResetLinks] returns [kSuccess], no link was added or
    removed, no socket was bad when it was called, and on every link the reset
    went through: both marks were sent ([size_write] is 2), the inbound mark
    was reached ([size_read] is 1), the socket is good and the ring has the
    size [InitBuffer] gave it. So a socket that is bad on entry makes the call
    return [kSockError]. *)
Theorem TryResetLinks_success (fuel : nat) (net net' : Net) :
  TryResetLinks cfg env fuel net = Done (kSuccess, net') ->
  length (links net') = length (links net) /\
  (forall i l', links net' !! i = Some l' -> reset_done cfg l') /\
  (forall i l, links net !! i = Some l -> sock_bad l = false).
Proof.
  unfold TryResetLinks. intros H.
  destruct (reset_send_marks env fuel (reset_init cfg net)) as [n1| |] eqn:H1;
    cbn [rbind] in H; try discriminate.
  destruct (reset_wait_except n1) as [n2| |] eqn:H2; cbn [rbind] in H;
    try discriminate.
  destruct (reset_drain env fuel n2) as [n3| |] eqn:H3; cbn [rbind] in H;
    try discriminate.
  destruct (reset_sync cfg env fuel n3) as [n4| |] eqn:H4; cbn [rbind] in H;
    try discriminate.
  destruct (reset_wait_ack cfg env n4) as [n5| |] eqn:H5; cbn [rbind] in H;
    try discriminate.
  injection H as Hv <-.
  pose proof (proj1 (reset_verdict_success n5) Hv) as Hgood. clear Hv.
  rename Hgood into Hv.
  apply reset_send_marks_rel in H1 as [[L1 R1] F1].
  apply reset_wait_except_links in H2.
  apply reset_drain_rel in H3 as [[L3 R3] F3].
  apply reset_sync_rel in H4 as [L4 R4].
  apply reset_wait_ack_rel in H5 as [L5 R5].
  assert (Linit : length (links (reset_init cfg net)) = length (links net)).
  { unfold reset_init. cbn. apply length_map. }
  assert (Hlen : length (links n5) = length (links net)).
  { rewrite L5, L4, L3, H2, L1. exact Linit. }
  assert (Hall : forall i l5, links n5 !! i = Some l5 ->
            reset_done cfg l5 /\
            forall l0, links net !! i = Some l0 -> sock_bad l0 = false).
  { intros i l5 Hi5.
    assert (Hi : (i < length (links n5))%nat) by (eapply lookup_lt_Some; exact Hi5).
    destruct (lookup_lt_is_Some_2 (links n4) i) as [l4 Hi4]; [lia|].
    destruct (lookup_lt_is_Some_2 (links n3) i) as [l3 Hi3]; [lia|].
    destruct (lookup_lt_is_Some_2 (links n1) i) as [l1 Hi1];
      [rewrite <- H2; lia|].
    destruct (lookup_lt_is_Some_2 (links (reset_init cfg net)) i) as [li Hii];
      [lia|].
    destruct (reset_init_lookup net i li Hii) as (l0 & Hi0 & Hb0 & Hr0 & Hs0).
    assert (Hi2 : links n2 !! i = Some l1) by (rewrite H2; exact Hi1).
    destruct (R5 i l4 l5 Hi4 Hi5) as (B5 & W5 & Rd5 & S5).
    destruct (R4 i l3 l4 Hi3 Hi4) as (B4 & W4 & Rd4 & S4).
    destruct (R3 i l1 l3 Hi2 Hi3) as (B3 & W3 & S3 & Rd3).
    destruct (R1 i li l1 Hii Hi1) as (B1 & Rd1 & S1).
    assert (Hgood5 : sock_bad l5 = false).
    { apply Hv. apply list_elem_of_In. eapply list_elem_of_lookup_2. exact Hi5. }
    assert (Hgood4 : sock_bad l4 = false).
    { destruct (sock_bad l4); [|reflexivity]. rewrite B5 in Hgood5; auto. }
    assert (Hgood3 : sock_bad l3 = false).
    { destruct (sock_bad l3); [|reflexivity]. rewrite B4 in Hgood4; auto. }
    assert (Hgood1 : sock_bad l1 = false).
    { destruct (sock_bad l1); [|reflexivity]. rewrite B3 in Hgood3; auto. }
    assert (Hw1 : size_write l1 = 2).
    { destruct (F1 l1) as [Hw|Hb]; [|exact Hw|congruence].
      apply list_elem_of_In. eapply list_elem_of_lookup_2. exact Hi1. }
    assert (Hr3 : size_read l3 = 1).
    { destruct (F3 l3) as [Hr|Hb]; [| |congruence].
      - apply list_elem_of_In. eapply list_elem_of_lookup_2. exact Hi3.
      - destruct Rd3 as [Rd3|Rd3]; [|exact Rd3]. congruence. }
    split.
    - repeat split; congruence.
    - intros l0' Hl0'. rewrite Hi0 in Hl0'. injection Hl0' as <-. congruence. }
  split; [exact Hlen|]. split.
  - intros i l' Hi. apply (Hall i l' Hi).
  - intros i l Hi.
    destruct (lookup_lt_is_Some_2 (links n5) i) as [l5 Hi5].
    { rewrite Hlen. eapply lookup_lt_Some. exact Hi. }
    apply (proj2 (Hall i l5 Hi5) l Hi).
Qed.

End ResetPhases.

Lemma TryResetLinks_success_witness :
  TryResetLinks sample_constants reset_ok_env 5 (mkNet [mkLink false 7 9 64] 0)
  = Done (kSuccess, mkNet [mkLink false 1 2 1024] 8) /\
  reset_done sample_constants (mkLink false 1 2 1024).
Proof.
  assert (H : TryResetLinks sample_constants reset_ok_env 5
                (mkNet [mkLink false 7 9 64] 0)
              = Done (kSuccess, mkNet [mkLink false 1 2 1024] 8))
    by (vm_compute; reflexivity).
  split; [exact H|].
  exact (proj1 (proj2 (TryResetLinks_success sample_constants reset_ok_env 5 _ _ H))
           0%nat _ eq_refl).
Defined.

(** ** The transfer of a node that has the data, on a network that keeps
    going *)

Lemma pending_bytes_nonneg (size : Z) (req_in : list bool) (ls : list LinkRecord) :
  forall i,
    (forall l, In l ls -> size_write l <= size) ->
    0 <= pending_bytes size req_in i ls.
Proof.
  induction ls as [|l rest IH]; intros i Hall; cbn; [lia|].
  assert (size_write l <= size) by (apply Hall; left; reflexivity).
  assert (0 <= pending_bytes size req_in (S i) rest).
  { apply IH. intros l' Hl'. apply Hall. right. exact Hl'. }
  destruct (req_at req_in i); lia.
Qed.

Lemma pending_bytes_bound (size : Z) (req_in : list bool) (ls : list LinkRecord) :
  forall i,
    0 <= size ->
    (forall l, In l ls -> size_write l = 0) ->
    pending_bytes size req_in i ls <= size * Z.of_nat (length ls).
Proof.
  induction ls as [|l rest IH]; intros i Hs Hall; cbn [pending_bytes length]; [lia|].
  assert (size_write l = 0) by (apply Hall; left; reflexivity).
  assert (pending_bytes size req_in (S i) rest <= size * Z.of_nat (length rest)).
  { apply IH; [exact Hs|]. intros l' Hl'. apply Hall. right. exact Hl'. }
  destruct (req_at req_in i); lia.
Qed.

Lemma pending_bytes_less (size : Z) (req_in : list bool) (ls : list LinkRecord) :
  forall (ls' : list LinkRecord) (i : nat),
    length ls' = length ls ->
    (forall j l, ls !! j = Some l ->
       exists l', ls' !! j = Some l' /\ sent_more size req_in (i + j) l l') ->
    pending_bytes size req_in i ls' <= pending_bytes size req_in i ls /\
    ((exists j l, ls !! j = Some l /\ req_at req_in (i + j) = true /\
                  size_write l < size) ->
     pending_bytes size req_in i ls' < pending_bytes size req_in i ls).
Proof.
  induction ls as [|l rest IH]; intros ls' i Hlen Hall.
  - destruct ls'; [|discriminate]. split; [cbn; lia|].
    intros (j & l & Hj & _). discriminate.
  - destruct ls' as [|l' rest']; [discriminate|]. cbn [pending_bytes].
    destruct (Hall 0%nat l eq_refl) as (l1 & Hl1 & Hmore & Hstrict).
    cbn in Hl1. injection Hl1 as <-. rewrite Nat.add_0_r in Hstrict.
    destruct (IH rest' (S i)) as [Hle Hlt].
    { cbn in Hlen. lia. }
    { intros j lj Hj. destruct (Hall (S j) lj Hj) as (lj' & Hj' & Hs).
      exists lj'. split; [exact Hj'|].
      replace (S i + j)%nat with (i + S j)%nat by lia. exact Hs. }
    split.
    + destruct (req_at req_in i); lia.
    + intros (j & lj & Hj & Hreq & Hpend). destruct j as [|j].
      * cbn in Hj. injection Hj as <-. rewrite Nat.add_0_r in Hreq.
        rewrite Hreq. specialize (Hstrict Hreq Hpend). lia.
      * assert (pending_bytes size req_in (S i) rest'
                < pending_bytes size req_in (S i) rest).
        { apply Hlt. exists j, lj. split; [exact Hj|].
          replace (S i + j)%nat with (i + S j)%nat by lia. auto. }
        destruct (req_at req_in i); lia.
Qed.

Lemma existsb_none {A : Type} (f : A -> bool) (l : list A) :
  (forall x, f x = false) -> existsb f l = false.
Proof.
  intros H. induction l as [|x l IH]; cbn; [reflexivity|]. rewrite H. exact IH.
Qed.

Section SenderProgress.

Variable cfg : Constants.
Variable env : Env.
Hypothesis Hlive : lively env.

Variables size recv_link : Z.
Variable req_in : list bool.
Hypothesis Hsize : 0 < size < SIZE_MODULUS.
Hypothesis Hrecv : recv_link < 0.

(** One pass of the loop of lines 537-541 over the links from [k] on, when
    those before [k] have been dealt with. *)
Lemma recover_have_pass (ls0 : list LinkRecord) (sel : Selected)
    (buf : list byte) :
  (forall l, In l ls0 -> 0 <= size_write l <= size) ->
  (forall i, CheckWrite sel i = pending_write size req_in ls0 i) ->
  forall (m k : nat) (net : Net),
    (k + m <= length ls0)%nat ->
    sent_up_to size req_in k ls0 (links net) ->
    exists net',
      for_range (seq k m)
        (fun i '(buf, net) =>
           if req_at req_in i && CheckWrite sel i then
             let '(ok, l') :=
               WriteFromArray cfg size (link_at (links net) (Z.of_nat i))
                 (env_send env (clock net)) in
             let net' := tick (set_links
                           (update_link (links net) (Z.of_nat i) (fun _ => l')) net) in
             if ok then Done (Next (buf, net'))
             else Done (Return (kSockError, (buf, net')))
           else Done (Next (buf, net)))
        (buf, net)
      = Done (Next (buf, net')) /\
      sent_up_to size req_in (k + m) ls0 (links net').
Proof.
  intros Hok Hsel. induction m as [|m IH]; intros k net Hkm Hup.
  - exists net. cbn. rewrite Nat.add_0_r. auto.
  - cbn [seq for_range].
    destruct Hup as [Hlen Hup].
    destruct (lookup_lt_is_Some_2 ls0 k) as [l0 Hk0]; [lia|].
    destruct (Hup k l0 Hk0) as (l & Hl & _ & Hsame).
    specialize (Hsame (le_n k)). subst l.
    assert (Hl0 : 0 <= size_write l0 <= size).
    { apply Hok. apply list_elem_of_In. eapply list_elem_of_lookup_2. exact Hk0. }
    rewrite Hsel. unfold pending_write at 1.
    rewrite (link_at_lookup ls0 k l0 Hk0).
    destruct (req_at req_in k) eqn:Hreq; cbn [andb].
    2:{ destruct (IH (S k) net) as (net' & E & Hup'); [lia| |].
        { split; [exact Hlen|]. intros j lj Hj.
          destruct (Hup j lj Hj) as (l & Hl' & Hlt & Hge).
          exists l. split; [exact Hl'|]. split.
          - intros Hjk. destruct (decide (j = k)) as [->|Hne].
            + rewrite Hk0 in Hj. injection Hj as <-.
              rewrite Hl in Hl'. injection Hl' as <-.
              split; [lia|]. rewrite Hreq. discriminate.
            + apply Hlt. lia.
          - intros Hjk. apply Hge. lia. }
        exists net'. split; [exact E|].
        replace (k + S m)%nat with (S k + m)%nat by lia. exact Hup'. }
    destruct (Z.eqb_spec (size_write l0) size) as [Hfull|Hpend]; cbn [negb].
    { destruct (IH (S k) net) as (net' & E & Hup'); [lia| |].
      { split; [exact Hlen|]. intros j lj Hj.
        destruct (Hup j lj Hj) as (l & Hl' & Hlt & Hge).
        exists l. split; [exact Hl'|]. split.
        - intros Hjk. destruct (decide (j = k)) as [->|Hne].
          + rewrite Hk0 in Hj. injection Hj as <-.
            rewrite Hl in Hl'. injection Hl' as <-.
            split; [lia|]. intros _ Hlt'. lia.
          + apply Hlt. lia.
        - intros Hjk. apply Hge. lia. }
      exists net'. split; [exact E|].
      replace (k + S m)%nat with (S k + m)%nat by lia. exact Hup'. }
    rewrite (link_at_lookup (links net) k l0 Hl).
    unfold WriteFromArray.
    destruct Hlive as (_ & _ & Hsend).
    destruct (Hsend (clock net)) as (n & -> & Hn).
    assert (Hsub : size_sub size (size_write l0) = size - size_write l0).
    { unfold size_sub. apply Z.mod_small. lia. }
    rewrite Hsub. unfold sock_Send.
    set (len := Z.max 0 (Z.min n (size - size_write l0))).
    assert (Hlen' : 1 <= len <= size - size_write l0) by (unfold len; lia).
    destruct (Z.eqb_spec len (-1)); [lia|].
    assert (Hadd : size_add (size_write l0) len = size_write l0 + len).
    { unfold size_add. apply Z.mod_small. lia. }
    rewrite Hadd.
    rewrite (update_link_in_range (links net) k l0 _ Hl).
    set (l1 := set_size_write (size_write l0 + len) l0).
    destruct (IH (S k) (tick (set_links (<[k := l1]> (links net)) net)))
      as (net' & E & Hup'); [lia| |].
    { split; [cbn; rewrite length_insert; exact Hlen|]. intros j lj Hj. cbn [links tick set_links].
      destruct (decide (j = k)) as [->|Hne].
      - rewrite Hk0 in Hj. injection Hj as <-. exists l1.
        split; [apply list_lookup_insert_eq; eapply lookup_lt_Some; exact Hl|].
        split; [|lia]. intros _. unfold sent_more, l1. cbn. split; lia.
      - destruct (Hup j lj Hj) as (l & Hl' & Hlt & Hge).
        exists l. rewrite list_lookup_insert_ne by auto.
        split; [exact Hl'|]. split.
        + intros Hjk. apply Hlt. lia.
        + intros Hjk. apply Hge. lia. }
    exists net'. split; [exact E|].
    replace (k + S m)%nat with (S k + m)%nat by lia. exact Hup'.
Qed.

Lemma recover_step_sender (buf : list byte) (net : Net) :
  (forall l, In l (links net) -> 0 <= size_write l <= size) ->
  recover_step cfg env kHaveData size recv_link req_in (buf, net)
  = Done (Return (kSuccess, (buf, net))) \/
  exists net',
    recover_step cfg env kHaveData size recv_link req_in (buf, net)
    = Done (Next (buf, net')) /\
    (forall l, In l (links net') -> 0 <= size_write l <= size) /\
    pending_bytes size req_in 0 (links net')
    < pending_bytes size req_in 0 (links net).
Proof.
  intros Hok. unfold recover_step.
  destruct (transfer_finished size recv_link req_in (links net)) eqn:Hfin;
    [left; reflexivity|right].
  cbn [do_select].
  rewrite existsb_none
    by (intros i; cbn; destruct Hlive as (Hsel & _); apply (Hsel (clock net) i)).
  unfold recover_have. cbn [snd tick links].
  destruct (recover_have_pass (links net)
              (mkSelected
                 (fun i => rd_except (env_select env (clock net) i))
                 (fun i => watch_read size recv_link (links net) i
                           && rd_read (env_select env (clock net) i))
                 (fun i => watch_write kHaveData size recv_link req_in (links net) i
                           && rd_write (env_select env (clock net) i)))
              buf Hok) with (m := length (links net)) (k := 0%nat) (net := tick net)
    as (net' & E & Hlen & Hup).
  { intros i. cbn. unfold watch_write. cbn.
    destruct Hlive as (Hsel & _). destruct (Hsel (clock net) i) as (_ & _ & ->).
    rewrite !andb_true_r. reflexivity. }
  { cbn. lia. }
  { split; [reflexivity|]. intros j l0 Hj. exists l0. cbn.
    split; [exact Hj|]. split; [lia|reflexivity]. }
  exists net'. split; [exact E|].
  assert (Hmore : forall j l, links net !! j = Some l ->
            exists l', links net' !! j = Some l' /\
                       sent_more size req_in (0 + j) l l').
  { intros j l Hj. destruct (Hup j l Hj) as (l' & Hj' & Hlt & _).
    exists l'. split; [exact Hj'|]. apply Hlt. cbn.
    eapply lookup_lt_Some. exact Hj. }
  split.
  - intros l' Hin. apply list_elem_of_In, list_elem_of_lookup in Hin as [j Hj'].
    destruct (lookup_lt_is_Some_2 (links net) j) as [l Hj].
    { rewrite <- Hlen. eapply lookup_lt_Some. exact Hj'. }
    destruct (Hmore j l Hj) as (l'' & Hj'' & [Hle _]).
    rewrite Hj' in Hj''. injection Hj'' as <-.
    assert (0 <= size_write l <= size).
    { apply Hok. apply list_elem_of_In. eapply list_elem_of_lookup_2. exact Hj. }
    lia.
  - apply (pending_bytes_less size req_in (links net) (links net') 0 Hlen Hmore).
    unfold transfer_finished in Hfin.
    apply not_true_iff_false in Hfin.
    destruct (forallb_forall
                (fun i => negb (watch_read size recv_link (links net) i)
                          && negb (pending_write size req_in (links net) i))
                (seq 0 (length (links net)))) as [_ Hall].
    assert (Hex : exists i, In i (seq 0 (length (links net))) /\
                            pending_write size req_in (links net) i = true).
    { clear - Hfin Hrecv.
      induction (seq 0 (length (links net))) as [|i idx IH].
      - exfalso. apply Hfin. reflexivity.
      - cbn [forallb] in Hfin.
        destruct (pending_write size req_in (links net) i) eqn:Hp.
        + exists i. split; [left; reflexivity|exact Hp].
        + assert (Hw : watch_read size recv_link (links net) i = false).
          { unfold watch_read.
            destruct (Z.eqb_spec (Z.of_nat i) recv_link); [lia|reflexivity]. }
          rewrite Hw in Hfin. cbn in Hfin.
          destruct IH as (j & Hin & Hj); [exact Hfin|].
          exists j. split; [right; exact Hin|exact Hj]. }
    destruct Hex as (i & Hin & Hp). apply in_seq in Hin.
    destruct (lookup_lt_is_Some_2 (links net) i) as [l Hi]; [lia|].
    unfold pending_write in Hp. rewrite (link_at_lookup _ _ _ Hi) in Hp.
    apply andb_true_iff in Hp as [Hreq Hne].
    apply negb_true_iff, Z.eqb_neq in Hne.
    assert (0 <= size_write l <= size).
    { apply Hok. apply list_elem_of_In. eapply list_elem_of_lookup_2. exact Hi. }
    exists i, l. split; [exact Hi|]. split; [exact Hreq|lia].
Qed.

Lemma recover_loop_sender (fuel : nat) :
  forall (buf : list byte) (net : Net),
    (forall l, In l (links net) -> 0 <= size_write l <= size) ->
    (Z.to_nat (pending_bytes size req_in 0 (links net)) < fuel)%nat ->
    exists net',
      recover_loop cfg env fuel kHaveData size recv_link req_in (buf, net)
      = Done (kSuccess, (buf, net')).
Proof.
  induction fuel as [|fuel IH]; intros buf net Hok Hfuel; [lia|].
  cbn [recover_loop].
  destruct (recover_step_sender buf net Hok) as [->|(net1 & -> & Hok1 & Hless)].
  - exists net. reflexivity.
  - apply IH; [exact Hok1|].
    assert (0 <= pending_bytes size req_in 0 (links net1)).
    { apply pending_bytes_nonneg. intros l Hl. apply Hok1. exact Hl. }
    lia.
Qed.

Lemma any_request_passes (rest : list bool) :
  forall (i : nat) (b : bool), exists b', any_request rest i recv_link b = Done b'.
Proof.
  induction rest as [|r rest IH]; intros i b; cbn; [eauto|].
  destruct r; [|apply IH].
  destruct (Z.eqb_spec (Z.of_nat i) recv_link); [lia|]. cbn. apply IH.
Qed.

End SenderProgress.

(** X26. A node that has the data completes the transfer on a network that
    keeps going: when no socket reports an exception, every watched socket is
    ready and every send takes at least one byte, [TryRecoverData] with role
    [kHaveData] (and no inbound link) returns [kSuccess], with the buffer as
    it was, once it is given as many passes of its loop as there are bytes to
    send to all links together, and one more. *)
Theorem TryRecoverData_sender_completes (cfg : Constants) (env : Env)
    (fuel : nat) (buf : list byte) (size recv_link : Z) (req_in : list bool)
    (net : Net) :
  lively env ->
  0 <= size < SIZE_MODULUS ->
  recv_link < 0 ->
  length req_in = length (links net) ->
  (Z.to_nat (size * Z.of_nat (length (links net))) < fuel)%nat ->
  exists net',
    TryRecoverData cfg env fuel kHaveData buf size recv_link req_in net
    = Done (kSuccess, buf, net').
Proof.
  intros Hlive Hs Hrecv Hlen Hfuel. unfold TryRecoverData.
  destruct (Nat.eqb_spec (length (links net)) 0); cbn [orb]; [eauto|].
  destruct (Z.eqb_spec size 0); [eauto|].
  rewrite Hlen, Nat.eqb_refl. cbn [utils_Assert rbind].
  destruct (any_request_passes recv_link Hrecv req_in 0 (is_kRequestData kHaveData))
    as [b ->].
  cbn [rbind]. destruct b; cbn [negb]; [|eauto].
  rewrite orb_true_r. cbn [utils_Assert rbind].
  assert (Hzero : forall l, In l (map ResetSize (links net)) -> size_write l = 0).
  { intros l Hin. apply in_map_iff in Hin as (l0 & <- & _). reflexivity. }
  destruct (recover_loop_sender cfg env Hlive size recv_link req_in
              ltac:(lia) Hrecv fuel buf
              (set_links (map ResetSize (links net)) net)) as (net' & ->).
  - intros l Hin. cbn in Hin. rewrite (Hzero l Hin). lia.
  - cbn [links set_links].
    pose proof (pending_bytes_bound size req_in (map ResetSize (links net)) 0
                  ltac:(lia) Hzero) as Hb.
    rewrite length_map in Hb.
    pose proof (pending_bytes_nonneg size req_in (map ResetSize (links net)) 0) as Hn.
    assert (0 <= pending_bytes size req_in 0 (map ResetSize (links net))).
    { apply Hn. intros l Hin. rewrite (Hzero l Hin). lia. }
    lia.
  - cbn [rbind]. eauto.
Qed.

Lemma TryRecoverData_sender_completes_witness :
  exists net',
    TryRecoverData sample_constants one_source_env 5 kHaveData operands 4 (-1)
      [true] one_link_net
    = Done (kSuccess, operands, net').
Proof.
  apply (TryRecoverData_sender_completes sample_constants one_source_env 5
           operands 4 (-1) [true] one_link_net lively_one_source_env).
  - unfold SIZE_MODULUS. lia.
  - lia.
  - reflexivity.
  - vm_compute. lia.
Defined.

(** ** The transfer of a node that requests the data, on a network that
    keeps going *)

Lemma for_range_skip {S R : Type} (body : nat -> S -> result (ctl S R))
    (idx : list nat) (s : S) :
  (forall i s', body i s' = Done (Next s')) ->
  for_range idx body s = Done (Next s).
Proof.
  intros H. induction idx as [|i idx IH]; cbn; [reflexivity|].
  rewrite H. exact IH.
Qed.

Lemma any_request_quiet (recv_link : Z) (b : bool) (rest : list bool) :
  forall i : nat,
    (forall r, In r rest -> r = false) ->
    any_request rest i recv_link b = Done b.
Proof.
  induction rest as [|r rest IH]; intros i Hall; cbn; [reflexivity|].
  rewrite (Hall r) by (left; reflexivity). apply IH.
  intros r' Hr'. apply Hall. right. exact Hr'.
Qed.

Section RequesterProgress.

Variable cfg : Constants.
Variable env : Env.
Hypothesis Hlive : lively env.

Variable size : Z.
Variable pid : nat.
Variable req_in : list bool.
Hypothesis Hsize : 0 < size < SIZE_MODULUS.
Hypothesis Hreq : forall i, req_at req_in i = false.

Lemma recover_step_requester (buf : list byte) (net : Net) (l : LinkRecord) :
  links net !! pid = Some l ->
  0 <= size_read l <= size ->
  recover_step cfg env kRequestData size (Z.of_nat pid) req_in (buf, net)
  = Done (Return (kSuccess, (buf, net))) \/
  exists buf' net' l',
    recover_step cfg env kRequestData size (Z.of_nat pid) req_in (buf, net)
    = Done (Next (buf', net')) /\
    links net' !! pid = Some l' /\
    size_read l < size_read l' <= size.
Proof.
  intros Hl Hb. unfold recover_step.
  destruct (transfer_finished size (Z.of_nat pid) req_in (links net)) eqn:Hfin;
    [left; reflexivity|right].
  assert (Hne : size_read l <> size).
  { intros Heq. apply not_true_iff_false in Hfin. apply Hfin.
    unfold transfer_finished. apply forallb_forall. intros i _.
    unfold pending_write. rewrite Hreq. cbn [andb negb]. rewrite andb_true_r.
    unfold watch_read.
    destruct (Z.eqb_spec (Z.of_nat i) (Z.of_nat pid)) as [e|]; [|reflexivity].
    apply Nat2Z.inj in e. subst i.
    rewrite (link_at_lookup _ _ _ Hl), Heq, Z.eqb_refl. reflexivity. }
  cbn [do_select].
  rewrite existsb_none
    by (intros i; cbn; destruct Hlive as (Hsel & _); apply (Hsel (clock net) i)).
  unfold recover_request. cbn [CheckRead]. rewrite Nat2Z.id.
  unfold watch_read. rewrite Z.eqb_refl.
  cbn [tick links clock].
  rewrite (link_at_lookup _ _ _ Hl).
  destruct (Z.eqb_spec (size_read l) size); [contradiction|]. cbn [negb andb].
  destruct Hlive as (Hsel & Hrecv & _).
  destruct (Hsel (clock net) pid) as (_ & -> & _).
  unfold ReadToArray.
  destruct (Z.eqb_spec size (size_read l)); [lia|].
  destruct (Hrecv (S (clock net))) as (data & -> & Hdata).
  assert (Hsub : size_sub size (size_read l) = size - size_read l).
  { unfold size_sub. apply Z.mod_small. lia. }
  rewrite Hsub. unfold sock_Recv.
  set (got := take (Z.to_nat (size - size_read l)) data).
  assert (Hgot : 1 <= Z.of_nat (length got) <= size - size_read l).
  { unfold got. rewrite length_take. split; [|lia].
    destruct data as [|d data]; [contradiction|].
    destruct (Z.to_nat (size - size_read l)) eqn:E; [lia|]. cbn. lia. }
  destruct (Z.eqb_spec (Z.of_nat (length got)) 0); [lia|].
  destruct (Z.eqb_spec (Z.of_nat (length got)) (-1)); [lia|].
  cbn [rbind].
  rewrite for_range_skip
    by (intros i [b n']; rewrite Hreq; reflexivity).
  eexists _, _, _. split; [reflexivity|]. cbn [links tick set_links].
  rewrite (update_link_in_range _ _ _ _ Hl).
  rewrite list_lookup_insert_eq by (eapply lookup_lt_Some; exact Hl).
  split; [reflexivity|]. cbn [size_read set_size_read].
  unfold size_add. rewrite Z.mod_small by lia. lia.
Qed.

Lemma recover_loop_requester_completes (fuel : nat) :
  forall (buf : list byte) (net : Net) (l : LinkRecord),
    links net !! pid = Some l ->
    0 <= size_read l <= size ->
    (Z.to_nat (size - size_read l) < fuel)%nat ->
    exists buf' net',
      recover_loop cfg env fuel kRequestData size (Z.of_nat pid) req_in (buf, net)
      = Done (kSuccess, (buf', net')).
Proof.
  induction fuel as [|fuel IH]; intros buf net l Hl Hb Hfuel; [lia|].
  cbn [recover_loop].
  destruct (recover_step_requester buf net l Hl Hb)
    as [->|(buf1 & net1 & l1 & -> & Hl1 & Hb1)].
  - eauto.
  - apply (IH buf1 net1 l1 Hl1); lia.
Qed.

End RequesterProgress.

(** X27. A node that requests the data receives all of it on a network that
    keeps going: when no socket reports an exception, every watched socket is
    ready and every read finds at least one byte, [TryRecoverData] with role
    [kRequestData], an inbound link among its links and no link that asks it
    for data returns [kSuccess] once it is given one pass of its loop for
    every byte of [size], and one more. *)
Theorem TryRecoverData_requester_completes (cfg : Constants) (env : Env)
    (fuel : nat) (buf : list byte) (size : Z) (pid : nat) (req_in : list bool)
    (net : Net) :
  lively env ->
  0 <= size < SIZE_MODULUS ->
  (pid < length (links net))%nat ->
  length req_in = length (links net) ->
  (forall i, req_at req_in i = false) ->
  (Z.to_nat size < fuel)%nat ->
  exists buf' net',
    TryRecoverData cfg env fuel kRequestData buf size (Z.of_nat pid) req_in net
    = Done (kSuccess, buf', net').
Proof.
  intros Hlive Hs Hpid Hlen Hreq Hfuel. unfold TryRecoverData.
  destruct (Nat.eqb_spec (length (links net)) 0); cbn [orb]; [eauto|].
  destruct (Z.eqb_spec size 0); [eauto|].
  rewrite Hlen, Nat.eqb_refl. cbn [utils_Assert rbind].
  rewrite any_request_quiet.
  2:{ intros r Hr. apply list_elem_of_In, list_elem_of_lookup in Hr as [i Hi].
      specialize (Hreq i). unfold req_at in Hreq. rewrite Hi in Hreq. exact Hreq. }
  cbn [rbind is_kRequestData negb].
  destruct (Z.leb_spec 0 (Z.of_nat pid)); [|lia]. cbn [orb utils_Assert rbind].
  destruct (lookup_lt_is_Some_2 (links net) pid Hpid) as [l Hl].
  destruct (recover_loop_requester_completes cfg env Hlive size pid req_in
              ltac:(lia) Hreq fuel buf
              (set_links (map ResetSize (links net)) net) (ResetSize l))
    as (buf' & net' & ->).
  - cbn [links set_links].
    change (map ResetSize (links net)) with (ResetSize <$> links net).
    rewrite list_lookup_fmap, Hl. reflexivity.
  - cbn. lia.
  - cbn. rewrite Z.sub_0_r. exact Hfuel.
  - cbn [rbind]. eauto.
Qed.

Lemma TryRecoverData_requester_completes_witness :
  exists buf' net',
    TryRecoverData sample_constants one_source_env 5 kRequestData four_zeros 4
      (Z.of_nat 0) [false] one_link_net
    = Done (kSuccess, buf', net').
Proof.
  apply (TryRecoverData_requester_completes sample_constants one_source_env 5
           four_zeros 4 0 [false] one_link_net lively_one_source_env).
  - unfold SIZE_MODULUS. lia.
  - cbn. lia.
  - reflexivity.
  - intros i. destruct i as [|[|i]]; reflexivity.
  - vm_compute. lia.
Defined.

(** ** Recovery as the requester of a transfer *)

Section RequesterRecovery.

Variable cfg : Constants.
Variable env : Env.
Variable resbuf : ResultBuffer.
Variable size : Z.
Variable req : ActionSummary.
Hypothesis Hplain : no_flags req.

(** One pass of the loop of [RecoverExec] for a request without flags: it
    leaves the buffer alone unless the pass makes the worker a requester,
    and it returns true only from a transfer that succeeded for the worker
    as requester, with the buffer that transfer left. *)
Lemma RecoverExec_step_requester (fuel : nat) (st : Exec) :
  let asked :=
    is_success (fst (env_reduce env (clock (ex_net st)) req))
    && requester_of req (snd (env_reduce env (clock (ex_net st)) req)) in
  match RecoverExec_step cfg env fuel resbuf size req st with
  | Done (Next st') => asked = false -> ex_buf st' = ex_buf st
  | Done (Return r) =>
      (asked = false -> fst r = false /\ ex_buf (snd r) = ex_buf st) /\
      (fst r = true ->
       TryGetResult cfg env fuel resbuf (ex_buf st) size (min_seqno req) true
         (tick (ex_net st))
       = Done (kSuccess, ex_buf (snd r), ex_net (snd r)))
  | _ => True
  end.
Proof.
  destruct Hplain as (Hl & Hp & Ha).
  unfold RecoverExec_step, requester_of.
  destruct (env_reduce env (clock (ex_net st)) req) as [succ act]. cbn [fst snd].
  destruct succ; cbn [CheckAndRecover is_success negb andb]; try (intros _; reflexivity).
  rewrite Hl, Hp, Ha.
  assert (Hget : forall st0,
            ex_buf st0 = ex_buf st -> ex_net st0 = tick (ex_net st) ->
            match
              ('(ok, st1) <~ exec_get_result cfg env fuel resbuf size req act st0 ;
               if negb ok then Done (Next st1) else
               if min_seqno req =? min_seqno act
               then Done (Return (true, st1)) else Done (Next st1))
            with
            | Done (Next st') =>
                (min_seqno req =? min_seqno act) = false -> ex_buf st' = ex_buf st
            | Done (Return r) =>
                ((min_seqno req =? min_seqno act) = false ->
                 fst r = false /\ ex_buf (snd r) = ex_buf st) /\
                (fst r = true ->
                 TryGetResult cfg env fuel resbuf (ex_buf st) size (min_seqno req)
                   true (tick (ex_net st))
                 = Done (kSuccess, ex_buf (snd r), ex_net (snd r)))
            | _ => True
            end).
  { intros st0 Hb Hn.
    destruct (exec_get_result cfg env fuel resbuf size req act st0)
      as [[ok st1]| |] eqn:Hg; cbn [rbind]; try exact I.
    pose proof (exec_get_result_frame cfg env fuel resbuf size req act st0 st1 ok Hg)
      as [_ Hframe].
    destruct ok; cbn [negb].
    - destruct (Z.eqb_spec (min_seqno req) (min_seqno act)) as [Heq|Hne].
      + split; [discriminate|]. intros _. cbn [fst snd].
        revert Hg. unfold exec_get_result. rewrite <- Heq, Z.eqb_refl, Hb, Hn.
        destruct (TryGetResult _ _ _ _ _ _ _ _ _) as [[[r b] n]| |];
          cbn [rbind]; try discriminate.
        destruct (CheckAndRecover env r n) as [ok' n'] eqn:Hc.
        intros [= -> <-]. apply CheckAndRecover_true in Hc as [-> ->]. reflexivity.
      + intros _. rewrite Hframe by reflexivity. exact Hb.
    - intros Hne. rewrite Hframe by exact Hne. exact Hb. }
  assert (Hload : forall st0,
            ex_buf st0 = ex_buf st ->
            match
              ('(ok, st1) <~ exec_load_check cfg env fuel req st0 ;
               if negb ok then Done (Next st1) else
               if false then Done (Return (true, st1)) else Done (Next st1))
            with
            | Done (Next st') => ex_buf st' = ex_buf st
            | Done (Return r) => False
            | _ => True
            end).
  { intros st0 Hb.
    destruct (exec_load_check cfg env fuel req st0) as [[ok st1]| |] eqn:Hg;
      cbn [rbind]; try exact I.
    apply exec_load_check_frame in Hg as [Hg _].
    destruct ok; cbn [negb]; congruence. }
  destruct (check_ack act); cbn [negb andb].
  - destruct (check_point act).
    + destruct (utils_Assert _ _); cbn [rbind]; try exact I. intros _. reflexivity.
    + destruct (load_check act).
      * specialize (Hload (mkExec (ex_buf st) (ex_checkpoint st) (tick (ex_net st)))
                      eq_refl).
        destruct (rbind _ _) as [[st'|r]| |]; try exact I; [intros _; exact Hload|].
        contradiction.
      * intros _. reflexivity.
  - destruct (check_point act); cbn [orb].
    + destruct (diff_seq act); cbn [andb].
      * destruct (utils_Assert _ _); cbn [rbind]; try exact I.
        apply (Hget (mkExec (ex_buf st) (ex_checkpoint st) (tick (ex_net st))));
          reflexivity.
      * intros _. reflexivity.
    + destruct (load_check act); cbn [negb].
      * destruct (diff_seq act); cbn [negb andb].
        -- specialize (Hload (mkExec (ex_buf st) (ex_checkpoint st)
                                (tick (ex_net st))) eq_refl).
           destruct (rbind _ _) as [[st'|r]| |]; try exact I; [intros _; exact Hload|].
           contradiction.
        -- split; [intros _; split; reflexivity|discriminate].
      * destruct (utils_Assert _ _); cbn [rbind]; try exact I.
        destruct (diff_seq act); cbn [andb].
        -- apply (Hget (mkExec (ex_buf st) (ex_checkpoint st) (tick (ex_net st))));
             reflexivity.
        -- split; [intros _; split; reflexivity|discriminate].
Qed.

(** The loop of [RecoverExec] for a request without flags. *)
Lemma RecoverExec_loop_requester (fuel : nat) :
  forall (st st' : Exec) (b : bool),
    RecoverExec_loop cfg env fuel resbuf size req st = Done (b, st') ->
    (was_requester cfg env fuel resbuf size req st = false ->
     b = false /\ ex_buf st' = ex_buf st) /\
    (b = true ->
     exists fuel1 st1,
       TryGetResult cfg env fuel1 resbuf (ex_buf st1) size (min_seqno req) true
         (ex_net st1)
       = Done (kSuccess, ex_buf st', ex_net st')).
Proof.
  induction fuel as [|fuel IH]; intros st st' b H; [discriminate|].
  cbn [RecoverExec_loop was_requester] in *.
  pose proof (RecoverExec_step_requester fuel st) as Hstep. cbn zeta in Hstep.
  destruct (env_reduce env (clock (ex_net st)) req) as [succ act]. cbn [fst snd] in Hstep.
  destruct (RecoverExec_step cfg env fuel resbuf size req st) as [[st1|r]| |];
    try discriminate.
  - destruct (IH st1 st' b H) as [Hno Hyes]. split; [|exact Hyes].
    intros Hw. apply orb_false_iff in Hw as [Hasked Hrest].
    destruct (Hno Hrest) as [-> ->]. split; [reflexivity|]. apply Hstep. exact Hasked.
  - injection H as ->. destruct Hstep as [Hno Hyes]. cbn [fst snd] in *. split.
    + intros Hw. apply orb_false_iff in Hw as [Hasked _]. apply Hno. exact Hasked.
    + intros Hb. exists fuel, (mkExec (ex_buf st) (ex_checkpoint st) (tick (ex_net st))).
      apply Hyes. exact Hb.
Qed.

End RequesterRecovery.

(** ** The claim on the retry loop of [Allreduce] *)

(** C9 (as amended).  A pass of the retry loop of [Allreduce] that finds
    [recovered] set copies [sendrecvbuf_] to the scratch region and leaves
    the loop: it runs no reduction and does not write [sendrecvbuf_].  In
    every pass that runs the reduction, [TryAllreduce] works on the scratch
    region, which holds a copy of [sendrecvbuf_], and the wrapper copies the
    scratch region back into [sendrecvbuf_] only after [TryAllreduce]
    reports success.  After a failed attempt [sendrecvbuf_] goes to
    [RecoverExec] as it was before the attempt.  [RecoverExec] is the other
    writer of [sendrecvbuf_]: it returns true only from a transfer that
    succeeded for this worker as requester, and leaves the buffer that
    transfer left; and when no pass of its loop has made this worker a
    requester, it returns false with [sendrecvbuf_] as it was, so that the
    scratch copy of the next pass holds the same operands as that of this
    pass. *)
Theorem Allreduce_retry (cfg : Constants) (env : Env) (fuel : nat)
    (nbytes seqno : Z) (st : Retry) :
  let ex := rt_exec st in
  let temp := memcpy (rb_temp (rt_resbuf st)) (ex_buf ex) nbytes in
  let attempt :=
    env_allreduce env (clock (ex_net ex)) (take (Z.to_nat nbytes) temp) in
  let scratch := set_temp (memcpy temp (snd attempt) nbytes) (rt_resbuf st) in
  let handed :=
    mkExec (ex_buf ex) (ex_checkpoint ex)
      (snd (CheckAndRecover env (fst attempt) (tick (ex_net ex)))) in
  (recovered st = true ->
   Allreduce_step cfg env fuel nbytes seqno st
   = Done (Return (mkRetry true (set_temp temp (rt_resbuf st)) ex))) /\
  (recovered st = false ->
   ((Z.to_nat nbytes <= length (ex_buf ex))%nat ->
    take (Z.to_nat nbytes) temp = take (Z.to_nat nbytes) (ex_buf ex)) /\
   (fst attempt = kSuccess ->
    Allreduce_step cfg env fuel nbytes seqno st
    = Done (Return (mkRetry false scratch
              (mkExec (memcpy (ex_buf ex) (rb_temp scratch) nbytes)
                 (ex_checkpoint ex) (tick (ex_net ex)))))) /\
   (fst attempt <> kSuccess ->
    Allreduce_step cfg env fuel nbytes seqno st
    = ('(rec, ex') <~ RecoverExec cfg env fuel scratch nbytes 0 seqno handed ;
       Done (Next (mkRetry rec scratch ex'))) /\
    forall rec ex',
      RecoverExec cfg env fuel scratch nbytes 0 seqno handed = Done (rec, ex') ->
      (rec = true ->
       exists fuel1 st1,
         TryGetResult cfg env fuel1 scratch (ex_buf st1) nbytes seqno true
           (ex_net st1)
         = Done (kSuccess, ex_buf ex', ex_net ex')) /\
      (was_requester cfg env fuel scratch nbytes (make_action cfg 0 seqno)
         handed = false ->
       rec = false /\ ex_buf ex' = ex_buf ex /\
       ((Z.to_nat nbytes <= length (ex_buf ex))%nat ->
        take (Z.to_nat nbytes) (memcpy (rb_temp scratch) (ex_buf ex') nbytes)
        = take (Z.to_nat nbytes) temp)))).
Proof.
  intros ex temp attempt scratch handed. split.
  { intros Hrec. unfold Allreduce_step. rewrite Hrec. reflexivity. }
  intros Hrec. split; [|split].
  - intros Hlen. apply take_memcpy. exact Hlen.
  - intros Hs. unfold Allreduce_step. rewrite Hrec. cbn [rb_temp set_temp].
    subst handed scratch attempt temp ex.
    destruct (env_allreduce env _ _) as [succ reduced]. cbn [fst snd] in *.
    subst succ. reflexivity.
  - intros Hs. split.
    + unfold Allreduce_step. rewrite Hrec. cbn [rb_temp set_temp].
      subst handed scratch attempt temp ex.
      destruct (env_allreduce env _ _) as [succ reduced]. cbn [fst snd] in *.
      destruct succ; [contradiction| |]; reflexivity.
    + intros rec ex' Hrun. rewrite RecoverExec_plain_loop in Hrun.
      assert (Hplain : no_flags (make_action cfg 0 seqno)) by (repeat split).
      destruct (RecoverExec_loop_requester cfg env scratch nbytes
                  (make_action cfg 0 seqno) Hplain fuel handed ex' rec Hrun)
        as [Hno Hyes].
      split; [exact Hyes|]. intros Hw. destruct (Hno Hw) as [-> ->].
      split; [reflexivity|]. split; [reflexivity|].
      intros Hlen. unfold temp. rewrite !take_memcpy by exact Hlen. reflexivity.
Qed.

(** The amended claim on two workers.  The first attempt of one fails while
    every rank is at the same sequence number: [RecoverExec] returns false,
    the buffer still holds the operands although the scratch region holds
    the partial result, and the retry reduces the operands.  The link of the
    other breaks when the others have completed the reduction: the operands
    go to [RecoverExec] as they were, which receives the result as requester
    and returns true. *)
Lemma Allreduce_retry_witness :
  (exists st' st'',
     Allreduce_step sample_constants failed_attempt_env 5 4 0
       (mkRetry false (mkResultBuffer [] four_zeros)
          (mkExec operands [] (mkNet [fresh_link] 1)))
     = Done (Next st') /\
     recovered st' = false /\
     ex_buf (rt_exec st') = operands /\
     rb_temp (rt_resbuf st') = [xff; xff; xff; xff] /\
     Allreduce_step sample_constants failed_attempt_env 5 4 0 st'
     = Done (Return st'') /\
     ex_buf (rt_exec st'') = rev operands) /\
  Allreduce_step sample_constants broken_link_env 5 4 0
    (mkRetry false (mkResultBuffer [] four_zeros)
       (mkExec operands [] (mkNet [fresh_link] 1)))
  = Done (Next (mkRetry true (mkResultBuffer [] operands)
                  (mkExec [x0a; x0b; x0c; x0d] []
                     (mkNet [mkLink false 4 0 1024] 8)))).
Proof.
  split.
  - destruct (Allreduce_retry sample_constants failed_attempt_env 5 4 0
                (mkRetry false (mkResultBuffer [] four_zeros)
                   (mkExec operands [] (mkNet [fresh_link] 1))))
      as (_ & Hrun0).
    destruct (Hrun0 eq_refl) as (_ & _ & Hfail).
    destruct Hfail as [Hstep Hexec]; [discriminate|].
    assert (Hrun : RecoverExec sample_constants failed_attempt_env 5
                     (mkResultBuffer [] [xff; xff; xff; xff]) 4 0 0
                     (mkExec operands [] (mkNet [fresh_link] 3))
                   = Done (false, mkExec operands [] (mkNet [fresh_link] 4)))
      by (vm_compute; reflexivity).
    destruct (Hexec _ _ Hrun) as [_ Hno].
    destruct Hno as (_ & Hbuf & _); [vm_compute; reflexivity|].
    eexists (mkRetry false (mkResultBuffer [] [xff; xff; xff; xff])
               (mkExec operands [] (mkNet [fresh_link] 4))), _.
    split; [vm_compute; reflexivity|].
    split; [reflexivity|]. split; [exact Hbuf|]. split; [reflexivity|].
    split; vm_compute; reflexivity.
  - destruct (Allreduce_retry sample_constants broken_link_env 5 4 0
                (mkRetry false (mkResultBuffer [] four_zeros)
                   (mkExec operands [] (mkNet [fresh_link] 1))))
      as (_ & Hrun0).
    destruct (Hrun0 eq_refl) as (_ & _ & Hfail).
    destruct Hfail as [Hstep _]; [discriminate|].
    rewrite Hstep. reflexivity.
Defined.

(** ** The nodes that are not the requester of a transfer *)



Section ServingProperties.

Variable cfg : Constants.
Variable env : Env.



End ServingProperties.

(** ** The claim on the nodes that are not the requester *)


